(** * IntelliMap: the column-matching engine of [utils/mapper.py],
      the review step of [app.py] and the quality report of
      [utils/metadata_manager.py], embedded in Rocq.

    Conventions of the embedding.

    - A Python [str] is a list of characters ([str := list ascii]); the
      characters are the code points 0..255, on which [str.lower], the
      class [\s] of [re] and [str.split] are written out below.
    - A Python [float] that holds a score or a confidence is a rational
      number ([Q]); [x / y] is exact division. Where the source truncates
      a float with [int()], in the overlap percentage of
      [_detect_value_contamination], the arithmetic is that of IEEE 754
      binary64: every operation is rounded by [round64]. The test
      [nunique() > len(df) * 0.9] of the same function is written with the
      exact product, which takes the same decisions
      ([skip_test_in_binary64]).
    - A Python [dict] is an association list in insertion order
      ([dict_set] keeps the position of a key that is already present);
      a pandas DataFrame is a [dict] from column labels to columns.
    - Library calls are fields of a class, one class per library:
      [Rapidfuzz] for [rapidfuzz.fuzz], [Scipy] for
      [scipy.optimize.linear_sum_assignment], [Pandas] for
      [pandas.to_numeric], [pandas.to_datetime] and [Series.sample]. What
      the proofs assume of a library is a class of its own
      ([RapidfuzzRange], [LinearSumAssignment]).
    - Code that can raise returns a [result]. *)

From Stdlib Require Import List Ascii String Bool Arith Lia ZArith QArith Qround Lqa
  Qpower Permutation.
From Stdlib Require SpecFloat.
Import ListNotations.

Set Implicit Arguments.

(* ================================================================= *)
(** ** Python strings *)

Definition str := list ascii.

Definition py (s : string) : str := list_ascii_of_string s.

Definition str_dec : forall a b : str, {a = b} + {a <> b} :=
  list_eq_dec ascii_dec.

Definition str_eqb (a b : str) : bool :=
  if str_dec a b then true else false.

Definition code (c : ascii) : nat := nat_of_ascii c.

Definition between (lo hi n : nat) : bool := (lo <=? n) && (n <=? hi).

(** [str.isspace] on one character, which is also the class [\s] of a
    [str] pattern and the separator set of [str.split()]. *)
Definition is_space (c : ascii) : bool :=
  let n := code c in
  between 9 13 n || between 28 32 n || (n =? 133) || (n =? 160).

Definition is_lower_az (c : ascii) : bool := between 97 122 (code c).
Definition is_upper_az (c : ascii) : bool := between 65 90 (code c).
Definition is_digit (c : ascii) : bool := between 48 57 (code c).

(** [str.lower] on one character of the range 0..255. *)
Definition lower_char (c : ascii) : ascii :=
  let n := code c in
  if between 65 90 n || (between 192 222 n && negb (n =? 215))
  then ascii_of_nat (n + 32) else c.

Definition lower (s : str) : str := map lower_char s.

(** The characters that [re.sub(r'[^a-zA-Z0-9\s]', '', _)] keeps. *)
Definition keep_char (c : ascii) : bool :=
  is_lower_az c || is_upper_az c || is_digit c || is_space c.

Definition re_sub_special (s : str) : str := filter keep_char s.

(** [str.split()] without argument: maximal runs of non-space characters.
    [cur] is the word being read. *)
Definition emit (cur : str) : list str :=
  match cur with [] => [] | _ => [cur] end.

Fixpoint split_from (cur : str) (s : str) : list str :=
  match s with
  | [] => emit cur
  | c :: s' =>
      if is_space c then emit cur ++ split_from [] s'
      else split_from (cur ++ [c]) s'
  end.

Definition split (s : str) : list str := split_from [] s.

(** [sep.join(l)]. *)
Fixpoint join (sep : str) (l : list str) : str :=
  match l with
  | [] => []
  | [w] => w
  | w :: ws => w ++ sep ++ join sep ws
  end.

Definition space : str := py " ".

(* ================================================================= *)
(** ** Dictionaries *)

Section Dict.
Variables K V : Type.
Variable K_dec : forall a b : K, {a = b} + {a <> b}.

Definition dict := list (K * V).

Fixpoint dict_get (d : dict) (k : K) : option V :=
  match d with
  | [] => None
  | (k', v) :: d' => if K_dec k k' then Some v else dict_get d' k
  end.

(** [d[k] = v]: in place when [k] is a key already, appended last
    otherwise. *)
Fixpoint dict_set (d : dict) (k : K) (v : V) : dict :=
  match d with
  | [] => [(k, v)]
  | (k', v') :: d' =>
      if K_dec k k' then (k', v) :: d' else (k', v') :: dict_set d' k v
  end.

Definition keys (d : dict) : list K := map fst d.
Definition values (d : dict) : list V := map snd d.

(** [{f(x): g(x) for x in l}] *)
Definition dict_of (l : list (K * V)) : dict :=
  fold_left (fun d kv => dict_set d (fst kv) (snd kv)) l [].
End Dict.

Arguments dict_get {K V} K_dec d k.
Arguments dict_set {K V} K_dec d k v.
Arguments keys {K V} d.
Arguments values {K V} d.
Arguments dict_of {K V} K_dec l.

(* ================================================================= *)
(** ** [SmartMapper]: the tables *)

Definition FIELD_SYNONYMS : list (str * list str) :=
  [ (py "email", map py ["email"; "e-mail"; "mail"; "email address"; "electronic mail"; "e mail"]);
    (py "phone", map py ["phone"; "telephone"; "mobile"; "cell"; "contact number"; "phone number"; "tel"; "contact"; "phone no"]);
    (py "name", map py ["name"; "full name"; "fullname"; "customer name"; "person name"; "client name"]);
    (py "first_name", map py ["first name"; "firstname"; "given name"; "fname"; "first"]);
    (py "last_name", map py ["last name"; "lastname"; "surname"; "family name"; "lname"; "last"]);
    (py "address", map py ["address"; "street address"; "location"; "addr"; "street"; "address line"]);
    (py "city", map py ["city"; "town"; "municipality"]);
    (py "state", map py ["state"; "province"; "region"]);
    (py "zip", map py ["zip"; "zipcode"; "postal code"; "postcode"; "zip code"; "postal"]);
    (py "country", map py ["country"; "nation"]);
    (py "date", map py ["date"; "dt"; "timestamp"; "time"; "datetime"]);
    (py "id", map py ["id"; "identifier"; "uid"; "unique id"; "record id"; "customer id"; "user id"]);
    (py "amount", map py ["amount"; "total"; "sum"; "value"; "price"; "cost"; "amt"]);
    (py "quantity", map py ["quantity"; "qty"; "count"; "number"; "num"]);
    (py "description", map py ["description"; "desc"; "details"; "notes"; "comments"]);
    (py "status", map py ["status"; "state"; "condition"]);
    (py "company", map py ["company"; "organization"; "org"; "business"; "company name"]);
    (py "title", map py ["title"; "job title"; "position"; "role"]);
    (py "department", map py ["department"; "dept"; "division"]);
    (py "salary", map py ["salary"; "wage"; "pay"; "compensation"]);
    (py "age", map py ["age"; "years old"; "yrs"]);
    (py "gender", map py ["gender"; "sex"]);
    (py "website", map py ["website"; "url"; "web"; "site"]) ]%string.

Definition ABBREVIATIONS : dict str str :=
  map (fun kv => (py (fst kv), py (snd kv)))
  [ ("addr", "address");
    ("qty", "quantity");
    ("desc", "description");
    ("num", "number");
    ("amt", "amount");
    ("dt", "date");
    ("tel", "telephone");
    ("mob", "mobile");
    ("fname", "first name");
    ("lname", "last name");
    ("dob", "date of birth");
    ("ssn", "social security number");
    ("ein", "employer identification number");
    ("org", "organization");
    ("dept", "department");
    ("mgr", "manager");
    ("emp", "employee");
    ("cust", "customer");
    ("prod", "product");
    ("cat", "category");
    ("ref", "reference");
    ("no", "number");
    ("st", "street");
    ("ave", "avenue");
    ("blvd", "boulevard");
    ("dr", "drive");
    ("ln", "lane");
    ("rd", "road");
    ("ct", "court");
    ("pl", "place") ]%string.

(* ================================================================= *)
(** ** [normalize_header] *)

(** [self.ABBREVIATIONS.get(word, word)] *)
Definition expand (word : str) : str :=
  match dict_get str_dec ABBREVIATIONS word with
  | Some e => e
  | None => word
  end.

Definition normalize_header (header : str) : str :=
  let normalized := re_sub_special (lower header) in
  let normalized := join space (split normalized) in
  let words := split normalized in
  let expanded_words := map expand words in
  join space expanded_words.

(* ================================================================= *)
(** ** Exceptions *)

Inductive exn := IndexError | KeyError | ValueError.

Inductive result (A : Type) :=
| Ok (a : A)
| Raise (e : exn).

Arguments Ok {A} a.
Arguments Raise {A} e.

Definition bind {A B} (r : result A) (k : A -> result B) : result B :=
  match r with
  | Ok a => k a
  | Raise e => Raise e
  end.

Notation "x <- r ;; k" := (bind r (fun x => k))
  (at level 61, r at next level, right associativity).

(** [l[i]] on a list *)
Definition list_get {A} (l : list A) (i : nat) : result A :=
  match nth_error l i with
  | Some a => Ok a
  | None => Raise IndexError
  end.

(** [d[k]] on a dict *)
Definition dict_item {V} (d : dict str V) (k : str) : result V :=
  match dict_get str_dec d k with
  | Some v => Ok v
  | None => Raise KeyError
  end.

(* ================================================================= *)
(** ** Scores *)

Open Scope Q_scope.

Definition Qltb (x y : Q) : bool := negb (Qle_bool y x).

Definition Qnat (n : nat) : Q := inject_Z (Z.of_nat n).

(** The two ratios of [rapidfuzz.fuzz] that the scorer calls. *)
Class Rapidfuzz := {
  token_sort_ratio : str -> str -> Q;
  token_set_ratio : str -> str -> Q
}.

(** Both ratios are percentages. *)
Class RapidfuzzRange (F : Rapidfuzz) : Prop := {
  token_sort_range : forall a b, 0 <= token_sort_ratio a b <= 100;
  token_set_range : forall a b, 0 <= token_set_ratio a b <= 100
}.

(** [any(term == syn for syn in synonyms)] *)
Definition any_eq (term : str) (synonyms : list str) : bool :=
  existsb (fun syn => str_eqb term syn) synonyms.

Fixpoint check_groups (groups : list (str * list str)) (term1 term2 : str) : Q :=
  match groups with
  | [] => 0
  | (_, synonyms) :: rest =>
      let term1_match := any_eq term1 synonyms in
      let term2_match := any_eq term2 synonyms in
      if term1_match && term2_match then 95
      else check_groups rest term1 term2
  end.

Definition _check_synonym_match (term1 term2 : str) : Q :=
  check_groups FIELD_SYNONYMS term1 term2.

(** [set(l)] for a list of words: the distinct words. *)
Definition set_of (l : list str) : list str := nodup str_dec l.

Definition mem (w : str) (s : list str) : bool :=
  existsb (fun x => str_eqb w x) s.

Definition inter (s1 s2 : list str) : list str :=
  filter (fun w => mem w s2) s1.

Definition issubset (s1 s2 : list str) : bool :=
  forallb (fun w => mem w s2) s1.

Definition is_empty {A} (l : list A) : bool :=
  match l with [] => true | _ => false end.

Section Scorer.
Context {F : Rapidfuzz}.

(** The second test [if template_words and raw_words] of the source is
    true whenever it is reached and is left out. *)

Definition _calculate_match_score (template_col raw_col : str) : Q :=
  let norm_template := normalize_header template_col in
  let norm_raw := normalize_header raw_col in
  if str_eqb norm_template norm_raw then 100
  else
    let synonym_score := _check_synonym_match norm_template norm_raw in
    if Qltb 0 synonym_score then synonym_score
    else
      let template_words := set_of (split norm_template) in
      let raw_words := set_of (split norm_raw) in
      if is_empty template_words || is_empty raw_words then 0
      else
        let common_words := inter template_words raw_words in
        let le := (List.length template_words <=? List.length raw_words)%nat in
        let shorter_set := if le then template_words else raw_words in
        let longer_set := if le then raw_words else template_words in
        if issubset shorter_set longer_set then 95
        else
          let word_overlap :=
            Qnat (List.length common_words) /
            Qnat (Nat.max (List.length template_words) (List.length raw_words)) in
          if negb (is_empty common_words) && Qltb 0.5 word_overlap
          then 70 + word_overlap * 20
          else
            let token_sort_score := token_sort_ratio norm_template norm_raw in
            let token_set_score := token_set_ratio norm_template norm_raw in
            let token_score := (token_sort_score + token_set_score) / 2 in
            if Qle_bool 70 token_score then token_score else 0.
End Scorer.

(* ================================================================= *)
(** ** [fuzzy_match_headers] *)

(** The Mapping: [{template_col: (raw_col or None, confidence)}]. *)
Definition Mapping := dict str (option str * Q).

(** [scipy.optimize.linear_sum_assignment]: from a cost matrix to the
    arrays [(row_ind, col_ind)]. *)
Class Scipy := {
  linear_sum_assignment : list (list Q) -> list nat * list nat
}.

Definition matching := list (nat * nat).

Definition total (f : nat -> nat -> Q) (p : matching) : Q :=
  fold_right (fun ij acc => f (fst ij) (snd ij) + acc) 0 p.

Definition entry (M : list (list Q)) (i j : nat) : Q :=
  nth j (nth i M []) 0.

Definition rectangular (n m : nat) (M : list (list Q)) : Prop :=
  List.length M = n /\ Forall (fun row => List.length row = m) M.

(** Each row is used at most once and each column at most once. *)
Definition one_to_one (n m : nat) (p : matching) : Prop :=
  NoDup (map fst p) /\ NoDup (map snd p) /\
  Forall (fun ij => (fst ij < n)%nat /\ (snd ij < m)%nat) p.

(** What SciPy documents of the solver: on an [n x m] matrix it assigns
    [min n m] rows to as many columns, one to one, at the least total
    cost. *)
Class LinearSumAssignment (Sci : Scipy) : Prop := {
  lsa_optimal : forall M n m,
    rectangular n m M ->
    let rc := linear_sum_assignment M in
    List.length (fst rc) = Nat.min n m /\
    List.length (snd rc) = Nat.min n m /\
    one_to_one n m (combine (fst rc) (snd rc)) /\
    forall p, one_to_one n m p -> List.length p = Nat.min n m ->
              total (entry M) (combine (fst rc) (snd rc)) <= total (entry M) p
}.

(** [np.where(a == i)[0][0]]: the first position of [i] in [a]. *)
Fixpoint index_of (i : nat) (a : list nat) : nat :=
  match a with
  | [] => 0
  | x :: a' => if (x =? i)%nat then 0%nat else S (index_of i a')
  end.

Section Assigner.
Context {F : Rapidfuzz} {Sci : Scipy}.
Variable similarity_threshold : Z.

(** [cost_matrix[i, j] = 100.0 - score] for every pair; the initial
    fill with [100.0] is overwritten everywhere. *)
Definition cost_matrix_of (template_columns raw_columns : list str)
  : list (list Q) :=
  map (fun template_col =>
         map (fun raw_col => 100 - _calculate_match_score template_col raw_col)
             raw_columns)
      template_columns.

(** The value stored at [mappings[template_col]] for row [i]. *)
Definition assign_row (cost_matrix : list (list Q)) (raw_columns : list str)
    (template_indices raw_indices : list nat) (i : nat)
  : result (option str * Q) :=
  if existsb (fun x => (x =? i)%nat) template_indices then
    let idx := index_of i template_indices in
    raw_idx <- list_get raw_indices idx ;;
    raw_col <- list_get raw_columns raw_idx ;;
    row <- list_get cost_matrix i ;;
    cost <- list_get row raw_idx ;;
    let score := 100 - cost in
    if Qle_bool (inject_Z similarity_threshold) score
    then Ok (Some raw_col, score / 100)
    else Ok (None, 0)
  else Ok (None, 0).

(** [for i, template_col in enumerate(template_columns)], from [i] on. *)
Fixpoint build_mappings (cost_matrix : list (list Q)) (raw_columns : list str)
    (template_indices raw_indices : list nat)
    (i : nat) (columns : list str) (mappings : Mapping) : result Mapping :=
  match columns with
  | [] => Ok mappings
  | template_col :: rest =>
      v <- assign_row cost_matrix raw_columns template_indices raw_indices i ;;
      build_mappings cost_matrix raw_columns template_indices raw_indices
                     (S i) rest (dict_set str_dec mappings template_col v)
  end.

Definition fuzzy_match_headers (raw_columns template_columns : list str)
  : result Mapping :=
  if is_empty raw_columns || is_empty template_columns then
    Ok (dict_of str_dec (map (fun col => (col, (None, 0))) template_columns))
  else
    let cost_matrix := cost_matrix_of template_columns raw_columns in
    let '(template_indices, raw_indices) := linear_sum_assignment cost_matrix in
    build_mappings cost_matrix raw_columns template_indices raw_indices
                   0 template_columns [].

(** The assignment the solver returns inside [fuzzy_match_headers],
    before the threshold is applied. *)
Definition assignment (raw_columns template_columns : list str) : matching :=
  let rc := linear_sum_assignment (cost_matrix_of template_columns raw_columns) in
  combine (fst rc) (snd rc).

Definition score_at (raw_columns template_columns : list str) (i j : nat) : Q :=
  _calculate_match_score (nth i template_columns []) (nth j raw_columns []).
End Assigner.

(** A reference solver: every assignment of [k] rows is listed and one of
    least total cost is returned. It serves as the instance of [Scipy] in
    the examples. *)
Fixpoint picks {A} (l : list A) : list (A * list A) :=
  match l with
  | [] => []
  | x :: xs => (x, xs) :: map (fun p => (fst p, x :: snd p)) (picks xs)
  end.

Fixpoint matchings (rows : list nat) (k : nat) (cols : list nat)
  : list matching :=
  match k with
  | O => [[]]
  | S k' =>
      match rows with
      | [] => []
      | i :: rs =>
          flat_map (fun jc => map (cons (i, fst jc)) (matchings rs k' (snd jc)))
                   (picks cols)
          ++ matchings rs k cols
      end
  end.

Fixpoint argmin (f : matching -> Q) (best : matching) (l : list matching)
  : matching :=
  match l with
  | [] => best
  | p :: l' => if Qltb (f p) (f best) then argmin f p l' else argmin f best l'
  end.

Definition width (M : list (list Q)) : nat :=
  match M with [] => 0%nat | row :: _ => List.length row end.

Definition exhaustive_assignment (M : list (list Q)) : list nat * list nat :=
  let n := List.length M in
  let m := width M in
  match matchings (seq 0 n) (Nat.min n m) (seq 0 m) with
  | [] => ([], [])
  | p :: ps =>
      let best := argmin (total (entry M)) p ps in
      (map fst best, map snd best)
  end.

Definition exhaustive : Scipy :=
  {| linear_sum_assignment := exhaustive_assignment |}.

(* ================================================================= *)
(** ** [detect_data_patterns] *)

(** A column: each cell is null ([None]) or a value, held by its [str()]
    rendering. *)
Definition Series := list (option str).

(** A DataFrame with pairwise distinct column labels, column by column. *)
Definition DataFrame := dict str Series.

Definition columns (df : DataFrame) : list str := keys df.

(** [len(df)]: the number of rows. *)
Definition nrows (df : DataFrame) : nat :=
  match df with
  | [] => 0%nat
  | (_, series) :: _ => List.length series
  end.

(** [series.dropna().astype(str)] *)
Fixpoint dropna (series : Series) : list str :=
  match series with
  | [] => []
  | Some v :: rest => v :: dropna rest
  | None :: rest => dropna rest
  end.

(** What the engine calls of pandas and NumPy. [is_number s] holds when
    [pandas.to_numeric] parses [s]; [to_datetime_coerce l] is, for
    [pandas.to_datetime(l, errors='coerce')], the flags [notna()] of the
    result, or [None] when the call raises; [sample_draw n l] is the draw
    of [n] values among [l] that [Series.sample(n)] makes when [n] does not
    exceed the population. *)
Class Pandas := {
  is_number : str -> bool;
  to_datetime_coerce : list str -> option (list bool);
  sample_draw : nat -> list str -> list str
}.

Inductive pattern := email | numeric | date | text.

Definition pattern_eqb (a b : pattern) : bool :=
  match a, b with
  | email, email | numeric, numeric | date, date | text, text => true
  | _, _ => false
  end.

Definition is_letter (c : ascii) : bool := is_lower_az c || is_upper_az c.

Definition one_of (cs : string) (c : ascii) : bool :=
  existsb (fun x => (code x =? code c)%nat) (py cs).

(** [[a-zA-Z0-9._%+-]] *)
Definition local_char (c : ascii) : bool :=
  is_letter c || is_digit c || one_of "._%+-" c.

(** [[a-zA-Z0-9.-]] *)
Definition domain_char (c : ascii) : bool :=
  is_letter c || is_digit c || one_of ".-" c.

(** The text before and after the first [sep]. *)
Fixpoint cut_first (sep : ascii) (s : str) : option (str * str) :=
  match s with
  | [] => None
  | c :: s' =>
      if (code c =? code sep)%nat then Some ([], s')
      else match cut_first sep s' with
           | Some (a, b) => Some (c :: a, b)
           | None => None
           end
  end.

(** The text before and after the last [sep]. *)
Definition cut_last (sep : ascii) (s : str) : option (str * str) :=
  match cut_first sep (rev s) with
  | Some (a, b) => Some (rev b, rev a)
  | None => None
  end.

(** [$] also matches just before a newline that ends the string. *)
Definition before_final_newline (s : str) : str :=
  match rev s with
  | c :: r => if (code c =? 10)%nat then rev r else s
  | [] => s
  end.

(** [re.match(r'^[a-zA-Z0-9._%+-]+@[a-zA-Z0-9.-]+\.[a-zA-Z]{2,}$', x)] *)
Definition email_match (x : str) : bool :=
  match cut_first "@" (before_final_newline x) with
  | None => false
  | Some (local, rest) =>
      negb (is_empty local) && forallb local_char local &&
      match cut_last "." rest with
      | None => false
      | Some (domain, tld) =>
          negb (is_empty domain) && forallb domain_char domain &&
          (2 <=? List.length tld)%nat && forallb is_letter tld
      end
  end.

(** [re.sub(r'[$,£€]', '', x).replace(',', '')]; of the four symbols the
    euro sign lies outside the characters of [str]. *)
Definition numeric_clean (x : str) : str :=
  let stripped :=
    filter (fun c => negb ((code c =? 36) || (code c =? 44) || (code c =? 163))%nat) x in
  filter (fun c => negb (code c =? 44)%nat) stripped.

Definition count_true (l : list bool) : nat :=
  List.length (filter (fun b => b) l).

Section Patterns.
Context {P : Pandas}.

Definition detect_data_patterns (series : Series) : pattern :=
  let sample := dropna series in
  if (List.length sample =? 0)%nat then text
  else
    let sample := firstn 10 sample in
    if forallb email_match sample then email
    else if forallb is_number (map numeric_clean sample) then numeric
    else
      match to_datetime_coerce sample with
      | Some dates =>
          if Qltb (Qnat (List.length sample) / 2) (Qnat (count_true dates))
          then date else text
      | None => text
      end.
End Patterns.

(* ================================================================= *)
(** ** [semantic_pattern_match] *)

(** [l.pop(i)] as far as the list goes. *)
Definition pop {A} (i : nat) (l : list A) : list A :=
  firstn i l ++ skipn (S i) l.

Section Enhancer.
Context {P : Pandas}.

(** [{col: self.detect_data_patterns(df[col]) for col in df.columns}] *)
Definition patterns_of (df : DataFrame) : dict str pattern :=
  dict_of str_dec (map (fun cs => (fst cs, detect_data_patterns (snd cs))) df).

Definition unmapped_template_of (mappings : Mapping) : list str :=
  map fst
      (filter (fun kv =>
                 match kv with
                 | (_, (None, _)) => true
                 | (_, (Some _, score)) => Qltb score 0.8
                 end) mappings).

(** [{match for match, score in mappings.values() if match is not None}] *)
Fixpoint mapped_raw_of (mappings : Mapping) : list str :=
  match mappings with
  | [] => []
  | (_, (Some m, _)) :: rest => m :: mapped_raw_of rest
  | (_, (None, _)) :: rest => mapped_raw_of rest
  end.

(** [for i, raw_col in enumerate(unused_raw)], from position [i] on;
    [rest] is what is left to visit. The result is the state
    [(enhanced_mappings, unused_raw)] when the loop is left. *)
Fixpoint scan (raw_patterns : dict str pattern)
    (template_col : str) (template_pattern : pattern)
    (i : nat) (rest : list str)
    (enhanced_mappings : Mapping) (unused_raw : list str)
  : result (Mapping * list str) :=
  match rest with
  | [] => Ok (enhanced_mappings, unused_raw)
  | raw_col :: rest' =>
      raw_pattern <- dict_item raw_patterns raw_col ;;
      if pattern_eqb template_pattern raw_pattern then
        current <- dict_item enhanced_mappings template_col ;;
        let current_score := snd current in
        if Qltb current_score 0.6 then
          Ok (dict_set str_dec enhanced_mappings template_col (Some raw_col, 0.6),
              pop i unused_raw)
        else
          scan raw_patterns template_col template_pattern (S i) rest'
               enhanced_mappings unused_raw
      else
        scan raw_patterns template_col template_pattern (S i) rest'
             enhanced_mappings unused_raw
  end.

(** [for template_col in unmapped_template] *)
Fixpoint enhance (template_patterns raw_patterns : dict str pattern)
    (unmapped_template : list str)
    (enhanced_mappings : Mapping) (unused_raw : list str)
  : result (Mapping * list str) :=
  match unmapped_template with
  | [] => Ok (enhanced_mappings, unused_raw)
  | template_col :: rest =>
      match dict_get str_dec template_patterns template_col with
      | None => enhance template_patterns raw_patterns rest
                        enhanced_mappings unused_raw
      | Some template_pattern =>
          if pattern_eqb template_pattern text then
            enhance template_patterns raw_patterns rest
                    enhanced_mappings unused_raw
          else
            st <- scan raw_patterns template_col template_pattern
                       0 unused_raw enhanced_mappings unused_raw ;;
            enhance template_patterns raw_patterns rest (fst st) (snd st)
      end
  end.

Definition semantic_pattern_match (raw_df template_df : DataFrame)
    (mappings : Mapping) : result Mapping :=
  let enhanced_mappings := mappings in
  let raw_patterns := patterns_of raw_df in
  let template_patterns := patterns_of template_df in
  let unmapped_template := unmapped_template_of mappings in
  let mapped_raw := mapped_raw_of mappings in
  let unused_raw :=
    filter (fun col => negb (mem col mapped_raw)) (columns raw_df) in
  st <- enhance template_patterns raw_patterns unmapped_template
                enhanced_mappings unused_raw ;;
  Ok (fst st).
End Enhancer.

(* ================================================================= *)
(** ** [_detect_value_contamination] *)

(** One line of the report: the other column and [int(overlap_pct*100)]
    (the source renders the pair as a string). *)
Definition overlap := (str * Z)%type.

Definition ContaminationReport := dict str (list overlap).

(** [contamination[col].append(x)], with the list created on first use. *)
Definition report_append (contamination : ContaminationReport)
    (col : str) (x : overlap) : ContaminationReport :=
  match dict_get str_dec contamination col with
  | None => dict_set str_dec contamination col [x]
  | Some l => dict_set str_dec contamination col (l ++ [x])
  end.

(** *** Binary64 arithmetic

    A finite float is held by the rational it denotes. An operation of
    Python on floats is the exact operation followed by [round64], the
    rounding to the nearest number with a significand of 53 bits, a tie
    going to the even significand. The exponent is not bounded: the
    quotients and products below stay far from overflow and underflow. *)

Definition pow2 (e : Z) : Q := 2 ^ e.

(** [floor(log2(q))], for [0 < q]. *)
Definition ilog2 (q : Q) : Z :=
  let a := (Z.log2 (Qnum q) - Z.log2 (Zpos (Qden q)))%Z in
  if Qle_bool (pow2 a) q then a else (a - 1)%Z.

(** The nearest integer, a tie going to the even one. *)
Definition round_half_even (q : Q) : Z :=
  let f := Qfloor q in
  match Qcompare (q - inject_Z f) (1 # 2) with
  | Lt => f
  | Gt => (f + 1)%Z
  | Eq => if Z.even f then f else (f + 1)%Z
  end.

(** For [0 < q]: the significand is [q] scaled into [[2^52, 2^53]] and
    rounded. *)
Definition round64_pos (q : Q) : Q :=
  let e := (ilog2 q - 52)%Z in
  inject_Z (round_half_even (q / pow2 e)) * pow2 e.

Definition round64 (q : Q) : Q :=
  match Qcompare q 0 with
  | Eq => 0
  | Gt => round64_pos q
  | Lt => - round64_pos (- q)
  end.

(** [a / b] on two [int]s: the correctly rounded quotient. *)
Definition true_divide (a b : nat) : Q := round64 (Qnat a / Qnat b).

(** [x * y] on two floats. *)
Definition float_mul (x y : Q) : Q := round64 (x * y).

(** [int(x)]: the integer part, towards zero. *)
Definition int_of_float (x : Q) : Z := Z.quot (Qnum x) (Zpos (Qden x)).

Section Contamination.
Context {P : Pandas}.

(** [Series.sample(n)]: a draw without replacement, which raises when
    [n] exceeds the population. *)
Definition Series_sample (population : list str) (n : nat)
  : result (list str) :=
  if (List.length population <? n)%nat then Raise ValueError
  else Ok (sample_draw n population).

(** [df[col].nunique()]: the distinct non-null values. *)
Definition nunique (series : Series) : nat :=
  List.length (nodup str_dec (dropna series)).

(** The first loop, over the columns of [df] that are left. *)
Fixpoint collect_samples (len_df : nat) (sample_size : nat)
    (cols : DataFrame) (str_samples : dict str (list str))
  : result (dict str (list str)) :=
  match cols with
  | [] => Ok str_samples
  | (col, series) :: rest =>
      if Qltb (Qnat len_df * 0.9) (Qnat (nunique series)) then
        collect_samples len_df sample_size rest str_samples
      else
        sample <- Series_sample (dropna series)
                                (Nat.min sample_size (List.length series)) ;;
        if (0 <? List.length sample)%nat then
          collect_samples len_df sample_size rest
                          (dict_set str_dec str_samples col (set_of sample))
        else
          collect_samples len_df sample_size rest str_samples
  end.

(** [for col2 in columns[i+1:]] *)
Fixpoint compare_with (str_samples : dict str (list str)) (col1 : str)
    (others : list str) (contamination : ContaminationReport)
  : result ContaminationReport :=
  match others with
  | [] => Ok contamination
  | col2 :: rest =>
      s1 <- dict_item str_samples col1 ;;
      s2 <- dict_item str_samples col2 ;;
      let common := inter s1 s2 in
      if (0 <? List.length common)%nat then
        let overlap_pct :=
          true_divide (List.length common)
                      (Nat.min (List.length s1) (List.length s2)) in
        if Qltb (round64 0.1) overlap_pct then
          let pct := int_of_float (float_mul overlap_pct 100) in
          let contamination := report_append contamination col1 (col2, pct) in
          let contamination := report_append contamination col2 (col1, pct) in
          compare_with str_samples col1 rest contamination
        else compare_with str_samples col1 rest contamination
      else compare_with str_samples col1 rest contamination
  end.

(** [for i, col1 in enumerate(columns)] *)
Fixpoint compare_all (str_samples : dict str (list str))
    (columns : list str) (contamination : ContaminationReport)
  : result ContaminationReport :=
  match columns with
  | [] => Ok contamination
  | col1 :: rest =>
      contamination <- compare_with str_samples col1 rest contamination ;;
      compare_all str_samples rest contamination
  end.

Definition _detect_value_contamination (df : DataFrame) (sample_size : nat)
  : result ContaminationReport :=
  str_samples <- collect_samples (nrows df) sample_size df [] ;;
  compare_all str_samples (keys str_samples) [].
End Contamination.

(* ================================================================= *)
(** ** [app.py]: the review of the mappings *)

Definition NO_MATCH : str := py "<No Match>".

Definition is_not_None (col : option str) : bool :=
  match col with Some _ => true | None => false end.

(** The entry written to [edited_mappings[template_col]] for the value
    [selected] of the select box, where [confidence] is the confidence of
    the entry under review. *)
Definition edited_entry (confidence : Q) (selected : str) : option str * Q :=
  if negb (str_eqb selected NO_MATCH) then
    let new_score := if Qltb 0 confidence then confidence else 1 in
    (Some selected, new_score)
  else (None, 0).

(** The loop over [st.session_state.mappings.items()]; [selectbox] is the
    reviewer: for a template column and its suggestion, the option chosen. *)
Fixpoint review (show_all : bool) (selectbox : str -> option str -> str)
    (mappings : Mapping) (edited_mappings : Mapping) : Mapping :=
  match mappings with
  | [] => edited_mappings
  | (template_col, (raw_col, confidence)) :: rest =>
      if negb show_all && is_not_None raw_col && Qle_bool 0.8 confidence
      then review show_all selectbox rest edited_mappings
      else
        let selected := selectbox template_col raw_col in
        review show_all selectbox rest
               (dict_set str_dec edited_mappings template_col
                         (edited_entry confidence selected))
  end.

(* ================================================================= *)
(** ** [MetadataManager] *)

Record serialized_mapping := {
  source_column : option str;
  confidence_score : Q;
  mapping_type : str
}.

(** Truth value of a float and of an optional string. *)
Definition truthy (x : Q) : bool := negb (Qeq_bool x 0).

Definition truthy_col (col : option str) : bool :=
  match col with
  | Some (_ :: _) => true
  | _ => false
  end.

Definition _serialize_mappings (mappings : Mapping)
  : dict str serialized_mapping :=
  dict_of str_dec
    (map (fun kv =>
            let '(template_col, (raw_col, confidence)) := kv in
            (template_col,
             {| source_column := raw_col;
                confidence_score := if truthy confidence then confidence else 0;
                mapping_type :=
                  if truthy confidence && Qle_bool 80 confidence
                  then py "automatic" else py "manual" |}))
         mappings).

Definition count_if {A} (f : A -> bool) (l : list A) : nat :=
  List.length (filter f l).

Definition Qsum (l : list Q) : Q := fold_right Qplus 0 l.

Definition _calculate_mapping_quality (mappings : Mapping) : dict str Q :=
  let total := List.length mappings in
  if (total =? 0)%nat then
    [ (py "overall_score", 0); (py "completeness", 0); (py "confidence", 0) ]
  else
    let mapped := count_if (fun kv => is_not_None (fst (snd kv))) mappings in
    let high_confidence :=
      count_if (fun kv => truthy_col (fst (snd kv)) && Qle_bool 80 (snd (snd kv)))
               mappings in
    let avg_confidence :=
      if (0 <? mapped)%nat then
        Qsum (map (fun kv => snd (snd kv))
                  (filter (fun kv => truthy_col (fst (snd kv))) mappings))
        / Qnat mapped
      else 0 in
    [ (py "overall_score", Qnat mapped / Qnat total * 100);
      (py "completeness", Qnat mapped / Qnat total * 100);
      (py "average_confidence", avg_confidence);
      (py "high_confidence_mappings", Qnat high_confidence);
      (py "total_mappings", Qnat total);
      (py "successful_mappings", Qnat mapped) ].

(* ================================================================= *)
(** ** [_calculate_uniqueness_scores] *)

Definition _calculate_uniqueness_scores (df : DataFrame) : dict str Q :=
  dict_of str_dec
    (map (fun cs =>
            let unique_count := nunique (snd cs) in
            let total_count := List.length (dropna (snd cs)) in
            (fst cs,
             if (0 <? total_count)%nat
             then Qnat unique_count / Qnat total_count
             else 0))
         df).

(* ================================================================= *)
(** ** [app.py]: the auto-mapping and the select box *)

(** The two calls behind the button "Auto-Map Fields". *)
Definition auto_map {F : Rapidfuzz} {Sci : Scipy} {P : Pandas}
    (similarity_threshold : Z) (raw_df template_df : DataFrame)
  : result Mapping :=
  mappings <- fuzzy_match_headers similarity_threshold
                                  (columns raw_df) (columns template_df) ;;
  semantic_pattern_match raw_df template_df mappings.

(** [{r_col for _, (r_col, _) in mappings.items() if r_col is not None}] *)
Definition used_columns_set (mappings : Mapping) : list str :=
  mapped_raw_of mappings.

(** [col == raw_col] for a column name and an optional one. *)
Definition is_col (col : str) (raw_col : option str) : bool :=
  match raw_col with
  | Some r => str_eqb col r
  | None => false
  end.

Definition available_columns (raw_columns used : list str)
    (raw_col : option str) : list str :=
  NO_MATCH ::
  filter (fun col => negb (mem col used) || is_col col raw_col) raw_columns.

(** [x in l] for an optional name. *)
Definition opt_mem (x : option str) (l : list str) : bool :=
  match x with
  | Some r => mem r l
  | None => false
  end.

Definition current_selection (available : list str) (raw_col : option str) : str :=
  if opt_mem raw_col (tl available) then
    match raw_col with Some r => r | None => NO_MATCH end
  else NO_MATCH.

(** [l.index(x)], as far as [x] is in [l]. *)
Fixpoint list_index (x : str) (l : list str) : nat :=
  match l with
  | [] => 0
  | y :: l' => if str_eqb y x then 0%nat else S (list_index x l')
  end.

(** The option a select box shows before the reviewer touches it. *)
Definition default_selected (raw_columns used : list str)
    (raw_col : option str) : str :=
  let available := available_columns raw_columns used raw_col in
  let current := current_selection available raw_col in
  let index := if mem current available then list_index current available
               else 0%nat in
  nth index available NO_MATCH.

(* ================================================================= *)
(** ** [MetadataManager]: fingerprints and compatibility *)

(** [hashlib.md5(s.encode()).hexdigest()] *)
Class Hashlib := {
  md5_hexdigest : str -> str
}.

(** [a <= b] on strings: by code points, the shorter first on a tie. *)
Fixpoint str_leb (a b : str) : bool :=
  match a, b with
  | [], _ => true
  | _ :: _, [] => false
  | x :: a', y :: b' =>
      if (code x <? code y)%nat then true
      else if (code y <? code x)%nat then false
      else str_leb a' b'
  end.

Fixpoint insert_sorted (x : str) (l : list str) : list str :=
  match l with
  | [] => [x]
  | y :: l' => if str_leb x y then x :: l else y :: insert_sorted x l'
  end.

(** [sorted(l)] *)
Definition sorted (l : list str) : list str :=
  fold_right insert_sorted [] l.

Definition _generate_fingerprint {H : Hashlib} (columns : list str) : str :=
  let column_str := join (py "|") (sorted columns) in
  md5_hexdigest column_str.

(** [self.metadata]; a field is [None] when the key is missing, as in the
    metadata of [__init__] or of an imported file. [Stats] is what the
    caller passes as statistics. *)
Record Metadata (Stats : Type) := {
  version : option str;
  created_at : option str;
  last_updated : option str;
  source_fingerprint : option str;
  template_fingerprint : option str;
  mappings_field : option (dict str serialized_mapping);
  statistics : option (Stats * Stats * dict str Q);
  column_info : option (list str * list str * nat * nat)
}.

Arguments version {Stats} _.
Arguments created_at {Stats} _.
Arguments last_updated {Stats} _.
Arguments source_fingerprint {Stats} _.
Arguments template_fingerprint {Stats} _.
Arguments mappings_field {Stats} _.
Arguments statistics {Stats} _.
Arguments column_info {Stats} _.

(** The metadata of [__init__]. *)
Definition initial_metadata (Stats : Type) : Metadata Stats :=
  {| version := Some (py "1.0");
     created_at := None;
     last_updated := None;
     source_fingerprint := None;
     template_fingerprint := None;
     mappings_field := Some [];
     statistics := None;
     column_info := None |}.

(** [create_metadata]; [timestamp] is [datetime.now().isoformat()]. *)
Definition create_metadata {H : Hashlib} {Stats : Type} (timestamp : str)
    (raw_columns template_columns : list str) (mappings : Mapping)
    (raw_df_stats template_df_stats : Stats) : Metadata Stats :=
  {| version := Some (py "1.0");
     created_at := Some timestamp;
     last_updated := Some timestamp;
     source_fingerprint := Some (_generate_fingerprint raw_columns);
     template_fingerprint := Some (_generate_fingerprint template_columns);
     mappings_field := Some (_serialize_mappings mappings);
     statistics := Some (raw_df_stats, template_df_stats,
                         _calculate_mapping_quality mappings);
     column_info :=
       Some (raw_columns, template_columns,
             count_if (fun kv => is_not_None (fst (snd kv))) mappings,
             count_if (fun kv => negb (is_not_None (fst (snd kv)))) mappings) |}.

(** [get_reusable_mappings] *)
Definition get_reusable_mappings {Stats : Type} (metadata : Metadata Stats)
  : dict str str :=
  match mappings_field metadata with
  | None => []
  | Some serialized =>
      fold_left
        (fun reusable kv =>
           if truthy_col (source_column (snd kv)) then
             match source_column (snd kv) with
             | Some source => dict_set str_dec reusable (fst kv) source
             | None => reusable
             end
           else reusable)
        serialized []
  end.

Definition _get_compatibility_recommendation (raw_match template_match : bool)
  : str :=
  if raw_match && template_match then
    py "Perfect match! You can reuse all mappings."
  else if template_match && negb raw_match then
    py "Template matches. You can reuse mappings, but verify raw data compatibility."
  else if negb template_match && raw_match then
    py "Raw data structure matches, but template is different. New mapping required."
  else
    py "Different data structure detected. New mapping recommended.".

Record compatibility := {
  is_compatible : bool;
  raw_structure_match : bool;
  template_structure_match : bool;
  can_reuse_mappings : bool;
  recommendation : str
}.

(** [self.metadata.get(key, '')] *)
Definition get_or_empty (field : option str) : str :=
  match field with Some s => s | None => [] end.

Definition validate_compatibility {H : Hashlib} {Stats : Type}
    (metadata : Metadata Stats) (raw_columns template_columns : list str)
  : compatibility :=
  let current_raw_fp := _generate_fingerprint raw_columns in
  let current_template_fp := _generate_fingerprint template_columns in
  let stored_raw_fp := get_or_empty (source_fingerprint metadata) in
  let stored_template_fp := get_or_empty (template_fingerprint metadata) in
  {| is_compatible := str_eqb current_raw_fp stored_raw_fp &&
                      str_eqb current_template_fp stored_template_fp;
     raw_structure_match := str_eqb current_raw_fp stored_raw_fp;
     template_structure_match := str_eqb current_template_fp stored_template_fp;
     can_reuse_mappings := str_eqb current_template_fp stored_template_fp;
     recommendation :=
       _get_compatibility_recommendation
         (str_eqb current_raw_fp stored_raw_fp)
         (str_eqb current_template_fp stored_template_fp) |}.

(* ================================================================= *)
(** ** [DataTransformer.clean_data] *)

(** [s.strip()] *)
Fixpoint lstrip (s : str) : str :=
  match s with
  | [] => []
  | c :: s' => if is_space c then lstrip s' else s
  end.

Definition rstrip (s : str) : str := rev (lstrip (rev s)).

Definition strip (s : str) : str := rstrip (lstrip s).

(** [str(v)] of a cell: a null is rendered 'nan'. *)
Definition astype_str (cell : option str) : str :=
  match cell with
  | Some v => v
  | None => py "nan"
  end.

Definition NULL_TOKENS : list str :=
  [py ""; py "nan"; py "None"; py "null"].

(** One cell of a column of dtype [object]:
    [astype(str).str.strip()], then [replace(['', 'nan', 'None', 'null'], np.nan)]. *)
Definition clean_cell (cell : option str) : option str :=
  let stripped := strip (astype_str cell) in
  if mem stripped NULL_TOKENS then None else Some stripped.

(** [clean_data]; [is_object col] is the test [df_clean[col].dtype == 'object']. *)
Definition clean_data (is_object : str -> bool) (df : DataFrame) : DataFrame :=
  map (fun cs =>
         (fst cs, if is_object (fst cs) then map clean_cell (snd cs) else snd cs))
      df.

(* ================================================================= *)
(** * Predicates of the statements *)

Definition no_space (w : str) : Prop := Forall (fun c => is_space c = false) w.

(** A word, as [split] returns them. *)
Definition word (w : str) : Prop := w <> [] /\ no_space w.

(** A character that [lower] and the substitution leave as it is. *)
Definition clean_char (c : ascii) : Prop :=
  keep_char c = true /\ lower_char c = c.

Definition clean_charb (c : ascii) : bool :=
  keep_char c && if ascii_dec (lower_char c) c then true else false.

(** A phrase that a second normalization reads back word for word. *)
Definition stable (e : str) : Prop :=
  Forall clean_char e /\
  split e <> [] /\
  join space (split e) = e /\
  Forall (fun w => expand w = w) (split e).

Definition stableb (e : str) : bool :=
  forallb clean_charb e &&
  negb (is_empty (split e)) &&
  str_eqb (join space (split e)) e &&
  forallb (fun w => str_eqb (expand w) w) (split e).

Definition lower_alnum (c : ascii) : bool := is_lower_az c || is_digit c.

Definition is_key (w : str) : bool :=
  match dict_get str_dec ABBREVIATIONS w with Some _ => true | None => false end.

(** An expansion of the table: words of lowercase letters and digits, none
    of them a key, with one space between two of them. *)
Definition plain_phrase (e : str) : Prop :=
  exists ws,
    e = join space ws /\
    Forall (fun w => w <> [] /\ forallb lower_alnum w = true /\ is_key w = false) ws.

Definition plain_phraseb (e : str) : bool :=
  str_eqb e (join space (split e)) &&
  forallb (fun w => negb (is_empty w) && forallb lower_alnum w && negb (is_key w))
          (split e).


(** The word set of a normalized name. *)
Definition words (s : str) : list str := set_of (split s).

(** Both names are variants of one synonym group. *)
Definition same_group (a b : str) : Prop :=
  exists g, In g FIELD_SYNONYMS /\ In a (snd g) /\ In b (snd g).

(** The smaller word set is a subset of the larger one. *)
Definition smaller_in_larger (s1 s2 : list str) : Prop :=
  ((List.length s1 <= List.length s2)%nat -> incl s1 s2) /\
  ((List.length s2 < List.length s1)%nat -> incl s2 s1).

(** [|intersection| / max(|set1|, |set2|)] *)
Definition word_overlap (s1 s2 : list str) : Q :=
  Qnat (List.length (inter s1 s2)) /
  Qnat (Nat.max (List.length s1) (List.length s2)).

Definition token_average {F : Rapidfuzz} (a b : str) : Q :=
  (token_sort_ratio a b + token_set_ratio a b) / 2.

(** The priority cascade of the scorer on two normalized names: the first
    rule whose condition holds gives the score. *)
Inductive cascade {F : Rapidfuzz} (a b : str) : Q -> Prop :=
| rule_exact :
    a = b -> cascade a b 100
| rule_synonym :
    a <> b -> same_group a b -> cascade a b 95
| rule_no_words :
    a <> b -> ~ same_group a b ->
    words a = [] \/ words b = [] -> cascade a b 0
| rule_subset :
    a <> b -> ~ same_group a b ->
    words a <> [] -> words b <> [] ->
    smaller_in_larger (words a) (words b) -> cascade a b 95
| rule_overlap :
    a <> b -> ~ same_group a b ->
    words a <> [] -> words b <> [] ->
    ~ smaller_in_larger (words a) (words b) ->
    0.5 < word_overlap (words a) (words b) ->
    cascade a b (70 + word_overlap (words a) (words b) * 20)
| rule_fuzzy :
    a <> b -> ~ same_group a b ->
    words a <> [] -> words b <> [] ->
    ~ smaller_in_larger (words a) (words b) ->
    ~ 0.5 < word_overlap (words a) (words b) ->
    70 <= token_average a b ->
    cascade a b (token_average a b)
| rule_no_match :
    a <> b -> ~ same_group a b ->
    words a <> [] -> words b <> [] ->
    ~ smaller_in_larger (words a) (words b) ->
    ~ 0.5 < word_overlap (words a) (words b) ->
    token_average a b < 70 ->
    cascade a b 0.

(** A stand-in for [rapidfuzz] in the examples: both ratios are 100 on
    equal strings and 0 otherwise. *)
Definition exact_ratio : Rapidfuzz :=
  {| token_sort_ratio := fun a b => if str_eqb a b then 100 else 0;
     token_set_ratio := fun a b => if str_eqb a b then 100 else 0 |}.


(** No two template columns of the Mapping share a source column. *)
Definition mapping_one_to_one (M : Mapping) : Prop :=
  forall t1 t2 s1 s2 c1 c2,
    t1 <> t2 ->
    dict_get str_dec M t1 = Some (Some s1, c1) ->
    dict_get str_dec M t2 = Some (Some s2, c2) ->
    s1 <> s2.

(** The threshold test on a recovered score. *)
Definition accept (similarity_threshold : Z) (raw_col : str) (score : Q)
  : option str * Q :=
  if Qle_bool (inject_Z similarity_threshold) score
  then (Some raw_col, score / 100) else (None, 0).

(** Row [i] is the last one that carries the name [t]. *)
Definition last_row (template_columns : list str) (i : nat) (t : str) : Prop :=
  nth_error template_columns i = Some t /\
  forall i', (i < i')%nat -> nth_error template_columns i' <> Some t.


(** Columns of the examples. *)
Definition raw_ex : list str := [py "email"; py "zzz"].
Definition template_ex : list str := [py "E-mail"; py "Name"].

Definition raw_df_ex : DataFrame :=
  [ (py "mail", [Some (py "ann@example.org"); None]);
    (py "when", [Some (py "2024-01-02"); Some (py "2024-02-03")]);
    (py "since", [Some (py "2020-10-10"); Some (py "2021-11-11")]) ].

Definition template_df_ex : DataFrame :=
  [ (py "Email", [Some (py "bob@example.com")]);
    (py "Start", [Some (py "2023-05-06")]);
    (py "End", [Some (py "2023-06-07")]);
    (py "Notes", [Some (py "free text")]) ].

Definition mappings_ex : Mapping :=
  [ (py "Email", (Some (py "mail"), 0.95));
    (py "Start", (None, 0));
    (py "End", (None, 0));
    (py "Notes", (None, 0)) ].

(** The non-null cells of a column, in the order of the column. *)
Inductive non_null_values : Series -> list str -> Prop :=
| non_null_end : non_null_values [] []
| non_null_skip series values :
    non_null_values series values ->
    non_null_values (None :: series) values
| non_null_keep v series values :
    non_null_values series values ->
    non_null_values (Some v :: series) (v :: values).

Definition letters : str :=
  py "abcdefghijklmnopqrstuvwxyzABCDEFGHIJKLMNOPQRSTUVWXYZ".

Definition digits : str := py "0123456789".

Definition newline : ascii := ascii_of_nat 10.

(** [x] matches [^[a-zA-Z0-9._%+-]+@[a-zA-Z0-9.-]+\.[a-zA-Z]{2,}$]: a local
    part, an at sign, a domain, a dot and two letters or more, up to the
    end of [x] or to a newline that ends [x]. *)
Definition email_shaped (x : str) : Prop :=
  exists local domain tld,
    (x = local ++ py "@" ++ domain ++ py "." ++ tld \/
     x = local ++ py "@" ++ domain ++ py "." ++ tld ++ [newline]) /\
    local <> [] /\
    Forall (fun c => In c (letters ++ digits ++ py "._%+-")) local /\
    domain <> [] /\
    Forall (fun c => In c (letters ++ digits ++ py ".-")) domain /\
    (2 <= List.length tld)%nat /\
    Forall (fun c => In c letters) tld.

Definition all_emails (sample : list str) : Prop :=
  Forall email_shaped sample.

(** The dollar sign, the comma and the pound sign. *)
Definition currency_signs : list ascii :=
  [ascii_of_nat 36; ascii_of_nat 44; ascii_of_nat 163].

(** [y] is [x] without its currency signs and commas. *)
Inductive stripped : str -> str -> Prop :=
| stripped_end : stripped [] []
| stripped_drop c x y :
    In c currency_signs -> stripped x y -> stripped (c :: x) y
| stripped_keep c x y :
    ~ In c currency_signs -> stripped x y -> stripped (c :: x) (c :: y).

(** Every value parses as a number once it is stripped. *)
Definition all_numbers {P : Pandas} (sample : list str) : Prop :=
  Forall (fun x => exists y, stripped x y /\ is_number y = true) sample.

(** Strictly more than half of the sample parses as a date. *)
Definition mostly_dates {P : Pandas} (sample : list str) : Prop :=
  exists dates,
    to_datetime_coerce sample = Some dates /\
    (List.length sample < 2 * count_occ Bool.bool_dec dates true)%nat.

(** The classification of the non-null values of a column, rule by rule in
    the order of the source; the rules look at the first ten values. *)
Inductive classifies {P : Pandas} (values : list str) : pattern -> Prop :=
| class_empty :
    values = [] -> classifies values text
| class_email :
    values <> [] ->
    all_emails (firstn 10 values) -> classifies values email
| class_numeric :
    values <> [] ->
    ~ all_emails (firstn 10 values) ->
    all_numbers (firstn 10 values) -> classifies values numeric
| class_date :
    values <> [] ->
    ~ all_emails (firstn 10 values) ->
    ~ all_numbers (firstn 10 values) ->
    mostly_dates (firstn 10 values) -> classifies values date
| class_text :
    values <> [] ->
    ~ all_emails (firstn 10 values) ->
    ~ all_numbers (firstn 10 values) ->
    ~ mostly_dates (firstn 10 values) -> classifies values text.

(** A stand-in for pandas in the examples: a number is a non-empty string
    of digits, a date is a string of ten characters, and the draw of a
    sample takes the first values. *)
Definition toy_pandas : Pandas :=
  {| is_number := fun x => negb (is_empty x) && forallb is_digit x;
     to_datetime_coerce :=
       fun l => Some (map (fun x => (List.length x =? 10)%nat) l);
     sample_draw := fun n l => firstn n l |}.


(** The entry of [t] was written by the pattern pass: the entry it replaces
    had a confidence below 0.6, the new one is [(r, 0.6)], the column [t]
    of the template is not of pattern 'text', the raw column [r] has the
    same pattern, and [r] was no source column of the input Mapping. *)
Definition pattern_assigned {P : Pandas} (raw_df template_df : DataFrame)
    (mappings M' : Mapping) (t : str) : Prop :=
  exists m0 c0 r ts rs,
    dict_get str_dec mappings t = Some (m0, c0) /\ c0 < 0.6 /\
    dict_get str_dec M' t = Some (Some r, 0.6) /\
    dict_get str_dec template_df t = Some ts /\
    dict_get str_dec raw_df r = Some rs /\
    detect_data_patterns ts <> text /\
    detect_data_patterns rs = detect_data_patterns ts /\
    ~ In r (mapped_raw_of mappings).

(** The state of the loop of [semantic_pattern_match] after some template
    columns: what holds of [(enhanced_mappings, unused_raw)]. [TP] and [RP]
    are the pattern tables, [U0] the raw columns unused at the start. *)
Record enhancer_state (TP RP : dict str pattern) (mappings : Mapping)
    (U0 : list str) (E : Mapping) (U : list str) : Prop := {
  unused_NoDup : NoDup U;
  unused_incl : incl U U0;
  sources_used :
    forall t r c, dict_get str_dec E t = Some (Some r, c) -> ~ In r U;
  kept_or_assigned :
    forall t,
      dict_get str_dec E t = dict_get str_dec mappings t \/
      exists m0 c0 r pat,
        dict_get str_dec mappings t = Some (m0, c0) /\ c0 < 0.6 /\
        dict_get str_dec E t = Some (Some r, 0.6) /\
        In r U0 /\
        dict_get str_dec TP t = Some pat /\ pat <> text /\
        dict_get str_dec RP r = Some pat;
  shared_before :
    forall t t' r c c',
      t <> t' ->
      dict_get str_dec E t = Some (Some r, c) ->
      dict_get str_dec E t' = Some (Some r, c') ->
      dict_get str_dec mappings t = Some (Some r, c) /\
      dict_get str_dec mappings t' = Some (Some r, c')
}.


(** The confidences of a Mapping are on the scale of the engine. *)
Definition unit_scale (mappings : Mapping) : Prop :=
  Forall (fun kv => 0 <= snd (snd kv) <= 1) mappings.

(** A column with two equal values and a null. *)
Definition df_with_null : DataFrame :=
  [ (py "city", [Some (py "Oslo"); Some (py "Oslo"); None]) ].

Definition no_null (df : DataFrame) : Prop :=
  Forall (fun cs => Forall (fun v => v <> None) (snd cs)) df.


(** [unique_count / total_count if total_count > 0 else 0.0] *)
Definition uniqueness_of (series : Series) : Q :=
  if (0 <? List.length (dropna series))%nat
  then Qnat (nunique series) / Qnat (List.length (dropna series))
  else 0.


(** Both ratios give the same value when their arguments are exchanged. *)
Class RapidfuzzSymmetric (F : Rapidfuzz) : Prop := {
  token_sort_sym : forall a b, token_sort_ratio a b = token_sort_ratio b a;
  token_set_sym : forall a b, token_set_ratio a b = token_set_ratio b a
}.

(** The value of a float of the Standard Library's model of IEEE 754. *)
Definition SF2Q (x : SpecFloat.spec_float) : option Q :=
  match x with
  | SpecFloat.S754_zero _ => Some 0
  | SpecFloat.S754_finite s m e =>
      Some ((if s then -1 else 1) * inject_Z (Zpos m) * pow2 e)
  | _ => None
  end.

(** An integer as a binary64 number. *)
Definition binary64_of_nat (n : nat) : SpecFloat.spec_float :=
  SpecFloat.binary_normalize 53 1024 (Z.of_nat n) 0 false.

(** [round64] gives the quotient [k / m] and the product [(k / m) * 100]
    that the binary64 division and multiplication give. *)
Definition agrees_with_binary64 (k m : nat) : bool :=
  let x := SpecFloat.SFdiv 53 1024 (binary64_of_nat k) (binary64_of_nat m) in
  let y := SpecFloat.SFmul 53 1024 x (binary64_of_nat 100) in
  match SF2Q x, SF2Q y with
  | Some x', Some y' =>
      Qeq_bool x' (true_divide k m) &&
      Qeq_bool y' (float_mul (true_divide k m) 100)
  | _, _ => false
  end.

(** On [n] rows, the binary64 product [n * 0.9] and the exact nine tenths
    of [n] have the same integer part. *)
Definition same_skip_test (n : nat) : bool :=
  (Qfloor (float_mul (Qnat n) (round64 0.9)) =? Qfloor (Qnat n * 0.9))%Z.


(** The column is left out as identifier-like: more than 90% of the rows
    carry distinct values. *)
Definition identifier_like (len_df : nat) (series : Series) : bool :=
  Qltb (Qnat len_df * 0.9) (Qnat (nunique series)).

(** The sample asked of the column is larger than its non-null values. *)
Definition oversampled (len_df sample_size : nat) (cs : str * Series) : Prop :=
  identifier_like len_df (snd cs) = false /\
  (List.length (dropna (snd cs)) < Nat.min sample_size (List.length (snd cs)))%nat.

(** The report lists column [b] with percentage [p] under column [a]. *)
Definition reported (rep : ContaminationReport) (a b : str) (p : Z) : Prop :=
  exists l, dict_get str_dec rep a = Some l /\ In (b, p) l.

(** A DataFrame with a low-cardinality column shared by two labels. *)
Definition df_shared : DataFrame :=
  [ (py "ship_city", [Some (py "Oslo"); Some (py "Rome"); Some (py "Oslo"); Some (py "Rome")]);
    (py "id", [Some (py "1"); Some (py "2"); Some (py "3"); Some (py "4")]);
    (py "bill_city", [Some (py "Rome"); Some (py "Rome"); Some (py "Oslo"); Some (py "Bonn")]) ].

(** What holds of every line of a report over the sampled columns [S]. *)
Definition good_report (S : dict str (list str)) (rep : ContaminationReport)
  : Prop :=
  forall a b p,
    reported rep a b p ->
    a <> b /\ In a (keys S) /\ In b (keys S) /\
    (10 <= p <= 100)%Z /\ reported rep b a p.


(** A stand-in for [hashlib] in the examples: the digest of a string is
    the string. *)
Definition toy_hash : Hashlib := {| md5_hexdigest := fun s => s |}.


(** A cell that [clean_data] leaves in a column of dtype [object]: a null,
    or a text without surrounding white space that is none of the tokens
    read as null. *)
Definition clean_value (cell : option str) : Prop :=
  match cell with
  | None => True
  | Some v => strip v = v /\ ~ In v NULL_TOKENS
  end.

(** What the auto-mapping leaves in an entry: no source and confidence
    0.0, or a raw column other than the text of "no match" with a positive
    confidence. *)
Definition reviewable (raw_columns : list str) (kv : str * (option str * Q))
  : Prop :=
  match snd kv with
  | (Some r, c) => In r raw_columns /\ r <> NO_MATCH /\ 0 < c
  | (None, c) => c = 0
  end.

(** The entry is hidden when "Show all mappings" is off. *)
Definition auto_accepted (kv : str * (option str * Q)) : bool :=
  is_not_None (fst (snd kv)) && Qle_bool 0.8 (snd (snd kv)).

(* ================================================================= *)
(** * Properties *)

(** ** Strings *)

Lemma str_eqb_eq (a b : str) : str_eqb a b = true <-> a = b.
Proof.
  unfold str_eqb. destruct (str_dec a b); split; congruence.
Qed.

Lemma str_eqb_refl (a : str) : str_eqb a a = true.
Proof. now apply str_eqb_eq. Qed.

Lemma str_eqb_neq (a b : str) : str_eqb a b = false <-> a <> b.
Proof.
  unfold str_eqb. destruct (str_dec a b); split; congruence.
Qed.

Lemma emit_nonempty (cur : str) : cur <> [] -> emit cur = [cur].
Proof. destruct cur; simpl; congruence. Qed.

Lemma split_from_app_space (a b cur : str) (sp : ascii) :
  is_space sp = true ->
  split_from cur (a ++ sp :: b) = split_from cur a ++ split_from [] b.
Proof.
  intros Hsp. revert cur.
  induction a as [|c a IH]; intros cur; simpl.
  - now rewrite Hsp.
  - destruct (is_space c).
    + now rewrite IH, app_assoc.
    + apply IH.
Qed.

Lemma split_from_no_space (w cur : str) :
  no_space w -> split_from cur w = emit (cur ++ w).
Proof.
  revert cur. induction w as [|c w IH]; intros cur Hw; simpl.
  - now rewrite app_nil_r.
  - inversion Hw as [|? ? Hc Hw']; subst. rewrite Hc.
    rewrite IH by assumption. now rewrite <- app_assoc.
Qed.

Lemma split_word (w : str) : word w -> split w = [w].
Proof.
  intros [Hne Hw]. unfold split. rewrite split_from_no_space by assumption.
  now apply emit_nonempty.
Qed.

Lemma split_from_words (s cur : str) :
  no_space cur -> Forall word (split_from cur s).
Proof.
  revert cur. induction s as [|c s IH]; intros cur Hcur; simpl.
  - destruct cur; simpl; constructor; [|constructor].
    split; [discriminate | assumption].
  - destruct (is_space c) eqn:Hc.
    + apply Forall_app. split.
      * destruct cur; simpl; constructor; [|constructor].
        split; [discriminate | assumption].
      * apply IH. constructor.
    + apply IH. apply Forall_app. split; [assumption|].
      constructor; [assumption | constructor].
Qed.

Lemma split_words (s : str) : Forall word (split s).
Proof. apply split_from_words. constructor. Qed.

Lemma Forall_emit (P : str -> Prop) (cur : str) :
  (cur <> [] -> P cur) -> Forall P (emit cur).
Proof.
  intros H. destruct cur; simpl; constructor; [|constructor].
  apply H. discriminate.
Qed.

Lemma split_from_chars (P : ascii -> Prop) (s cur : str) :
  Forall P cur -> Forall P s -> Forall (Forall P) (split_from cur s).
Proof.
  revert cur. induction s as [|c s IH]; intros cur Hcur Hs; simpl.
  - now apply Forall_emit.
  - inversion Hs as [|? ? Hc Hs']; subst.
    destruct (is_space c).
    + apply Forall_app. split.
      * now apply Forall_emit.
      * apply IH; [constructor | assumption].
    + apply IH; [|assumption].
      apply Forall_app. split; [assumption|].
      constructor; [assumption | constructor].
Qed.

Lemma split_chars (P : ascii -> Prop) (s : str) :
  Forall P s -> Forall (Forall P) (split s).
Proof. apply split_from_chars. constructor. Qed.

Lemma is_space_space : is_space " " = true.
Proof. reflexivity. Qed.

Lemma join_cons (sep w w' : str) (ws : list str) :
  join sep (w :: w' :: ws) = w ++ sep ++ join sep (w' :: ws).
Proof. reflexivity. Qed.

Lemma split_join_cons (w : str) (ws : list str) :
  split (join space (w :: ws)) = split w ++ split (join space ws).
Proof.
  destruct ws as [|w' ws].
  - simpl. now rewrite app_nil_r.
  - rewrite join_cons. unfold split, space. simpl app.
    now apply split_from_app_space.
Qed.

Lemma split_join (ws : list str) :
  split (join space ws) = List.concat (map split ws).
Proof.
  induction ws as [|w ws IH].
  - reflexivity.
  - rewrite split_join_cons, IH. reflexivity.
Qed.

Lemma split_join_words (ws : list str) :
  Forall word ws -> split (join space ws) = ws.
Proof.
  intros H. rewrite split_join.
  induction H as [|w ws Hw _ IH]; simpl.
  - reflexivity.
  - rewrite (split_word Hw), IH. reflexivity.
Qed.

Lemma join_app (sep : str) (a b : list str) :
  a <> [] -> b <> [] -> join sep (a ++ b) = join sep a ++ sep ++ join sep b.
Proof.
  intros Ha Hb. induction a as [|w a IH]; [congruence|].
  destruct a as [|w' a].
  - simpl. destruct b; [congruence | reflexivity].
  - change ((w :: w' :: a) ++ b) with (w :: w' :: (a ++ b)).
    rewrite !join_cons.
    change (w' :: a ++ b) with ((w' :: a) ++ b).
    rewrite IH by discriminate. now rewrite <- !app_assoc.
Qed.

Lemma Forall_join (P : ascii -> Prop) (sep : str) (ws : list str) :
  Forall P sep -> Forall (Forall P) ws -> Forall P (join sep ws).
Proof.
  intros Hsep H. induction H as [|w ws Hw Hws IH].
  - constructor.
  - destruct ws as [|w' ws]; [assumption|].
    rewrite join_cons. apply Forall_app. split; [assumption|].
    apply Forall_app. split; assumption.
Qed.

(** ** [normalize_header] is idempotent *)

Lemma clean_charb_sound (c : ascii) : clean_charb c = true -> clean_char c.
Proof.
  unfold clean_charb, clean_char. intros H.
  apply andb_true_iff in H. destruct H as [H1 H2].
  destruct (ascii_dec (lower_char c) c); [auto | discriminate].
Qed.

Lemma lower_char_idem (c : ascii) : lower_char (lower_char c) = lower_char c.
Proof.
  destruct c as [[] [] [] [] [] [] [] []]; vm_compute; reflexivity.
Qed.

Lemma lower_clean (s : str) : Forall clean_char s -> lower s = s.
Proof.
  induction 1 as [|c s [_ Hc] _ IH]; [reflexivity|].
  unfold lower in *. simpl. now rewrite Hc, IH.
Qed.

Lemma re_sub_clean (s : str) : Forall clean_char s -> re_sub_special s = s.
Proof.
  induction 1 as [|c s [Hc _] _ IH]; [reflexivity|].
  unfold re_sub_special in *. simpl. now rewrite Hc, IH.
Qed.

Lemma first_pass_clean (x : str) : Forall clean_char (re_sub_special (lower x)).
Proof.
  unfold re_sub_special, lower. apply Forall_forall. intros c Hc.
  apply filter_In in Hc. destruct Hc as [Hin Hk].
  apply in_map_iff in Hin. destruct Hin as [c0 [<- _]].
  split; [assumption | apply lower_char_idem].
Qed.

Lemma stableb_sound (e : str) : stableb e = true -> stable e.
Proof.
  unfold stableb, stable. intros H.
  apply andb_true_iff in H. destruct H as [H Hx].
  apply andb_true_iff in H. destruct H as [H Hj].
  apply andb_true_iff in H. destruct H as [Hc Hne].
  repeat split.
  - apply Forall_forall. intros c Hin. apply clean_charb_sound.
    rewrite forallb_forall in Hc. now apply Hc.
  - destruct (split e); [discriminate Hne | discriminate].
  - now apply str_eqb_eq.
  - apply Forall_forall. intros w Hw. apply str_eqb_eq.
    rewrite forallb_forall in Hx. now apply Hx.
Qed.

Lemma expansions_stable : Forall stable (values ABBREVIATIONS).
Proof.
  apply Forall_forall. intros e He. apply stableb_sound.
  assert (H : forallb stableb (values ABBREVIATIONS) = true)
    by (vm_compute; reflexivity).
  rewrite forallb_forall in H. now apply H.
Qed.

Lemma dict_get_In {K V} (K_dec : forall a b : K, {a = b} + {a <> b})
    (d : dict K V) (k : K) (v : V) :
  dict_get K_dec d k = Some v -> In (k, v) d.
Proof.
  induction d as [|[k' v'] d IH]; simpl; [discriminate|].
  destruct (K_dec k k') as [->|_].
  - intros [= ->]. now left.
  - intros H. right. now apply IH.
Qed.

Lemma expand_stable (w : str) :
  word w -> Forall clean_char w -> stable (expand w).
Proof.
  intros Hw Hc. unfold expand.
  destruct (dict_get str_dec ABBREVIATIONS w) as [e|] eqn:He.
  - apply dict_get_In in He.
    pose proof expansions_stable as H. rewrite Forall_forall in H.
    apply H. unfold values. apply in_map_iff. now exists (w, e).
  - unfold stable. rewrite (split_word Hw). repeat split.
    + assumption.
    + discriminate.
    + constructor; [|constructor]. unfold expand. now rewrite He.
Qed.

Lemma join_stable (es : list str) :
  Forall stable es ->
  let n := join space es in
  Forall clean_char n /\
  join space (map expand (split (join space (split n)))) = n.
Proof.
  intros H n.
  assert (Hsp : Forall clean_char space)
    by (repeat constructor).
  split.
  - apply Forall_join; [assumption|].
    eapply Forall_impl; [|exact H]. now intros e [He _].
  - rewrite split_join_words by apply split_words.
    subst n. rewrite split_join.
    induction H as [|e es [_ [Hne [Hj Hx]]] Hes IH]; [reflexivity|].
    simpl. rewrite map_app.
    assert (Hmap : map expand (split e) = split e).
    { clear - Hx. induction Hx as [|w ws Hw _ IH]; simpl; [reflexivity|].
      now rewrite Hw, IH. }
    rewrite Hmap.
    destruct es as [|e' es].
    + simpl. now rewrite app_nil_r.
    + rewrite join_app.
      * rewrite IH, Hj. reflexivity.
      * assumption.
      * inversion Hes as [|? ? [_ [Hne' _]] _]; subst. simpl.
        rewrite map_app. destruct (split e'); [congruence | discriminate].
Qed.

Lemma normalize_header_words (x : str) :
  exists es, Forall stable es /\ normalize_header x = join space es.
Proof.
  unfold normalize_header.
  set (c := re_sub_special (lower x)).
  exists (map expand (split (join space (split c)))). split; [|reflexivity].
  rewrite split_join_words by apply split_words.
  apply Forall_forall. intros e He.
  apply in_map_iff in He. destruct He as [w [<- Hw]].
  apply expand_stable.
  - pose proof (split_words c) as H. rewrite Forall_forall in H. now apply H.
  - pose proof (split_chars (first_pass_clean x)) as H.
    rewrite Forall_forall in H. now apply H.
Qed.

Lemma normalize_header_idem (x : str) :
  normalize_header (normalize_header x) = normalize_header x.
Proof.
  destruct (normalize_header_words x) as [es [Hes ->]].
  destruct (join_stable Hes) as [Hc Hj].
  unfold normalize_header.
  rewrite (lower_clean Hc), (re_sub_clean Hc). exact Hj.
Qed.

Lemma plain_phraseb_sound (e : str) : plain_phraseb e = true -> plain_phrase e.
Proof.
  unfold plain_phraseb. intros H.
  apply andb_true_iff in H. destruct H as [He Hws].
  exists (split e). split; [now apply str_eqb_eq|].
  apply Forall_forall. intros w Hw.
  rewrite forallb_forall in Hws. specialize (Hws w Hw).
  apply andb_true_iff in Hws. destruct Hws as [Hws Hk].
  apply andb_true_iff in Hws. destruct Hws as [Hne Hc].
  repeat split.
  - destruct w; [discriminate Hne | discriminate].
  - assumption.
  - now apply negb_true_iff.
Qed.

(** C9. [normalize_header] is idempotent, and every expansion of
    [ABBREVIATIONS] is made of words of lowercase letters and digits that
    are not keys of the table, separated by single spaces. *)
Theorem normalize_header_idempotent :
  (forall x : str, normalize_header (normalize_header x) = normalize_header x) /\
  Forall plain_phrase (values ABBREVIATIONS).
Proof.
  split.
  - exact normalize_header_idem.
  - apply Forall_forall. intros e He. apply plain_phraseb_sound.
    assert (H : forallb plain_phraseb (values ABBREVIATIONS) = true)
      by (vm_compute; reflexivity).
    rewrite forallb_forall in H. now apply H.
Qed.

Example normalize_header_ex1 :
  normalize_header (py "  Cust.  ADDR-Line_1 ") = py "customer addrline1".
Proof. vm_compute. reflexivity. Qed.

Example normalize_header_ex2 :
  normalize_header (py "F-Name / DOB") = py "first name date of birth".
Proof. vm_compute. reflexivity. Qed.

(** ** [_calculate_match_score] *)

Lemma Qltb_lt (x y : Q) : Qltb x y = true <-> x < y.
Proof.
  unfold Qltb. rewrite negb_true_iff. split.
  - intros H. apply Qnot_le_lt. intros Hle.
    apply Qle_bool_iff in Hle. congruence.
  - intros H. destruct (Qle_bool y x) eqn:E; [|reflexivity].
    apply Qle_bool_iff in E. exfalso. now apply (Qlt_not_le x y).
Qed.

Lemma Qltb_ge (x y : Q) : Qltb x y = false <-> y <= x.
Proof.
  unfold Qltb. rewrite negb_false_iff. apply Qle_bool_iff.
Qed.

Lemma Qle_bool_lt (x y : Q) : Qle_bool x y = false <-> y < x.
Proof.
  rewrite <- Qltb_lt. unfold Qltb. now rewrite negb_true_iff.
Qed.

Lemma mem_In (w : str) (s : list str) : mem w s = true <-> In w s.
Proof.
  unfold mem. rewrite existsb_exists. split.
  - intros [x [Hx He]]. apply str_eqb_eq in He. now subst.
  - intros H. exists w. split; [assumption | apply str_eqb_refl].
Qed.

Lemma any_eq_In (term : str) (synonyms : list str) :
  any_eq term synonyms = true <-> In term synonyms.
Proof. apply mem_In. Qed.

Lemma issubset_incl (s1 s2 : list str) : issubset s1 s2 = true <-> incl s1 s2.
Proof.
  unfold issubset, incl. rewrite forallb_forall.
  split; intros H w Hw; apply mem_In; auto.
Qed.

Lemma is_empty_nil {A} (l : list A) : is_empty l = true <-> l = [].
Proof. destruct l; simpl; split; congruence. Qed.

Lemma check_groups_cases (gs : list (str * list str)) (a b : str) :
  ((exists g, In g gs /\ In a (snd g) /\ In b (snd g)) /\ check_groups gs a b = 95)
  \/ (~ (exists g, In g gs /\ In a (snd g) /\ In b (snd g)) /\ check_groups gs a b = 0).
Proof.
  induction gs as [|[name syns] gs IH]; simpl.
  - right. split; [|reflexivity]. intros [g [[] _]].
  - destruct (any_eq a syns && any_eq b syns) eqn:E.
    + left. apply andb_true_iff in E. destruct E as [Ea Eb].
      split; [|reflexivity].
      exists (name, syns). rewrite any_eq_In in Ea, Eb. auto.
    + destruct IH as [[[g [Hg Hab]] ->] | [Hno ->]].
      * left. split; [|reflexivity]. exists g. auto.
      * right. split; [|reflexivity].
        intros [g [[<- | Hg] [Ha Hb]]].
        -- simpl in Ha, Hb. rewrite <- any_eq_In in Ha, Hb.
           rewrite Ha, Hb in E. discriminate.
        -- apply Hno. exists g. auto.
Qed.

Lemma smaller_in_larger_issubset (s1 s2 : list str) :
  issubset (if (List.length s1 <=? List.length s2)%nat then s1 else s2)
           (if (List.length s1 <=? List.length s2)%nat then s2 else s1) = true
  <-> smaller_in_larger s1 s2.
Proof.
  unfold smaller_in_larger. rewrite issubset_incl.
  destruct (List.length s1 <=? List.length s2)%nat eqn:E.
  - apply Nat.leb_le in E. split; [intros H; split; [auto | lia] | intros [H _]; auto].
  - apply Nat.leb_gt in E. split; [intros H; split; [lia | auto] | intros [_ H]; auto].
Qed.

Lemma Qnat_nonneg (n : nat) : 0 <= Qnat n.
Proof.
  unfold Qnat, Qle. simpl. lia.
Qed.

Lemma Qnat_le (a b : nat) : (a <= b)%nat -> Qnat a <= Qnat b.
Proof.
  intros H. unfold Qnat, Qle. simpl. lia.
Qed.

Lemma Qnat_pos (n : nat) : (0 < n)%nat -> 0 < Qnat n.
Proof.
  intros H. unfold Qnat, Qlt. simpl. lia.
Qed.

Lemma inter_length (s1 s2 : list str) :
  (List.length (inter s1 s2) <= List.length s1)%nat.
Proof. apply filter_length_le. Qed.

Lemma word_overlap_range (s1 s2 : list str) :
  s1 <> [] -> 0 <= word_overlap s1 s2 <= 1.
Proof.
  intros Hne. unfold word_overlap.
  assert (Hpos : 0 < Qnat (Nat.max (List.length s1) (List.length s2))).
  { apply Qnat_pos. destruct s1; [congruence|]. simpl List.length. lia. }
  split.
  - apply Qle_shift_div_l; [assumption|].
    rewrite Qmult_0_l. apply Qnat_nonneg.
  - apply Qle_shift_div_r; [assumption|].
    rewrite Qmult_1_l. apply Qnat_le.
    pose proof (inter_length s1 s2). lia.
Qed.

Lemma word_overlap_disjoint (s1 s2 : list str) :
  inter s1 s2 = [] -> ~ 0.5 < word_overlap s1 s2.
Proof.
  intros H. unfold word_overlap. rewrite H. simpl List.length.
  unfold Qdiv. change (Qnat 0) with 0. rewrite Qmult_0_l. intros Hlt.
  discriminate Hlt.
Qed.

Section ScorerFacts.
Context {F : Rapidfuzz}.

Lemma score_cascade (template_col raw_col : str) :
  cascade (normalize_header template_col) (normalize_header raw_col)
          (_calculate_match_score template_col raw_col).
Proof.
  unfold _calculate_match_score.
  set (a := normalize_header template_col).
  set (b := normalize_header raw_col).
  destruct (str_eqb a b) eqn:Eab.
  { apply rule_exact. now apply str_eqb_eq. }
  apply str_eqb_neq in Eab.
  unfold _check_synonym_match.
  destruct (check_groups_cases FIELD_SYNONYMS a b) as [[Hg ->] | [Hg ->]].
  { change (Qltb 0 95) with true. cbv iota. now apply rule_synonym. }
  change (Qltb 0 0) with false. cbv iota.
  fold (words a). fold (words b).
  destruct (is_empty (words a) || is_empty (words b)) eqn:Ee.
  { apply rule_no_words; [assumption | assumption |].
    apply orb_true_iff in Ee. rewrite !is_empty_nil in Ee. exact Ee. }
  apply orb_false_iff in Ee. destruct Ee as [Ea Eb].
  assert (Ha : words a <> []) by (rewrite <- is_empty_nil; congruence).
  assert (Hb : words b <> []) by (rewrite <- is_empty_nil; congruence).
  match goal with |- context [issubset ?x ?y] =>
    destruct (issubset x y) eqn:Es end.
  { apply rule_subset; try assumption.
    now apply smaller_in_larger_issubset. }
  assert (Hs : ~ smaller_in_larger (words a) (words b)).
  { rewrite <- smaller_in_larger_issubset. congruence. }
  fold (word_overlap (words a) (words b)).
  destruct (negb (is_empty (inter (words a) (words b))) &&
            Qltb 0.5 (word_overlap (words a) (words b))) eqn:Eo.
  { apply andb_true_iff in Eo. destruct Eo as [_ Eo].
    apply rule_overlap; try assumption. now apply Qltb_lt. }
  assert (Ho : ~ 0.5 < word_overlap (words a) (words b)).
  { apply andb_false_iff in Eo. destruct Eo as [Eo | Eo].
    - apply negb_false_iff, is_empty_nil in Eo.
      now apply word_overlap_disjoint.
    - apply Qltb_ge in Eo. now apply Qle_not_lt. }
  fold (token_average a b).
  destruct (Qle_bool 70 (token_average a b)) eqn:Et.
  - apply rule_fuzzy; try assumption. now apply Qle_bool_iff.
  - apply rule_no_match; try assumption. now apply Qle_bool_lt.
Qed.

(** The premises of the rules exclude each other. *)
Lemma cascade_functional (a b : str) (x y : Q) :
  cascade a b x -> cascade a b y -> x = y.
Proof.
  intros Hx Hy.
  destruct Hx; destruct Hy; try reflexivity; try contradiction; try tauto.
  - exfalso. lra.
  - exfalso. lra.
Qed.

Lemma score_nonneg (template_col raw_col : str) :
  0 <= _calculate_match_score template_col raw_col.
Proof.
  destruct (score_cascade template_col raw_col); try lra.
Qed.

Context {R : RapidfuzzRange F}.

Lemma token_average_range (a b : str) : 0 <= token_average a b <= 100.
Proof.
  unfold token_average.
  pose proof (token_sort_range a b). pose proof (token_set_range a b).
  split.
  - apply Qle_shift_div_l; lra.
  - apply Qle_shift_div_r; lra.
Qed.

Lemma score_range (template_col raw_col : str) :
  0 <= _calculate_match_score template_col raw_col <= 100.
Proof.
  destruct (score_cascade template_col raw_col) as
    [ | | | | ? ? Ha ? ? ? | | ]; try lra.
  - pose proof (word_overlap_range (words (normalize_header raw_col)) Ha).
    lra.
  - apply token_average_range.
Qed.
End ScorerFacts.

Lemma exact_ratio_range : RapidfuzzRange exact_ratio.
Proof.
  split; intros a b; simpl; destruct (str_eqb a b); lra.
Qed.

(** C3. [_calculate_match_score] returns a score in [0,100] that follows
    the priority cascade on the normalized names: equal names give 100;
    else two variants of one synonym group give 95; else an empty word set
    gives 0; else the smaller word set inside the larger gives 95; else a
    word overlap strictly above 0.5 gives [70 + overlap*20]; else the
    average of the two token ratios if it is at least 70, and 0 otherwise;
    no other score fits the rules.
    'customer id' against 'customer name' has overlap exactly 0.5 and falls
    through to the token ratios. *)
Theorem calculate_match_score_cascade {F : Rapidfuzz} (R : RapidfuzzRange F) :
  (forall template_col raw_col : str,
      0 <= _calculate_match_score template_col raw_col <= 100 /\
      cascade (normalize_header template_col) (normalize_header raw_col)
              (_calculate_match_score template_col raw_col) /\
      (forall x,
          cascade (normalize_header template_col) (normalize_header raw_col) x ->
          x = _calculate_match_score template_col raw_col)) /\
  (let a := py "customer id" in
   let b := py "customer name" in
   word_overlap (words (normalize_header a)) (words (normalize_header b)) == 0.5 /\
   _calculate_match_score a b =
     if Qle_bool 70 (token_average a b) then token_average a b else 0).
Proof.
  split.
  - intros template_col raw_col. split; [|split].
    + apply score_range.
    + apply score_cascade.
    + intros x Hx. eapply cascade_functional; [exact Hx|].
      apply score_cascade.
  - split.
    + vm_compute. reflexivity.
    + reflexivity.
Qed.

Lemma calculate_match_score_cascade_witness :
  0 <= @_calculate_match_score exact_ratio (py "Phone No.") (py "tel") <= 100 /\
  @cascade exact_ratio (py "phone number") (py "telephone") 95.
Proof.
  destruct (proj1 (calculate_match_score_cascade exact_ratio_range)
                  (py "Phone No.") (py "tel")) as [Hrange [Hrule _]].
  exact (conj Hrange Hrule).
Defined.

(** ** The reference solver meets the contract of [linear_sum_assignment] *)

Module Exhaustive.

Lemma picks_split {A} (l : list A) (x : A) (rest : list A) :
  In (x, rest) (picks l) <->
  exists l1 l2, l = l1 ++ x :: l2 /\ rest = l1 ++ l2.
Proof.
  revert x rest. induction l as [|a l IH]; intros x rest; simpl.
  - split; [intros [] | intros [[|? ?] [? [H _]]]; discriminate H].
  - split.
    + intros [[= <- <-] | H].
      * now exists [], l.
      * apply in_map_iff in H. destruct H as [[y ys] [[= <- <-] H]].
        apply IH in H. destruct H as [l1 [l2 [-> ->]]].
        now exists (a :: l1), l2.
    + intros [[|b l1] [l2 [H ->]]]; simpl in H; injection H as <- ->.
      * now left.
      * right. apply in_map_iff. exists (x, l1 ++ l2). split; [reflexivity|].
        apply IH. now exists l1, l2.
Qed.

Lemma matchings_0 (rows cols : list nat) : matchings rows 0 cols = [[]].
Proof. now destruct rows. Qed.

Lemma total_app (f : nat -> nat -> Q) (p q : matching) :
  total f (p ++ q) == total f p + total f q.
Proof.
  induction p as [|ij p IH]; simpl.
  - lra.
  - rewrite IH. lra.
Qed.

Lemma empty_matching (rows cols : list nat) :
  List.length (@nil (nat * nat)) = 0%nat /\
  NoDup (map fst (@nil (nat * nat))) /\ NoDup (map snd (@nil (nat * nat))) /\
  incl (map fst (@nil (nat * nat))) rows /\
  incl (map snd (@nil (nat * nat))) cols.
Proof.
  simpl. split; [reflexivity|].
  split; [constructor|]. split; [constructor|].
  split; intros ? [].
Qed.

(** Every listed assignment uses [k] of the rows and of the columns, each
    once. *)
Lemma matchings_sound (rows : list nat) :
  forall (k : nat) (cols : list nat) (p : matching),
    NoDup rows -> NoDup cols -> In p (matchings rows k cols) ->
    List.length p = k /\ NoDup (map fst p) /\ NoDup (map snd p) /\
    incl (map fst p) rows /\ incl (map snd p) cols.
Proof.
  induction rows as [|i rs IH]; intros k cols p Hr Hc Hin.
  - destruct k; simpl in Hin; [|contradiction].
    destruct Hin as [<- | []]. apply empty_matching.
  - destruct k as [|k].
    { simpl in Hin. destruct Hin as [<- | []]. apply empty_matching. }
    simpl in Hin. apply in_app_or in Hin.
    inversion Hr as [|? ? Hi Hrs]; subst.
    destruct Hin as [Hin | Hin].
    + apply in_flat_map in Hin. destruct Hin as [[j cs] [Hjc Hp]].
      apply in_map_iff in Hp. destruct Hp as [p' [<- Hp']]. simpl in *.
      apply picks_split in Hjc. destruct Hjc as [c1 [c2 [-> ->]]].
      pose proof (NoDup_remove_1 _ _ _ Hc) as Hcs.
      pose proof (NoDup_remove_2 _ _ _ Hc) as Hj.
      destruct (IH k _ p' Hrs Hcs Hp') as [Hlen [Hf [Hs [Hir Hic]]]].
      repeat split.
      * now rewrite Hlen.
      * constructor; [|assumption]. intros H. apply Hi. now apply Hir.
      * constructor; [|assumption]. intros H. apply Hj. now apply Hic.
      * intros x [<- | Hx]; [now left | right; now apply Hir].
      * intros x [<- | Hx].
        -- apply in_or_app. right. now left.
        -- apply Hic in Hx. apply in_app_or in Hx. apply in_or_app.
           destruct Hx; [now left | right; now right].
    + destruct (IH (S k) cols p Hrs Hc Hin) as [Hlen [Hf [Hs [Hir Hic]]]].
      repeat split; try assumption.
      intros x Hx. right. now apply Hir.
Qed.

(** Every assignment of [k] rows has its total among the listed ones. *)
Lemma matchings_complete (f : nat -> nat -> Q) (rows : list nat) :
  forall (k : nat) (cols : list nat) (p : matching),
    NoDup (map fst p) -> NoDup (map snd p) ->
    incl (map fst p) rows -> incl (map snd p) cols ->
    List.length p = k ->
    exists q, In q (matchings rows k cols) /\ total f q == total f p.
Proof.
  induction rows as [|i rs IH]; intros k cols p Hf Hs Hir Hic Hlen.
  - destruct p as [|[i j] p].
    + subst k. exists []. split; [now left | reflexivity].
    + exfalso. apply (Hir i). now left.
  - destruct k as [|k].
    { destruct p; [|discriminate].
      exists []. split; [now left | reflexivity]. }
    destruct (in_dec Nat.eq_dec i (map fst p)) as [Hi | Hi].
    + apply in_map_iff in Hi. destruct Hi as [[i' j] [Hi' Hij]].
      simpl in Hi'. subst i'.
      apply in_split in Hij. destruct Hij as [l1 [l2 ->]].
      rewrite map_app in Hf, Hs, Hir, Hic. simpl in Hf, Hs, Hir, Hic.
      assert (Hjc : In j cols).
      { apply Hic. apply in_or_app. right. now left. }
      apply in_split in Hjc. destruct Hjc as [c1 [c2 ->]].
      destruct (IH k (c1 ++ c2) (l1 ++ l2)) as [q [Hq Hqt]].
      * rewrite map_app. eapply NoDup_remove_1; eassumption.
      * rewrite map_app. eapply NoDup_remove_1; eassumption.
      * rewrite map_app. intros x Hx.
        assert (Hx' : In x (map fst l1 ++ i :: map fst l2)).
        { apply in_app_or in Hx. apply in_or_app.
          destruct Hx; [now left | right; now right]. }
        destruct (Hir x Hx') as [<- | H]; [|assumption].
        exfalso. now apply (NoDup_remove_2 _ _ _ Hf).
      * rewrite map_app. intros x Hx.
        assert (Hx' : In x (map snd l1 ++ j :: map snd l2)).
        { apply in_app_or in Hx. apply in_or_app.
          destruct Hx; [now left | right; now right]. }
        apply Hic in Hx'. apply in_app_or in Hx'. apply in_or_app.
        destruct Hx' as [H | [<- | H]]; [now left | | now right].
        exfalso. now apply (NoDup_remove_2 _ _ _ Hs).
      * rewrite length_app in *. simpl in Hlen. lia.
      * exists ((i, j) :: q). split.
        -- simpl. apply in_or_app. left.
           apply in_flat_map. exists (j, c1 ++ c2). split.
           ++ apply picks_split. now exists c1, c2.
           ++ apply in_map_iff. now exists q.
        -- simpl. rewrite Hqt, !total_app. simpl. lra.
    + destruct (IH (S k) cols p) as [q [Hq Hqt]]; try assumption.
      * intros x Hx. destruct (Hir x Hx) as [<- | H]; [contradiction | assumption].
      * exists q. split; [|assumption].
        simpl. apply in_or_app. now right.
Qed.

Lemma matchings_nonempty (rows : list nat) :
  forall (k : nat) (cols : list nat),
    (k <= List.length rows)%nat -> (k <= List.length cols)%nat ->
    matchings rows k cols <> [].
Proof.
  induction rows as [|i rs IH]; intros k cols Hr Hc.
  - simpl in Hr. replace k with 0%nat by lia. discriminate.
  - destruct k as [|k]; [discriminate|].
    destruct cols as [|j cs]; [simpl in Hc; lia|].
    simpl in *.
    specialize (IH k cs ltac:(lia) ltac:(lia)).
    destruct (matchings rs k cs); [congruence | discriminate].
Qed.

Lemma argmin_In (f : matching -> Q) (l : list matching) :
  forall best, In (argmin f best l) (best :: l).
Proof.
  induction l as [|p l IH]; intros best; simpl.
  - now left.
  - destruct (Qltb (f p) (f best)).
    + right. apply IH.
    + destruct (IH best) as [H | H]; [now left | right; now right].
Qed.

Lemma argmin_least (f : matching -> Q) (l : list matching) :
  forall best p, In p (best :: l) -> f (argmin f best l) <= f p.
Proof.
  induction l as [|q l IH]; intros best p Hp; simpl.
  - destruct Hp as [<- | []]. lra.
  - destruct (Qltb (f q) (f best)) eqn:E.
    + apply Qltb_lt in E.
      destruct Hp as [<- | [<- | Hp]].
      * pose proof (IH q q (or_introl eq_refl)). lra.
      * apply IH. now left.
      * apply IH. now right.
    + apply Qltb_ge in E.
      destruct Hp as [<- | [<- | Hp]].
      * apply IH. now left.
      * pose proof (IH best best (or_introl eq_refl)). lra.
      * apply IH. now right.
Qed.

Lemma combine_fst_snd {A B} (p : list (A * B)) :
  combine (map fst p) (map snd p) = p.
Proof.
  induction p as [|[a b] p IH]; simpl; [reflexivity | now rewrite IH].
Qed.

Lemma incl_seq (l : list nat) (n : nat) :
  incl l (seq 0 n) <-> Forall (fun x => x < n)%nat l.
Proof.
  rewrite Forall_forall. unfold incl.
  split; intros H x Hx; specialize (H x Hx).
  - apply in_seq in H. lia.
  - apply in_seq. lia.
Qed.

Lemma one_to_one_incl (n m : nat) (p : matching) :
  one_to_one n m p <->
  NoDup (map fst p) /\ NoDup (map snd p) /\
  incl (map fst p) (seq 0 n) /\ incl (map snd p) (seq 0 m).
Proof.
  unfold one_to_one. rewrite !incl_seq, !Forall_map, !Forall_forall.
  split.
  - intros [Hf [Hs H]]. repeat split; try assumption; intros x Hx; now apply H.
  - intros [Hf [Hs [Hr Hc]]]. repeat split; auto.
Qed.

Lemma rectangular_width (n m : nat) (M : list (list Q)) :
  rectangular n m M -> (0 < n)%nat -> width M = m.
Proof.
  intros [Hn Hm] Hpos. destruct M as [|row M]; simpl in *; [lia|].
  now inversion Hm.
Qed.

Theorem meets_contract : LinearSumAssignment exhaustive.
Proof.
  constructor. intros M n m Hrect. simpl linear_sum_assignment.
  unfold exhaustive_assignment.
  assert (Hmin : Nat.min (List.length M) (width M) = Nat.min n m).
  { destruct (Nat.eq_dec n 0) as [-> | Hn].
    - destruct Hrect as [-> _]. reflexivity.
    - rewrite (rectangular_width Hrect) by lia.
      destruct Hrect as [-> _]. reflexivity. }
  assert (Hlen : List.length M = n) by apply Hrect.
  rewrite Hmin, Hlen.
  destruct (matchings (seq 0 n) (Nat.min n m) (seq 0 (width M)))
    as [|p0 ps] eqn:E.
  { exfalso. revert E. apply matchings_nonempty; rewrite length_seq; lia. }
  set (best := argmin (total (entry M)) p0 ps).
  assert (Hbest : In best (matchings (seq 0 n) (Nat.min n m) (seq 0 (width M)))).
  { rewrite E. apply argmin_In. }
  apply matchings_sound in Hbest; try apply seq_NoDup.
  destruct Hbest as [Hl [Hf [Hs [Hir Hic]]]].
  cbn [fst snd]. rewrite combine_fst_snd, !length_map.
  assert (Hw : forall p : matching,
             List.length p = Nat.min n m ->
             incl (map snd p) (seq 0 (width M)) <-> incl (map snd p) (seq 0 m)).
  { intros p Hp. destruct (Nat.eq_dec n 0) as [-> | Hn].
    - destruct p; [|discriminate]. simpl. split; intros _ ? [].
    - now rewrite (rectangular_width Hrect) by lia. }
  repeat split; try assumption.
  - apply one_to_one_incl. repeat split; try assumption. now apply Hw.
  - intros p Hp Hpl. apply one_to_one_incl in Hp.
    destruct Hp as [Hpf [Hps [Hpr Hpc]]].
    destruct (@matchings_complete (entry M) (seq 0 n) (Nat.min n m)
                (seq 0 (width M)) p)
      as [q [Hq Hqt]]; try assumption.
    + now apply Hw.
    + rewrite <- Hqt. apply argmin_least. now rewrite <- E.
Qed.

End Exhaustive.

(** ** Dictionaries and positions *)

Unset Implicit Arguments.

Lemma dict_get_set {K V} (K_dec : forall a b : K, {a = b} + {a <> b})
    (d : dict K V) (k k' : K) (v : V) :
  dict_get K_dec (dict_set K_dec d k v) k' =
  if K_dec k' k then Some v else dict_get K_dec d k'.
Proof.
  induction d as [|[k0 v0] d IH]; simpl.
  - reflexivity.
  - destruct (K_dec k k0) as [-> | Hk]; simpl.
    + destruct (K_dec k' k0); reflexivity.
    + rewrite IH. destruct (K_dec k' k0) as [-> | ?]; [|reflexivity].
      destruct (K_dec k0 k); [congruence | reflexivity].
Qed.

Lemma dict_get_keys {K V} (K_dec : forall a b : K, {a = b} + {a <> b})
    (d : dict K V) (k : K) :
  dict_get K_dec d k <> None <-> In k (keys d).
Proof.
  induction d as [|[k0 v0] d IH]; simpl.
  - tauto.
  - destruct (K_dec k k0) as [-> | Hk].
    + split; [now left | discriminate].
    + rewrite IH. split; [now right | intros [? | ?]; congruence].
Qed.

Lemma existsb_eqb_In (i : nat) (l : list nat) :
  existsb (fun x => (x =? i)%nat) l = true <-> In i l.
Proof.
  rewrite existsb_exists. split.
  - intros [x [Hx E]]. apply Nat.eqb_eq in E. now subst.
  - intros H. exists i. split; [assumption | apply Nat.eqb_refl].
Qed.

Lemma index_of_combine (rows cols : list nat) (i j : nat) :
  NoDup rows -> In (i, j) (combine rows cols) ->
  nth_error cols (index_of i rows) = Some j.
Proof.
  revert cols. induction rows as [|x rows IH]; intros cols Hnd Hin.
  - contradiction.
  - destruct cols as [|y cols]; [contradiction|].
    inversion Hnd as [|? ? Hx Hnd']; subst. simpl in *.
    destruct (Nat.eqb_spec x i) as [-> | Hne]; simpl.
    + destruct Hin as [E | Hin]; [congruence|].
      apply in_combine_l in Hin. contradiction.
    + destruct Hin as [E | Hin]; [congruence|].
      now apply IH.
Qed.

Lemma combine_fst (rows cols : list nat) :
  List.length rows = List.length cols -> map fst (combine rows cols) = rows.
Proof.
  revert cols. induction rows as [|x rows IH]; intros [|y cols] H;
    simpl in *; try discriminate; [reflexivity|].
  f_equal. apply IH. lia.
Qed.

Lemma NoDup_map_inj {A B} (f : A -> B) (l : list A) (x y : A) :
  NoDup (map f l) -> In x l -> In y l -> f x = f y -> x = y.
Proof.
  induction l as [|a l IH]; intros Hnd Hx Hy E; [contradiction|].
  simpl in Hnd. inversion Hnd as [|? ? Ha Hnd']; subst.
  destruct Hx as [-> | Hx], Hy as [-> | Hy].
  - reflexivity.
  - exfalso. apply Ha. rewrite E. now apply in_map.
  - exfalso. apply Ha. rewrite <- E. now apply in_map.
  - now apply IH.
Qed.

Lemma one_to_one_row (n m : nat) (p : matching) (i j j' : nat) :
  one_to_one n m p -> In (i, j) p -> In (i, j') p -> j = j'.
Proof.
  intros [Hf _] H1 H2.
  assert (E : (i, j) = (i, j')) by (eapply (NoDup_map_inj fst); eauto).
  congruence.
Qed.

Lemma one_to_one_col (n m : nat) (p : matching) (i i' j : nat) :
  one_to_one n m p -> In (i, j) p -> In (i', j) p -> i = i'.
Proof.
  intros [_ [Hs _]] H1 H2.
  assert (E : (i, j) = (i', j)) by (eapply (NoDup_map_inj snd); eauto).
  congruence.
Qed.

Lemma one_to_one_bounds (n m : nat) (p : matching) (i j : nat) :
  one_to_one n m p -> In (i, j) p -> (i < n)%nat /\ (j < m)%nat.
Proof.
  intros [_ [_ H]] Hin. rewrite Forall_forall in H. exact (H _ Hin).
Qed.

(** ** The cost matrix *)

Section CostMatrix.
Context {F : Rapidfuzz}.
Variables raw_columns template_columns : list str.

Local Abbreviation n := (List.length template_columns).
Local Abbreviation m := (List.length raw_columns).

Lemma cost_matrix_rectangular :
  rectangular n m (cost_matrix_of template_columns raw_columns).
Proof.
  unfold rectangular, cost_matrix_of. split.
  - now rewrite length_map.
  - apply Forall_forall. intros row Hrow.
    apply in_map_iff in Hrow. destruct Hrow as [t [<- _]].
    now rewrite length_map.
Qed.

Lemma cost_matrix_row (i : nat) (t : str) :
  nth_error template_columns i = Some t ->
  nth_error (cost_matrix_of template_columns raw_columns) i =
  Some (map (fun raw_col => 100 - _calculate_match_score t raw_col) raw_columns).
Proof.
  intros H. unfold cost_matrix_of. now rewrite nth_error_map, H.
Qed.

Lemma cost_matrix_entry (i j : nat) :
  (i < n)%nat -> (j < m)%nat ->
  entry (cost_matrix_of template_columns raw_columns) i j =
  100 - score_at raw_columns template_columns i j.
Proof.
  intros Hi Hj. unfold entry, score_at.
  destruct (nth_error template_columns i) as [t|] eqn:Et.
  2:{ apply nth_error_None in Et. lia. }
  destruct (nth_error raw_columns j) as [r|] eqn:Er.
  2:{ apply nth_error_None in Er. lia. }
  rewrite (nth_error_nth _ _ _ (cost_matrix_row _ _ Et)).
  rewrite (nth_error_nth _ _ _ Et), (nth_error_nth _ _ _ Er).
  apply nth_error_nth. now rewrite nth_error_map, Er.
Qed.
End CostMatrix.

(** ** [fuzzy_match_headers]: the loop *)

Lemma build_mappings_spec {F : Rapidfuzz} (similarity_threshold : Z)
    (cm : list (list Q)) (raw : list str) (rows cols : list nat)
    (columns : list str) :
  forall (i0 : nat) (mappings : Mapping),
    (forall k, (k < List.length columns)%nat ->
               exists v, assign_row similarity_threshold cm raw rows cols (i0 + k) = Ok v) ->
    exists M,
      build_mappings similarity_threshold cm raw rows cols i0 columns mappings = Ok M /\
      forall t,
        (exists k, last_row columns k t /\
                   Ok (dict_get str_dec M t) =
                   (v <- assign_row similarity_threshold cm raw rows cols (i0 + k) ;;
                    Ok (Some v)))
        \/ (~ In t columns /\ dict_get str_dec M t = dict_get str_dec mappings t).
Proof.
  induction columns as [|c rest IH]; intros i0 mappings Hok.
  - exists mappings. split; [reflexivity|].
    intros t. right. split; [intros [] | reflexivity].
  - destruct (Hok 0%nat ltac:(simpl; lia)) as [v0 Hv0].
    rewrite Nat.add_0_r in Hv0.
    destruct (IH (S i0) (dict_set str_dec mappings c v0)) as [M [HM Hspec]].
    { intros k Hk. destruct (Hok (S k) ltac:(simpl; lia)) as [v Hv].
      exists v. now rewrite Nat.add_succ_comm. }
    exists M. split.
    { simpl. rewrite Hv0. simpl. exact HM. }
    intros t. destruct (Hspec t) as [[k [[Hk Hlast] Hget]] | [Hnot Hget]].
    + left. exists (S k). split.
      * split; [exact Hk|].
        intros [|i'] Hi'; [lia|]. simpl. apply Hlast. lia.
      * now rewrite <- Nat.add_succ_comm.
    + rewrite dict_get_set in Hget.
      destruct (str_dec t c) as [-> | Hne].
      * left. exists 0%nat. split.
        -- split; [reflexivity|].
           intros [|i'] Hi'; [lia|]. simpl. intros E. apply Hnot.
           eapply nth_error_In; eassumption.
        -- rewrite Nat.add_0_r, Hv0, Hget. reflexivity.
      * right. split; [|assumption].
        intros [E | Hin]; [congruence | contradiction].
Qed.

Section AssignerFacts.
Context {F : Rapidfuzz} {Sci : Scipy} {L : LinearSumAssignment Sci}.
Variable similarity_threshold : Z.
Variables raw_columns template_columns : list str.

Local Abbreviation n := (List.length template_columns).
Local Abbreviation m := (List.length raw_columns).
Local Abbreviation cm := (cost_matrix_of template_columns raw_columns).
Local Abbreviation rows := (fst (linear_sum_assignment cm)).
Local Abbreviation cols := (snd (linear_sum_assignment cm)).

Lemma solver_lengths :
  List.length rows = Nat.min n m /\ List.length cols = Nat.min n m.
Proof.
  pose proof (lsa_optimal (cost_matrix_rectangular raw_columns template_columns))
    as H.
  cbv zeta in H. tauto.
Qed.

Lemma assignment_one_to_one :
  one_to_one n m (assignment raw_columns template_columns).
Proof.
  pose proof (lsa_optimal (cost_matrix_rectangular raw_columns template_columns))
    as H.
  cbv zeta in H. unfold assignment. tauto.
Qed.

Lemma assignment_length :
  List.length (assignment raw_columns template_columns) = Nat.min n m.
Proof.
  unfold assignment.
  destruct solver_lengths as [Hr Hc].
  rewrite length_combine, Hr, Hc. apply Nat.min_id.
Qed.

Lemma assignment_least (p : matching) :
  one_to_one n m p -> List.length p = Nat.min n m ->
  total (entry cm) (assignment raw_columns template_columns) <= total (entry cm) p.
Proof.
  pose proof (lsa_optimal (cost_matrix_rectangular raw_columns template_columns))
    as H.
  cbv zeta in H. unfold assignment. apply H.
Qed.

Lemma assignment_rows :
  map fst (assignment raw_columns template_columns) = rows.
Proof.
  unfold assignment.
  apply combine_fst. destruct solver_lengths. congruence.
Qed.

Lemma rows_NoDup : NoDup rows.
Proof.
  rewrite <- assignment_rows. apply assignment_one_to_one.
Qed.

Lemma assigned_row (i : nat) :
  In i rows <-> exists j, In (i, j) (assignment raw_columns template_columns).
Proof.
  rewrite <- assignment_rows, in_map_iff. split.
  - intros [[i' j] [E H]]. simpl in E. subst. now exists j.
  - intros [j H]. now exists (i, j).
Qed.

Lemma assign_row_assigned (i j : nat) (t r : str) :
  In (i, j) (assignment raw_columns template_columns) ->
  nth_error template_columns i = Some t ->
  nth_error raw_columns j = Some r ->
  assign_row similarity_threshold cm raw_columns rows cols i =
  Ok (accept similarity_threshold r (100 - (100 - _calculate_match_score t r))).
Proof.
  intros Hin Ht Hr. unfold assign_row.
  assert (Hi : In i rows) by (apply assigned_row; eauto).
  apply existsb_eqb_In in Hi. rewrite Hi.
  unfold assignment in Hin.
  unfold list_get.
  rewrite (index_of_combine rows cols i j rows_NoDup Hin). simpl.
  rewrite Hr. simpl.
  rewrite (cost_matrix_row raw_columns template_columns i t Ht). simpl.
  rewrite nth_error_map, Hr. simpl.
  unfold accept.
  destruct (Qle_bool _ _); reflexivity.
Qed.

Lemma assign_row_free (i : nat) :
  ~ In i rows ->
  assign_row similarity_threshold cm raw_columns rows cols i = Ok (None, 0).
Proof.
  intros Hi. unfold assign_row.
  destruct (existsb _ rows) eqn:E; [|reflexivity].
  apply existsb_eqb_In in E. contradiction.
Qed.

Lemma assign_row_total (i : nat) :
  exists v, assign_row similarity_threshold cm raw_columns rows cols i = Ok v.
Proof.
  destruct (in_dec Nat.eq_dec i rows) as [Hi | Hi].
  - apply assigned_row in Hi. destruct Hi as [j Hij].
    destruct (one_to_one_bounds _ _ _ _ _ assignment_one_to_one Hij) as [Hn Hm].
    destruct (nth_error template_columns i) as [t|] eqn:Et.
    2:{ apply nth_error_None in Et. lia. }
    destruct (nth_error raw_columns j) as [r|] eqn:Er.
    2:{ apply nth_error_None in Er. lia. }
    eexists. eapply assign_row_assigned; eassumption.
  - eexists. now apply assign_row_free.
Qed.

(** The Mapping of two non-empty lists: no exception, and the entry of a
    name is the one of the last row that carries it. *)
Lemma fuzzy_match_headers_rows :
  raw_columns <> [] -> template_columns <> [] ->
  exists M,
    fuzzy_match_headers similarity_threshold raw_columns template_columns = Ok M /\
    forall t,
      (exists i, last_row template_columns i t /\
         ((exists j r,
              In (i, j) (assignment raw_columns template_columns) /\
              nth_error raw_columns j = Some r /\
              dict_get str_dec M t =
              Some (accept similarity_threshold r
                           (100 - (100 - _calculate_match_score t r))))
          \/ (~ In i rows /\ dict_get str_dec M t = Some (None, 0))))
      \/ (~ In t template_columns /\ dict_get str_dec M t = None).
Proof.
  intros Hraw Htem. unfold fuzzy_match_headers.
  destruct (is_empty raw_columns) eqn:Eraw;
    [apply is_empty_nil in Eraw; congruence|].
  destruct (is_empty template_columns) eqn:Etem;
    [apply is_empty_nil in Etem; congruence|].
  simpl orb. cbv iota.
  rewrite (surjective_pairing (linear_sum_assignment cm)).
  destruct (@build_mappings_spec F similarity_threshold cm raw_columns rows cols
              template_columns 0%nat [])
    as [M [HM Hspec]].
  { intros k _. apply assign_row_total. }
  exists M. split; [exact HM|].
  intros t. destruct (Hspec t) as [[i [Hlast Hget]] | [Hnot Hget]].
  - left. exists i. split; [assumption|].
    simpl in Hget.
    destruct (in_dec Nat.eq_dec i rows) as [Hi | Hi].
    + left. apply assigned_row in Hi. destruct Hi as [j Hij].
      destruct (one_to_one_bounds _ _ _ _ _ assignment_one_to_one Hij) as [_ Hm].
      destruct (nth_error raw_columns j) as [r|] eqn:Er.
      2:{ apply nth_error_None in Er. lia. }
      exists j, r. repeat split; try assumption.
      rewrite (assign_row_assigned _ _ _ _ Hij (proj1 Hlast) Er) in Hget.
      simpl in Hget. congruence.
    + right. split; [assumption|].
      rewrite (assign_row_free _ Hi) in Hget. simpl in Hget. congruence.
  - right. split; assumption.
Qed.
End AssignerFacts.

(** ** [fuzzy_match_headers]: empty lists *)

Lemma fold_set_const {V} (v0 : V) (l : list str) :
  forall (d : dict str V) (t : str),
    dict_get str_dec
      (fold_left (fun d kv => dict_set str_dec d (fst kv) (snd kv))
                 (map (fun col => (col, v0)) l) d) t =
    if mem t l then Some v0 else dict_get str_dec d t.
Proof.
  induction l as [|c l IH]; intros d t.
  - reflexivity.
  - cbn [map fold_left fst snd]. rewrite IH, dict_get_set.
    unfold mem. cbn [existsb]. fold (mem t l).
    destruct (mem t l); [now rewrite orb_true_r|].
    rewrite orb_false_r. unfold str_eqb.
    destruct (str_dec t c); reflexivity.
Qed.

Lemma dict_of_const {V} (v0 : V) (l : list str) (t : str) :
  dict_get str_dec (dict_of str_dec (map (fun col => (col, v0)) l)) t =
  if mem t l then Some v0 else None.
Proof. unfold dict_of. now rewrite fold_set_const. Qed.

Lemma fuzzy_match_headers_empty {F : Rapidfuzz} {Sci : Scipy}
    (similarity_threshold : Z) (raw_columns template_columns : list str) :
  raw_columns = [] \/ template_columns = [] ->
  exists M,
    fuzzy_match_headers similarity_threshold raw_columns template_columns = Ok M /\
    forall t, dict_get str_dec M t =
              if mem t template_columns then Some (None, 0) else None.
Proof.
  intros H. unfold fuzzy_match_headers.
  assert (E : is_empty raw_columns || is_empty template_columns = true).
  { apply orb_true_iff. rewrite !is_empty_nil. exact H. }
  rewrite E. eexists. split; [reflexivity|].
  intros t. apply dict_of_const.
Qed.

Lemma accept_source (thr : Z) (r : str) (x : Q) (s : str) (c : Q) :
  accept thr r x = (Some s, c) -> r = s.
Proof.
  unfold accept. destruct (Qle_bool _ _); congruence.
Qed.

(** ** One source column per template column *)

Section OneToOne.
Context {F : Rapidfuzz} {Sci : Scipy} (L : LinearSumAssignment Sci).
Variable similarity_threshold : Z.
Variables raw_columns template_columns : list str.

Lemma mapped_entry_row (M : Mapping) :
  (forall t,
      (exists i, last_row template_columns i t /\
         ((exists j r,
              In (i, j) (assignment raw_columns template_columns) /\
              nth_error raw_columns j = Some r /\
              dict_get str_dec M t =
              Some (accept similarity_threshold r
                           (100 - (100 - _calculate_match_score t r))))
          \/ (~ In i (fst (linear_sum_assignment
                             (cost_matrix_of template_columns raw_columns))) /\
              dict_get str_dec M t = Some (None, 0))))
      \/ (~ In t template_columns /\ dict_get str_dec M t = None)) ->
  forall t s c,
    dict_get str_dec M t = Some (Some s, c) ->
    exists i j,
      nth_error template_columns i = Some t /\
      In (i, j) (assignment raw_columns template_columns) /\
      nth_error raw_columns j = Some s.
Proof.
  intros Hspec t s c Hget.
  destruct (Hspec t) as [[i [[Hi _] [[j [r [Hij [Hr Hg]]]] | [_ Hg]]]] | [_ Hg]].
  - rewrite Hg in Hget. injection Hget as Hacc.
    apply accept_source in Hacc. subst r. now exists i, j.
  - congruence.
  - congruence.
Qed.

End OneToOne.

(** ** The assignment has the largest total score *)

Lemma free_index (l : list nat) (n : nat) :
  (List.length l < n)%nat -> exists i, (i < n)%nat /\ ~ In i l.
Proof.
  intros Hlen.
  destruct (find (fun i => negb (existsb (fun x => (x =? i)%nat) l)) (seq 0 n))
    as [i|] eqn:E.
  - apply find_some in E. destruct E as [Hi Hn].
    exists i. split.
    + apply in_seq in Hi. lia.
    + apply negb_true_iff in Hn. intros Hin.
      apply existsb_eqb_In in Hin. congruence.
  - exfalso.
    assert (Hincl : incl (seq 0 n) l).
    { intros x Hx. pose proof (find_none _ _ E x Hx) as H.
      apply negb_false_iff in H. now apply existsb_eqb_In. }
    pose proof (NoDup_incl_length (seq_NoDup n 0) Hincl) as H.
    rewrite length_seq in H. lia.
Qed.

Lemma bounded_NoDup_length (l : list nat) (n : nat) :
  NoDup l -> Forall (fun x => x < n)%nat l -> (List.length l <= n)%nat.
Proof.
  intros Hnd Hb.
  assert (Hincl : incl l (seq 0 n)).
  { intros x Hx. rewrite Forall_forall in Hb. apply in_seq.
    specialize (Hb x Hx). lia. }
  pose proof (NoDup_incl_length Hnd Hincl) as H.
  now rewrite length_seq in H.
Qed.

Lemma Qnat_S (k : nat) : Qnat (S k) == Qnat k + 1.
Proof.
  unfold Qnat. rewrite Nat2Z.inj_succ, <- Z.add_1_r, inject_Z_plus. reflexivity.
Qed.

Lemma one_to_one_tail (n m : nat) (ij : nat * nat) (q : matching) :
  one_to_one n m (ij :: q) -> one_to_one n m q.
Proof.
  intros [Hf [Hs Hb]]. simpl in Hf, Hs.
  apply NoDup_cons_iff in Hf, Hs. apply Forall_cons_iff in Hb.
  repeat split; tauto.
Qed.

Lemma one_to_one_length (n m : nat) (q : matching) :
  one_to_one n m q -> (List.length q <= Nat.min n m)%nat.
Proof.
  intros [Hf [Hs Hb]].
  assert (Hbf : Forall (fun x => x < n)%nat (map fst q)).
  { rewrite Forall_map. eapply Forall_impl; [|exact Hb]. now intros ? []. }
  assert (Hbs : Forall (fun x => x < m)%nat (map snd q)).
  { rewrite Forall_map. eapply Forall_impl; [|exact Hb]. now intros ? []. }
  pose proof (bounded_NoDup_length _ _ Hf Hbf) as H1.
  pose proof (bounded_NoDup_length _ _ Hs Hbs) as H2.
  rewrite length_map in H1, H2. lia.
Qed.

Lemma one_to_one_grow (n m : nat) (q : matching) :
  one_to_one n m q -> (List.length q < Nat.min n m)%nat ->
  exists i j, one_to_one n m ((i, j) :: q).
Proof.
  intros [Hf [Hs Hb]] Hlen.
  destruct (free_index (map fst q) n) as [i [Hi Hni]];
    [rewrite length_map; lia|].
  destruct (free_index (map snd q) m) as [j [Hj Hnj]];
    [rewrite length_map; lia|].
  exists i, j. repeat split; simpl.
  - now constructor.
  - now constructor.
  - constructor; [simpl; lia | assumption].
Qed.

Section Optimal.
Context {F : Rapidfuzz} {Sci : Scipy} (L : LinearSumAssignment Sci).
Variables raw_columns template_columns : list str.

Local Abbreviation n := (List.length template_columns).
Local Abbreviation m := (List.length raw_columns).
Local Abbreviation cm := (cost_matrix_of template_columns raw_columns).
Local Abbreviation s := (score_at raw_columns template_columns).

Lemma score_at_nonneg (i j : nat) : 0 <= s i j.
Proof. apply score_nonneg. Qed.

Lemma total_cost_score (q : matching) :
  one_to_one n m q ->
  total (entry cm) q == 100 * Qnat (List.length q) - total s q.
Proof.
  induction q as [|[i j] q IH]; intros Hq.
  - simpl. change (Qnat 0) with 0. lra.
  - pose proof (one_to_one_bounds _ _ _ i j Hq (or_introl eq_refl)) as [Hi Hj].
    specialize (IH (one_to_one_tail _ _ _ _ Hq)).
    cbn [total fold_right fst snd List.length] in *.
    fold (total (entry cm) q). fold (total s q).
    rewrite IH, Qnat_S.
    rewrite (cost_matrix_entry raw_columns template_columns i j Hi Hj).
    lra.
Qed.

Lemma one_to_one_fill (d : nat) :
  forall q : matching,
    one_to_one n m q -> (Nat.min n m - List.length q = d)%nat ->
    exists q', one_to_one n m q' /\ List.length q' = Nat.min n m /\
               total s q <= total s q'.
Proof.
  induction d as [|d IH]; intros q Hq Hd.
  - exists q. split; [assumption|]. split; [|lra].
    pose proof (one_to_one_length _ _ _ Hq). lia.
  - destruct (one_to_one_grow _ _ _ Hq ltac:(lia)) as [i [j Hq1]].
    destruct (IH ((i, j) :: q) Hq1 ltac:(simpl; lia)) as [q' [Hq' [Hl Ht]]].
    exists q'. split; [assumption|]. split; [assumption|].
    cbn [total fold_right fst snd] in Ht. fold (total s q) in Ht.
    pose proof (score_at_nonneg i j). lra.
Qed.

(** No one-to-one assignment of template columns to raw columns scores
    more than the one the solver returns. *)
Lemma assignment_best (q : matching) :
  one_to_one n m q ->
  total s q <= total s (assignment raw_columns template_columns).
Proof.
  intros Hq.
  destruct (one_to_one_fill _ q Hq eq_refl) as [q' [Hq' [Hl Ht]]].
  pose proof (assignment_least (L := L) raw_columns template_columns q' Hq' Hl)
    as Hleast.
  pose proof (assignment_one_to_one (L := L) raw_columns template_columns) as Hp.
  pose proof (assignment_length (L := L) raw_columns template_columns) as Hpl.
  pose proof (total_cost_score _ Hp) as E1.
  pose proof (total_cost_score _ Hq') as E2.
  rewrite Hpl in E1. rewrite Hl in E2.
  lra.
Qed.
End Optimal.

(** ** The threshold gate *)

Lemma last_row_unique (columns : list str) (i i' : nat) (t : str) :
  last_row columns i t -> last_row columns i' t -> i = i'.
Proof.
  intros [Hi Hl] [Hi' Hl'].
  destruct (Nat.lt_trichotomy i i') as [H | [H | H]].
  - exfalso. now apply (Hl i').
  - assumption.
  - exfalso. now apply (Hl' i).
Qed.

Lemma recovered_score (x : Q) : 100 - (100 - x) == x.
Proof. lra. Qed.

Lemma accept_below (thr : Z) (r : str) (x : Q) :
  x < inject_Z thr -> accept thr r (100 - (100 - x)) = (None, 0).
Proof.
  intros H. unfold accept.
  destruct (Qle_bool (inject_Z thr) (100 - (100 - x))) eqn:E; [|reflexivity].
  apply Qle_bool_iff in E. rewrite recovered_score in E. lra.
Qed.

Lemma accept_above (thr : Z) (r : str) (x : Q) :
  inject_Z thr <= x ->
  accept thr r (100 - (100 - x)) = (Some r, (100 - (100 - x)) / 100).
Proof.
  intros H. unfold accept.
  destruct (Qle_bool (inject_Z thr) (100 - (100 - x))) eqn:E; [reflexivity|].
  apply Qle_bool_lt in E. rewrite recovered_score in E. lra.
Qed.

Lemma accept_unmapped (thr : Z) (r : str) (x c : Q) :
  accept thr r x = (None, c) -> c = 0.
Proof.
  unfold accept. destruct (Qle_bool _ _); congruence.
Qed.

Section Gate.
Context {F : Rapidfuzz} {Sci : Scipy}.
Context (R : RapidfuzzRange F) (L : LinearSumAssignment Sci).
Variable similarity_threshold : Z.
Variables raw_columns template_columns : list str.

Lemma gate_on_rows :
  exists M,
    fuzzy_match_headers similarity_threshold raw_columns template_columns = Ok M /\
    (forall t c, dict_get str_dec M t = Some (None, c) -> c = 0) /\
    (forall t, In t template_columns -> exists v, dict_get str_dec M t = Some v) /\
    forall i j t r,
      In (i, j) (assignment raw_columns template_columns) ->
      last_row template_columns i t ->
      nth_error raw_columns j = Some r ->
      dict_get str_dec M t =
      Some (accept similarity_threshold r
                   (100 - (100 - _calculate_match_score t r))).
Proof.
  destruct (list_eq_dec str_dec raw_columns []) as [Hr | Hr];
    [|destruct (list_eq_dec str_dec template_columns []) as [Ht | Ht]].
  - destruct (fuzzy_match_headers_empty (F := F) (Sci := Sci)
                similarity_threshold raw_columns template_columns
                (or_introl Hr)) as [M [HM Hget]].
    exists M. split; [assumption|]. repeat split.
    + intros t c H. rewrite Hget in H.
      destruct (mem t template_columns); congruence.
    + intros t Ht. rewrite Hget. apply mem_In in Ht. rewrite Ht. eauto.
    + intros i j t r _ _ Hj. rewrite Hr in Hj. destruct j; discriminate.
  - destruct (fuzzy_match_headers_empty (F := F) (Sci := Sci)
                similarity_threshold raw_columns template_columns
                (or_intror Ht)) as [M [HM Hget]].
    exists M. split; [assumption|]. repeat split.
    + intros t c H. rewrite Hget in H.
      destruct (mem t template_columns); congruence.
    + intros t Hin. rewrite Ht in Hin. contradiction.
    + intros i j t r _ [Hi _] _. rewrite Ht in Hi. destruct i; discriminate.
  - destruct (fuzzy_match_headers_rows (L := L) similarity_threshold
                raw_columns template_columns Hr Ht) as [M [HM Hspec]].
    exists M. split; [assumption|]. repeat split.
    + intros t c H.
      destruct (Hspec t)
        as [[i [_ [[j [r [_ [_ Hg]]]] | [_ Hg]]]] | [_ Hg]];
        rewrite Hg in H; try congruence.
      injection H as H. now apply accept_unmapped in H.
    + intros t Hin.
      destruct (Hspec t)
        as [[i [_ [[j [r [_ [_ Hg]]]] | [_ Hg]]]] | [Hnot _]];
        eauto; contradiction.
    + intros i j t r Hij Hlast Hj.
      destruct (Hspec t)
        as [[i' [Hlast' [[j' [r' [Hij' [Hj' Hg]]]] | [Hfree _]]]] | [Hnot _]].
      * assert (i' = i) by (eapply last_row_unique; eassumption). subst i'.
        assert (j' = j).
        { eapply one_to_one_row;
            [apply (assignment_one_to_one (L := L)) | eassumption..]. }
        subst j'. congruence.
      * assert (i' = i) by (eapply last_row_unique; eassumption). subst i'.
        exfalso. apply Hfree.
        apply (assigned_row (L := L)). eauto.
      * exfalso. apply Hnot. destruct Hlast as [Hi _].
        eapply nth_error_In; eassumption.
Qed.
End Gate.

(** ** The assigner: the claims *)

Lemma raw_ex_NoDup : NoDup raw_ex.
Proof.
  unfold raw_ex. constructor.
  - intros [H | []]. discriminate H.
  - constructor; [intros [] | constructor].
Defined.

(** C1 (amended). When the raw column names are pairwise distinct,
    [fuzzy_match_headers] returns a Mapping in which two distinct template
    columns that both carry a source column carry different ones. *)
Theorem fuzzy_match_headers_one_to_one
    {F : Rapidfuzz} {Sci : Scipy} (L : LinearSumAssignment Sci)
    (similarity_threshold : Z) (raw_columns template_columns : list str) :
  NoDup raw_columns ->
  exists M,
    fuzzy_match_headers similarity_threshold raw_columns template_columns = Ok M /\
    mapping_one_to_one M.
Proof.
  intros Hnd.
  destruct (list_eq_dec str_dec raw_columns []) as [Hr | Hr].
  { destruct (fuzzy_match_headers_empty (F := F) (Sci := Sci)
                similarity_threshold raw_columns template_columns
                (or_introl Hr)) as [M [HM Hget]].
    exists M. split; [assumption|].
    intros t1 t2 s1 s2 c1 c2 _ H1 _. rewrite Hget in H1.
    destruct (mem t1 template_columns); discriminate. }
  destruct (list_eq_dec str_dec template_columns []) as [Ht | Ht].
  { destruct (fuzzy_match_headers_empty (F := F) (Sci := Sci)
                similarity_threshold raw_columns template_columns
                (or_intror Ht)) as [M [HM Hget]].
    exists M. split; [assumption|].
    intros t1 t2 s1 s2 c1 c2 _ H1 _. rewrite Hget in H1.
    destruct (mem t1 template_columns); discriminate. }
  destruct (fuzzy_match_headers_rows (L := L) similarity_threshold
              raw_columns template_columns Hr Ht) as [M [HM Hspec]].
  exists M. split; [assumption|].
  intros t1 t2 s1 s2 c1 c2 Hne H1 H2 Hs. subst s2.
  destruct (mapped_entry_row similarity_threshold raw_columns template_columns M
              Hspec _ _ _ H1) as [i1 [j1 [Hi1 [Hp1 Hr1]]]].
  destruct (mapped_entry_row similarity_threshold raw_columns template_columns M
              Hspec _ _ _ H2) as [i2 [j2 [Hi2 [Hp2 Hr2]]]].
  assert (Hj : j1 = j2).
  { rewrite NoDup_nth_error in Hnd. apply Hnd; [|congruence].
    apply nth_error_Some. congruence. }
  subst j2.
  assert (Hi : i1 = i2).
  { eapply one_to_one_col; [apply (assignment_one_to_one (L := L)) | eassumption..]. }
  congruence.
Qed.


Lemma fuzzy_match_headers_one_to_one_witness :
  NoDup raw_ex /\
  exists M,
    @fuzzy_match_headers exact_ratio exhaustive 70 raw_ex template_ex = Ok M /\
    mapping_one_to_one M.
Proof.
  split.
  - exact raw_ex_NoDup.
  - exact (fuzzy_match_headers_one_to_one (F := exact_ratio)
             Exhaustive.meets_contract 70 raw_ex template_ex raw_ex_NoDup).
Defined.

(** C1, as stated, fails when a raw column name occurs twice: the template
    columns 'a' and 'A' are both mapped to the source column 'a'. *)
Lemma fuzzy_match_headers_shared_source :
  exists M,
    @fuzzy_match_headers exact_ratio exhaustive 70
      [py "a"; py "a"] [py "a"; py "A"] = Ok M /\
    ~ mapping_one_to_one M.
Proof.
  eexists. split.
  - vm_compute. reflexivity.
  - intros H.
    eapply (H (py "a") (py "A") (py "a") (py "a")).
    + discriminate.
    + vm_compute. reflexivity.
    + vm_compute. reflexivity.
    + reflexivity.
Qed.

(** The same two entries come out of every solver that meets the contract. *)
Lemma shared_source_any_solver
    {F : Rapidfuzz} {Sci : Scipy} (L : LinearSumAssignment Sci) :
  exists M c1 c2,
    fuzzy_match_headers 70 [py "a"; py "a"] [py "a"; py "A"] = Ok M /\
    dict_get str_dec M (py "a") = Some (Some (py "a"), c1) /\
    dict_get str_dec M (py "A") = Some (Some (py "a"), c2).
Proof.
  set (raw := [py "a"; py "a"]). set (tem := [py "a"; py "A"]).
  destruct (fuzzy_match_headers_rows (L := L) 70 raw tem) as [M [HM Hspec]];
    [discriminate | discriminate |].
  pose proof (assignment_one_to_one (L := L) raw tem) as Hp.
  pose proof (assignment_length (L := L) raw tem) as Hl.
  pose proof (assignment_rows (L := L) raw tem) as Hrows.
  simpl List.length in Hp, Hl.
  assert (Hall : forall i, (i < 2)%nat ->
            In i (fst (linear_sum_assignment (cost_matrix_of tem raw)))).
  { intros i Hi. rewrite <- Hrows.
    apply (NoDup_length_incl (l := map fst (assignment raw tem)) (l' := seq 0 2)).
    - apply Hp.
    - rewrite length_map, Hl. simpl. lia.
    - intros x Hx. apply in_map_iff in Hx. destruct Hx as [[a b] [<- Hab]].
      destruct (one_to_one_bounds _ _ _ _ _ Hp Hab). apply in_seq. simpl. lia.
    - apply in_seq. lia. }
  assert (Hentry : forall t, In t tem ->
            exists c, dict_get str_dec M t = Some (Some (py "a"), c)).
  { intros t Ht.
    destruct (Hspec t) as [[i [[Hi _] [[j [r [Hij [Hr Hg]]]] | [Hfree _]]]] | [Hnot _]].
    - assert (Er : r = py "a").
      { unfold raw in Hr.
        destruct j as [|[|j]]; simpl in Hr;
          [injection Hr as <-; reflexivity | injection Hr as <-; reflexivity
          | destruct j; discriminate Hr]. }
      subst r. rewrite Hg.
      destruct Ht as [<- | [<- | []]]; eexists; reflexivity.
    - exfalso. apply Hfree. apply Hall.
      change 2%nat with (List.length tem).
      apply nth_error_Some. congruence.
    - contradiction. }
  destruct (Hentry (py "a")) as [c1 H1]; [now left|].
  destruct (Hentry (py "A")) as [c2 H2]; [right; now left|].
  now exists M, c1, c2.
Qed.

(** C2. On two non-empty lists the assignment that [fuzzy_match_headers]
    takes from the solver is one to one, has [min(|template|, |raw|)]
    pairs, and no one-to-one assignment of template columns to raw columns
    has a larger total score. The Mapping is read off this assignment: a
    template row (the last to carry its name) that is paired with the raw
    column [r] is stored with source [r] and confidence [score/100] when
    the score of the pair meets the threshold, and as [(None, 0.0)] when it
    does not; a template row left without a pair is stored as
    [(None, 0.0)]. An empty template list gives the empty Mapping, and an
    empty raw list gives [(None, 0.0)] for every template column. *)
Theorem fuzzy_match_headers_optimal
    {F : Rapidfuzz} {Sci : Scipy} (L : LinearSumAssignment Sci)
    (similarity_threshold : Z) (raw_columns template_columns : list str) :
  let n := List.length template_columns in
  let m := List.length raw_columns in
  let p := assignment raw_columns template_columns in
  let s := score_at raw_columns template_columns in
  (raw_columns <> [] -> template_columns <> [] ->
   one_to_one n m p /\
   List.length p = Nat.min n m /\
   (forall q, one_to_one n m q -> total s q <= total s p) /\
   exists M,
     fuzzy_match_headers similarity_threshold raw_columns template_columns = Ok M /\
     (forall i j t r,
         In (i, j) p -> last_row template_columns i t ->
         nth_error raw_columns j = Some r ->
         (inject_Z similarity_threshold <= s i j ->
          exists c, dict_get str_dec M t = Some (Some r, c) /\ c == s i j / 100) /\
         (s i j < inject_Z similarity_threshold ->
          dict_get str_dec M t = Some (None, 0))) /\
     (forall i t, last_row template_columns i t -> ~ In i (map fst p) ->
                  dict_get str_dec M t = Some (None, 0))) /\
  fuzzy_match_headers similarity_threshold raw_columns [] = Ok [] /\
  (exists M,
     fuzzy_match_headers similarity_threshold [] template_columns = Ok M /\
     (forall t, In t template_columns -> dict_get str_dec M t = Some (None, 0)) /\
     (forall t, ~ In t template_columns -> dict_get str_dec M t = None)).
Proof.
  intros n m p s. split; [|split].
  - intros Hr Ht.
    split; [apply (assignment_one_to_one (L := L))|].
    split; [apply (assignment_length (L := L))|].
    split; [intros q Hq; now apply (assignment_best L)|].
    destruct (gate_on_rows L similarity_threshold raw_columns template_columns)
      as [M [HM [_ [_ Hrow]]]].
    destruct (fuzzy_match_headers_rows (L := L) similarity_threshold
                raw_columns template_columns Hr Ht) as [M' [HM' Hspec]].
    assert (M' = M) by congruence. subst M'.
    exists M. split; [assumption|]. split.
    + intros i j t r Hij Hlast Hj.
      rewrite (Hrow i j t r Hij Hlast Hj).
      assert (Es : s i j = _calculate_match_score t r).
      { unfold s, score_at. destruct Hlast as [Hi _].
        now rewrite (nth_error_nth _ _ _ Hi), (nth_error_nth _ _ _ Hj). }
      rewrite Es. split.
      * intros Hge. rewrite accept_above by assumption.
        eexists. split; [reflexivity|]. now rewrite recovered_score.
      * intros Hlt. now rewrite accept_below.
    + intros i t Hlast Hfree.
      unfold p in Hfree. rewrite (assignment_rows (L := L)) in Hfree.
      destruct (Hspec t)
        as [[i' [Hlast' [[j [r [Hij _]]] | [_ Hg]]]] | [Hnot _]].
      * assert (i' = i) by (eapply last_row_unique; eassumption). subst i'.
        exfalso. apply Hfree. apply (assigned_row (L := L)). eauto.
      * assumption.
      * exfalso. apply Hnot. destruct Hlast as [Hi _].
        eapply nth_error_In; eassumption.
  - unfold fuzzy_match_headers. simpl. now rewrite orb_true_r.
  - destruct (fuzzy_match_headers_empty (F := F) (Sci := Sci)
                similarity_threshold [] template_columns (or_introl eq_refl))
      as [M [HM Hget]].
    exists M. split; [assumption|]. split; intros t Ht; rewrite Hget.
    + apply mem_In in Ht. now rewrite Ht.
    + destruct (mem t template_columns) eqn:E; [|reflexivity].
      apply mem_In in E. contradiction.
Qed.

Lemma fuzzy_match_headers_optimal_witness :
  let s := @score_at exact_ratio raw_ex template_ex in
  let p := @assignment exact_ratio exhaustive raw_ex template_ex in
  one_to_one 2 2 p /\ List.length p = 2%nat /\
  (forall q, one_to_one 2 2 q -> total s q <= total s p) /\
  exists M,
    @fuzzy_match_headers exact_ratio exhaustive 70 raw_ex template_ex = Ok M /\
    (exists c, dict_get str_dec M (py "E-mail") = Some (Some (py "email"), c) /\
               c == s 0%nat 0%nat / 100) /\
    dict_get str_dec M (py "Name") = Some (None, 0).
Proof.
  intros s p.
  destruct (fuzzy_match_headers_optimal (F := exact_ratio)
              Exhaustive.meets_contract 70 raw_ex template_ex) as [H _].
  destruct H as [H1 [H2 [H3 [M [HM [Hpair _]]]]]].
  - discriminate.
  - discriminate.
  - split; [exact H1|]. split; [exact H2|]. split; [exact H3|].
    exists M. split; [exact HM|]. split.
    + refine (proj1 (Hpair 0%nat 0%nat (py "E-mail") (py "email") _ _ _) _).
      * vm_compute. left. reflexivity.
      * split; [reflexivity|].
        intros [|[|[|i']]] Hi H; try discriminate H; inversion Hi.
      * reflexivity.
      * vm_compute. discriminate.
    + refine (proj2 (Hpair 1%nat 1%nat (py "Name") (py "zzz") _ _ _) _).
      * vm_compute. right. left. reflexivity.
      * split; [reflexivity|].
        intros [|[|i']] Hi H; [inversion Hi | inversion Hi; lia | ].
        destruct i'; discriminate H.
      * reflexivity.
      * vm_compute. reflexivity.
Defined.

(** C4 (amended). [fuzzy_match_headers] never raises, and an entry without
    source column has confidence [0.0]. For a template column that is the
    last of the list to carry its name (any template column when the names
    are distinct) and that the assignment pairs with the raw column [r]:
    when the score of the pair is below the threshold the entry is
    [(None, 0.0)]; when it meets the threshold the entry is [(r, c)] with
    [c] equal to [score/100], which lies in [0.7, 1.0] at the threshold
    70. *)
Theorem threshold_gate
    {F : Rapidfuzz} {Sci : Scipy}
    (R : RapidfuzzRange F) (L : LinearSumAssignment Sci)
    (similarity_threshold : Z) (raw_columns template_columns : list str) :
  exists M,
    fuzzy_match_headers similarity_threshold raw_columns template_columns = Ok M /\
    (forall t c, dict_get str_dec M t = Some (None, c) -> c = 0) /\
    (forall t, In t template_columns -> exists v, dict_get str_dec M t = Some v) /\
    forall i j t r,
      In (i, j) (assignment raw_columns template_columns) ->
      last_row template_columns i t ->
      nth_error raw_columns j = Some r ->
      let score := _calculate_match_score t r in
      (score < inject_Z similarity_threshold ->
       dict_get str_dec M t = Some (None, 0)) /\
      (inject_Z similarity_threshold <= score ->
       exists c, dict_get str_dec M t = Some (Some r, c) /\
                 c == score / 100 /\
                 (similarity_threshold = 70%Z -> 0.7 <= c <= 1)).
Proof.
  destruct (gate_on_rows L similarity_threshold raw_columns template_columns)
    as [M [HM [Hnone [Hall Hrow]]]].
  exists M. split; [assumption|]. split; [assumption|]. split; [assumption|].
  intros i j t r Hij Hlast Hj score.
  rewrite (Hrow i j t r Hij Hlast Hj). fold score. split.
  - intros Hlt. now rewrite accept_below.
  - intros Hge. rewrite accept_above by assumption.
    eexists. split; [reflexivity|].
    assert (E : (100 - (100 - score)) / 100 == score / 100).
    { now rewrite recovered_score. }
    split; [exact E|].
    intros ->. rewrite E.
    pose proof (score_range (R := R) t r) as Hrange. fold score in Hrange.
    change (inject_Z 70) with 70 in Hge.
    split.
    + apply Qle_shift_div_l; lra.
    + apply Qle_shift_div_r; lra.
Qed.

Lemma threshold_gate_witness :
  exists M,
    @fuzzy_match_headers exact_ratio exhaustive 70 raw_ex template_ex = Ok M /\
    dict_get str_dec M (py "Name") = Some (None, 0) /\
    exists c, dict_get str_dec M (py "E-mail") = Some (Some (py "email"), c) /\
              0.7 <= c <= 1.
Proof.
  destruct (threshold_gate exact_ratio_range Exhaustive.meets_contract 70
              raw_ex template_ex) as [M [HM [_ [_ Hrow]]]].
  exists M. split; [exact HM|]. split.
  - refine (proj1 (Hrow 1%nat 1%nat (py "Name") (py "zzz") _ _ _) _).
    + vm_compute. right. left. reflexivity.
    + split; [reflexivity|].
      intros [|[|i']] Hi H; [inversion Hi | inversion Hi; lia | ].
      destruct i'; discriminate H.
    + reflexivity.
    + vm_compute. reflexivity.
  - destruct (proj2 (Hrow 0%nat 0%nat (py "E-mail") (py "email") ltac:(vm_compute; left; reflexivity)
                  ltac:(split; [reflexivity | intros [|[|[|i']]] Hi H; try discriminate H; inversion Hi])
                  eq_refl) ltac:(vm_compute; discriminate)) as [c [Hc [_ Hr]]].
    exists c. split; [exact Hc | exact (Hr eq_refl)].
Defined.

(** C4, as stated, fails when a template name occurs twice. With the raw
    columns ['zzz', 'a'] and the template columns ['a', 'a'], whatever the
    scorer and whichever optimal assignment the solver returns, the
    assignment holds a pair whose template column is stored neither as
    [(None, 0.0)] with a score below the threshold nor with the raw column
    of the pair with a score that meets it: the two rows share the key 'a'
    and the entry is the one of the second row. *)
Lemma duplicate_names_any_solver :
  exists raw_columns template_columns : list str,
    raw_columns = [py "zzz"; py "a"] /\
    template_columns = [py "a"; py "a"] /\
    forall (F : Rapidfuzz) (Sci : Scipy),
      LinearSumAssignment Sci ->
      exists M i j t r,
        fuzzy_match_headers 70 raw_columns template_columns = Ok M /\
        In (i, j) (assignment raw_columns template_columns) /\
        nth_error template_columns i = Some t /\
        nth_error raw_columns j = Some r /\
        ((_calculate_match_score t r < 70 /\
          dict_get str_dec M t <> Some (None, 0)) \/
         (70 <= _calculate_match_score t r /\
          forall c, dict_get str_dec M t <> Some (Some r, c))).
Proof.
  exists [py "zzz"; py "a"], [py "a"; py "a"].
  split; [reflexivity|]. split; [reflexivity|].
  intros F Sci L.
  set (raw := [py "zzz"; py "a"]). set (tem := [py "a"; py "a"]).
  destruct (gate_on_rows L 70 raw tem) as [M [HM [_ [_ Hrow]]]].
  pose proof (assignment_one_to_one (L := L) raw tem) as Hp.
  pose proof (assignment_length (L := L) raw tem) as Hl.
  pose proof (assignment_rows (L := L) raw tem) as Hrows.
  simpl List.length in Hp, Hl.
  assert (Hall : forall i, (i < 2)%nat -> exists j, In (i, j) (assignment raw tem)).
  { intros i Hi.
    assert (Hin : In i (map fst (assignment raw tem))).
    { apply (NoDup_length_incl (l := map fst (assignment raw tem)) (l' := seq 0 2)).
      - apply Hp.
      - rewrite length_map, Hl. simpl. lia.
      - intros x Hx. apply in_map_iff in Hx. destruct Hx as [[a b] [<- Hab]].
        destruct (one_to_one_bounds _ _ _ _ _ Hp Hab). apply in_seq. simpl. lia.
      - apply in_seq. lia. }
    apply in_map_iff in Hin. destruct Hin as [[i' j] [E Hin]].
    simpl in E. subst i'. now exists j. }
  destruct (Hall 0%nat ltac:(lia)) as [j0 H0].
  destruct (Hall 1%nat ltac:(lia)) as [j1 H1].
  assert (Hne : j0 <> j1).
  { intros ->. pose proof (one_to_one_col _ _ _ _ _ _ Hp H0 H1). discriminate. }
  destruct (one_to_one_bounds _ _ _ _ _ Hp H0) as [_ Hj0].
  destruct (one_to_one_bounds _ _ _ _ _ Hp H1) as [_ Hj1].
  assert (Hlast : last_row tem 1 (py "a")).
  { split; [reflexivity|]. intros [|[|i']] Hi H; try lia.
    destruct i'; discriminate H. }
  assert (Hsame : _calculate_match_score (py "a") (py "a") = 100) by reflexivity.
  assert (Hcases : (j0 = 0 /\ j1 = 1)%nat \/ (j0 = 1 /\ j1 = 0)%nat) by lia.
  destruct Hcases as [[-> ->] | [-> ->]].
  - (* the second row is paired with 'a' and stored; the first, paired
       with 'zzz', is not *)
    pose proof (Hrow 1%nat 1%nat (py "a") (py "a") H1 Hlast eq_refl) as HM1.
    rewrite Hsame in HM1.
    change (accept 70 (py "a") (100 - (100 - 100)))
      with (Some (py "a"), (100 - (100 - 100)) / 100) in HM1.
    exists M, 0%nat, 0%nat, (py "a"), (py "zzz").
    split; [exact HM|]. split; [exact H0|]. split; [reflexivity|].
    split; [reflexivity|].
    destruct (Qlt_le_dec (_calculate_match_score (py "a") (py "zzz")) 70)
      as [Hlt | Hge].
    + left. split; [exact Hlt|]. rewrite HM1. discriminate.
    + right. split; [exact Hge|]. intros c. rewrite HM1. discriminate.
  - (* the second row is paired with 'zzz' and stored; the first, paired
       with 'a' at score 100, is not *)
    pose proof (Hrow 1%nat 0%nat (py "a") (py "zzz") H1 Hlast eq_refl) as HM1.
    exists M, 0%nat, 1%nat, (py "a"), (py "a").
    split; [exact HM|]. split; [exact H0|]. split; [reflexivity|].
    split; [reflexivity|].
    right. rewrite Hsame. split; [discriminate|].
    intros c E. rewrite HM1 in E. injection E as E.
    apply accept_source in E. discriminate E.
Qed.

(** ** [detect_data_patterns] *)

Lemma forallb_Forall {A} (f : A -> bool) (l : list A) :
  forallb f l = true <-> Forall (fun x => f x = true) l.
Proof.
  rewrite forallb_forall, Forall_forall. reflexivity.
Qed.

Lemma half_lt (a b : nat) :
  Qltb (Qnat a / 2) (Qnat b) = true <-> (a < 2 * b)%nat.
Proof.
  rewrite Qltb_lt. unfold Qlt, Qdiv, Qmult, Qinv, Qnat. simpl. lia.
Qed.

(** *** The non-null values *)

Lemma non_null_values_dropna (series : Series) (values : list str) :
  non_null_values series values -> values = dropna series.
Proof.
  induction 1; simpl; congruence.
Qed.

Lemma dropna_non_null_values (series : Series) :
  non_null_values series (dropna series).
Proof.
  induction series as [|[v|] series IH]; simpl; constructor; assumption.
Qed.

(** *** Characters *)

Lemma In_existsb_eqb (c : ascii) (l : list ascii) :
  In c l <-> existsb (Ascii.eqb c) l = true.
Proof.
  rewrite existsb_exists. split.
  - intros H. exists c. split; [assumption | apply Ascii.eqb_refl].
  - intros [x [Hx E]]. apply Ascii.eqb_eq in E. now subst.
Qed.

Ltac all_chars c :=
  destruct c as [[|] [|] [|] [|] [|] [|] [|] [|]]; reflexivity.

Lemma is_letter_letters (c : ascii) :
  is_letter c = true <-> In c letters.
Proof.
  rewrite In_existsb_eqb.
  replace (existsb (Ascii.eqb c) letters) with (is_letter c);
    [reflexivity | all_chars c].
Qed.

Lemma local_char_class (c : ascii) :
  local_char c = true <-> In c (letters ++ digits ++ py "._%+-").
Proof.
  rewrite In_existsb_eqb.
  replace (existsb (Ascii.eqb c) (letters ++ digits ++ py "._%+-"))
    with (local_char c); [reflexivity | all_chars c].
Qed.

Lemma domain_char_class (c : ascii) :
  domain_char c = true <-> In c (letters ++ digits ++ py ".-").
Proof.
  rewrite In_existsb_eqb.
  replace (existsb (Ascii.eqb c) (letters ++ digits ++ py ".-"))
    with (domain_char c); [reflexivity | all_chars c].
Qed.

Lemma stripped_char (c : ascii) :
  In c currency_signs <->
  ((code c =? 36) || (code c =? 44) || (code c =? 163))%nat = true.
Proof.
  rewrite In_existsb_eqb.
  replace (existsb (Ascii.eqb c) currency_signs)
    with ((code c =? 36) || (code c =? 44) || (code c =? 163))%nat;
    [reflexivity | all_chars c].
Qed.

Lemma comma_is_stripped (c : ascii) :
  (code c =? 44)%nat = true -> In c currency_signs.
Proof.
  intros H. apply stripped_char. rewrite H. now rewrite orb_true_r.
Qed.

Lemma code_eqb_eq (c d : ascii) : (code c =? code d)%nat = true <-> c = d.
Proof.
  rewrite Nat.eqb_eq. unfold code. split; [|congruence].
  intros H. rewrite <- (ascii_nat_embedding c), <- (ascii_nat_embedding d).
  congruence.
Qed.

(** *** Stripping *)

Lemma numeric_clean_stripped (x : str) : stripped x (numeric_clean x).
Proof.
  unfold numeric_clean. induction x as [|c x IH]; simpl; [constructor|].
  destruct ((code c =? 36) || (code c =? 44) || (code c =? 163))%nat eqn:E;
    simpl.
  - apply stripped_drop; [now apply stripped_char | exact IH].
  - assert (Hc : (code c =? 44)%nat = false).
    { destruct (code c =? 44)%nat eqn:E'; [|reflexivity].
      rewrite orb_true_r in E. discriminate E. }
    rewrite Hc. simpl. apply stripped_keep; [|exact IH].
    intros H. apply stripped_char in H. congruence.
Qed.

Lemma stripped_functional (x y z : str) :
  stripped x y -> stripped x z -> y = z.
Proof.
  intros Hy. revert z.
  induction Hy as [|c x y Hc _ IH|c x y Hc _ IH]; intros z Hz;
    inversion Hz; subst; try contradiction; try reflexivity.
  - now apply IH.
  - f_equal. now apply IH.
Qed.

Lemma stripped_numeric_clean (x y : str) :
  stripped x y -> y = numeric_clean x.
Proof.
  intros H. eapply stripped_functional; [exact H | apply numeric_clean_stripped].
Qed.

(** *** The email pattern *)

Lemma cut_first_Some (sep : ascii) (s a b : str) :
  cut_first sep s = Some (a, b) ->
  s = a ++ sep :: b /\ ~ In sep a.
Proof.
  revert a b. induction s as [|c s IH]; intros a b H; simpl in H;
    [discriminate|].
  destruct (code c =? code sep)%nat eqn:E.
  - injection H as <- <-. apply code_eqb_eq in E. subst. split; [reflexivity|].
    intros [].
  - destruct (cut_first sep s) as [[a' b']|]; [|discriminate].
    injection H as <- <-. destruct (IH a' b' eq_refl) as [-> Hn].
    split; [reflexivity|]. intros [-> | H]; [|contradiction].
    rewrite Nat.eqb_refl in E. discriminate E.
Qed.

Lemma cut_first_app (sep : ascii) (a b : str) :
  ~ In sep a -> cut_first sep (a ++ sep :: b) = Some (a, b).
Proof.
  induction a as [|c a IH]; intros Hn; simpl.
  - now rewrite Nat.eqb_refl.
  - destruct (code c =? code sep)%nat eqn:E.
    + apply code_eqb_eq in E. subst. exfalso. apply Hn. now left.
    + rewrite IH; [reflexivity|]. intros H. apply Hn. now right.
Qed.

Lemma cut_last_Some (sep : ascii) (s a b : str) :
  cut_last sep s = Some (a, b) ->
  s = a ++ sep :: b /\ ~ In sep b.
Proof.
  unfold cut_last. intros H.
  destruct (cut_first sep (rev s)) as [[a' b']|] eqn:E; [|discriminate].
  injection H as <- <-. apply cut_first_Some in E. destruct E as [E Hn].
  split.
  - rewrite <- (rev_involutive s), E, rev_app_distr. simpl.
    now rewrite <- app_assoc.
  - intros H. apply Hn. now apply in_rev.
Qed.

Lemma cut_last_app (sep : ascii) (a b : str) :
  ~ In sep b -> cut_last sep (a ++ sep :: b) = Some (a, b).
Proof.
  intros Hn. unfold cut_last.
  rewrite rev_app_distr. simpl. rewrite <- app_assoc. simpl.
  rewrite cut_first_app.
  - now rewrite !rev_involutive.
  - intros H. apply Hn. now apply in_rev.
Qed.

Lemma before_final_newline_cases (x : str) :
  x = before_final_newline x \/ x = before_final_newline x ++ [newline].
Proof.
  unfold before_final_newline.
  destruct (rev x) as [|c r] eqn:E; [now left|].
  destruct (code c =? 10)%nat eqn:Ec; [|now left].
  right. rewrite <- (rev_involutive x), E. simpl.
  change 10%nat with (code newline) in Ec. apply code_eqb_eq in Ec.
  now subst.
Qed.

Lemma before_final_newline_snoc (e : str) :
  before_final_newline (e ++ [newline]) = e.
Proof.
  unfold before_final_newline. rewrite rev_app_distr. simpl.
  apply rev_involutive.
Qed.

Lemma before_final_newline_letter (a : str) (c : ascii) :
  In c letters -> before_final_newline (a ++ [c]) = a ++ [c].
Proof.
  intros Hc. unfold before_final_newline. rewrite rev_app_distr. simpl.
  destruct (code c =? 10)%nat eqn:E; [|reflexivity].
  change 10%nat with (code newline) in E. apply code_eqb_eq in E. subst.
  apply is_letter_letters in Hc. discriminate Hc.
Qed.

Lemma is_empty_false {A} (l : list A) : is_empty l = false <-> l <> [].
Proof.
  destruct l; simpl; split; congruence.
Qed.

Lemma email_match_shaped (x : str) :
  email_match x = true <-> email_shaped x.
Proof.
  unfold email_match, email_shaped. split.
  - intros H.
    destruct (cut_first "@" (before_final_newline x)) as [[local rest]|] eqn:E1;
      [|discriminate].
    apply andb_prop in H. destruct H as [H H3].
    apply andb_prop in H. destruct H as [H1 H2].
    destruct (cut_last "." rest) as [[domain tld]|] eqn:E2; [|discriminate].
    apply andb_prop in H3. destruct H3 as [H3 H6].
    apply andb_prop in H3. destruct H3 as [H3 H5].
    apply andb_prop in H3. destruct H3 as [H3 H4].
    apply cut_first_Some in E1. destruct E1 as [E1 _].
    apply cut_last_Some in E2. destruct E2 as [E2 _]. subst rest.
    exists local, domain, tld.
    split; [|split; [|split; [|split; [|split; [|split]]]]].
    + destruct (before_final_newline_cases x) as [Hx | Hx]; rewrite E1 in Hx.
      * left. exact Hx.
      * right. rewrite Hx. rewrite <- app_assoc. simpl. rewrite <- app_assoc.
        reflexivity.
    + apply is_empty_false. now apply negb_true_iff.
    + apply forallb_Forall in H2.
      eapply Forall_impl; [|exact H2]. intros c. apply local_char_class.
    + apply is_empty_false. now apply negb_true_iff.
    + apply forallb_Forall in H4.
      eapply Forall_impl; [|exact H4]. intros c. apply domain_char_class.
    + now apply Nat.leb_le.
    + apply forallb_Forall in H6.
      eapply Forall_impl; [|exact H6]. intros c. apply is_letter_letters.
  - intros [local [domain [tld [Hx [Hl [Hlc [Hd [Hdc [Ht Htc]]]]]]]]].
    assert (Hb : before_final_newline x =
                 local ++ "@"%char :: domain ++ "."%char :: tld).
    { destruct (exists_last (l := tld)) as [t' [c Et]].
      { intros ->. simpl in Ht. lia. }
      assert (Hc : In c letters).
      { rewrite Forall_forall in Htc. apply Htc. rewrite Et.
        apply in_or_app. right. now left. }
      assert (Hassoc : local ++ "@"%char :: domain ++ "."%char :: tld =
                       (local ++ "@"%char :: domain ++ "."%char :: t') ++ [c]).
      { rewrite Et. rewrite <- app_assoc. simpl. rewrite <- app_assoc. reflexivity. }
      destruct Hx as [-> | ->]; simpl.
      - rewrite Hassoc. now apply before_final_newline_letter.
      - replace (local ++ "@"%char :: domain ++ "."%char :: tld ++ [newline])
          with ((local ++ "@"%char :: domain ++ "."%char :: tld) ++ [newline]).
        + apply before_final_newline_snoc.
        + rewrite <- app_assoc. simpl. rewrite <- app_assoc. reflexivity. }
    rewrite Hb. rewrite cut_first_app.
    2:{ intros H. rewrite Forall_forall in Hlc. apply Hlc in H.
        apply local_char_class in H. discriminate H. }
    rewrite cut_last_app.
    2:{ intros H. rewrite Forall_forall in Htc. apply Htc in H.
        apply is_letter_letters in H. discriminate H. }
    apply is_empty_false in Hl, Hd. apply Nat.leb_le in Ht.
    assert (H2 : forallb local_char local = true).
    { apply forallb_Forall. eapply Forall_impl; [|exact Hlc].
      intros c. apply local_char_class. }
    assert (H4 : forallb domain_char domain = true).
    { apply forallb_Forall. eapply Forall_impl; [|exact Hdc].
      intros c. apply domain_char_class. }
    assert (H6 : forallb is_letter tld = true).
    { apply forallb_Forall. eapply Forall_impl; [|exact Htc].
      intros c. apply is_letter_letters. }
    rewrite Hl, Hd, H2, H4, H6, Ht. reflexivity.
Qed.

Lemma count_true_occ (l : list bool) :
  count_true l = count_occ Bool.bool_dec l true.
Proof.
  unfold count_true. induction l as [|[|] l IH]; simpl; congruence.
Qed.

Section PatternFacts.
Context {P : Pandas}.

Lemma all_emails_forallb (sample : list str) :
  forallb email_match sample = true <-> all_emails sample.
Proof.
  rewrite forallb_Forall. unfold all_emails.
  split; intros H; (eapply Forall_impl; [|exact H]); intros x;
    apply email_match_shaped.
Qed.

Lemma all_numbers_forallb (sample : list str) :
  forallb is_number (map numeric_clean sample) = true <-> all_numbers sample.
Proof.
  rewrite forallb_Forall, Forall_map. unfold all_numbers.
  split; intros H; (eapply Forall_impl; [|exact H]); intros x.
  - intros Hx. exists (numeric_clean x).
    split; [apply numeric_clean_stripped | exact Hx].
  - intros [y [Hy Hn]]. apply stripped_numeric_clean in Hy. now subst.
Qed.

Lemma detect_classifies (series : Series) :
  classifies (dropna series) (detect_data_patterns series).
Proof.
  unfold detect_data_patterns.
  destruct (Nat.eqb_spec (List.length (dropna series)) 0) as [E | E].
  { apply class_empty. now apply length_zero_iff_nil. }
  assert (Hne : dropna series <> []).
  { intros H. apply E. now rewrite H. }
  set (sample := firstn 10 (dropna series)).
  destruct (forallb email_match sample) eqn:Ee.
  { apply class_email; [assumption|]. now apply all_emails_forallb. }
  assert (He : ~ all_emails sample).
  { intros H. apply all_emails_forallb in H. congruence. }
  destruct (forallb is_number (map numeric_clean sample)) eqn:En.
  { apply class_numeric; try assumption. now apply all_numbers_forallb. }
  assert (Hn : ~ all_numbers sample).
  { intros H. apply all_numbers_forallb in H. congruence. }
  destruct (to_datetime_coerce sample) as [dates|] eqn:Ed.
  - destruct (Qltb (Qnat (List.length sample) / 2) (Qnat (count_true dates)))
      eqn:Eh.
    + apply class_date; try assumption.
      exists dates. split; [assumption|].
      rewrite <- count_true_occ. now apply half_lt.
    + apply class_text; try assumption.
      intros [dates' [Hd Hh]]. fold sample in Hd, Hh. rewrite Ed in Hd.
      injection Hd as <-. rewrite <- count_true_occ in Hh.
      apply half_lt in Hh. rewrite Hh in Eh. discriminate Eh.
  - apply class_text; try assumption.
    intros [dates' [Hd _]]. fold sample in Hd. congruence.
Qed.

Lemma classifies_functional (values : list str) (p q : pattern) :
  classifies values p -> classifies values q -> p = q.
Proof.
  intros Hp Hq. destruct Hp; destruct Hq; try reflexivity; contradiction.
Qed.
End PatternFacts.

(** C8. [detect_data_patterns] classifies the non-null values of the
    column, of which it looks at the first ten, in the order email,
    numeric, date, text: no value at all gives 'text'; 'email' when every
    value matches the email pattern; otherwise 'numeric' when every value
    parses as a number once its currency signs and commas are removed,
    whatever the dates say; otherwise 'date' when strictly more than half
    of the values parse as dates; otherwise 'text'. The rules give one
    answer only. *)
Theorem detect_data_patterns_cascade {P : Pandas}
    (series : Series) (values : list str) :
  non_null_values series values ->
  classifies values (detect_data_patterns series) /\
  (forall p, classifies values p -> p = detect_data_patterns series).
Proof.
  intros Hv. apply non_null_values_dropna in Hv. subst values. split.
  - apply detect_classifies.
  - intros p Hp. eapply classifies_functional; [exact Hp|].
    apply detect_classifies.
Qed.

Lemma detect_data_patterns_cascade_witness :
  non_null_values
    [Some (py "2024010112"); None; Some (py "$1,999120131")]
    [py "2024010112"; py "$1,999120131"] /\
  @classifies toy_pandas [py "2024010112"; py "$1,999120131"] numeric /\
  forall p,
    @classifies toy_pandas [py "2024010112"; py "$1,999120131"] p ->
    p = numeric.
Proof.
  assert (H : non_null_values
                [Some (py "2024010112"); None; Some (py "$1,999120131")]
                [py "2024010112"; py "$1,999120131"]).
  { repeat constructor. }
  split; [exact H|].
  exact (@detect_data_patterns_cascade toy_pandas _ _ H).
Defined.

Example detect_numeric_before_date :
  @detect_data_patterns toy_pandas
    [Some (py "2024010112"); None; Some (py "$1,999120131")] = numeric.
Proof. vm_compute. reflexivity. Qed.

Example detect_email :
  @detect_data_patterns toy_pandas
    [Some (py "ann@example.org"); Some (py "bob.k+x@mail.co.uk")] = email.
Proof. vm_compute. reflexivity. Qed.

Example detect_not_email :
  @detect_data_patterns toy_pandas
    [Some (py "ann@example"); Some (py "x@y.c")] = text.
Proof. vm_compute. reflexivity. Qed.

Example detect_date :
  @detect_data_patterns toy_pandas
    [Some (py "2024-01-02"); Some (py "n/a"); Some (py "2024-02-03")] = date.
Proof. vm_compute. reflexivity. Qed.

Example detect_all_null :
  @detect_data_patterns toy_pandas [None; None] = text.
Proof. vm_compute. reflexivity. Qed.

(** ** [semantic_pattern_match] *)

Lemma dict_set_fresh {K V} (K_dec : forall a b : K, {a = b} + {a <> b})
    (d : dict K V) (k : K) (v : V) :
  ~ In k (keys d) -> dict_set K_dec d k v = d ++ [(k, v)].
Proof.
  induction d as [|[k0 v0] d IH]; simpl; intros H.
  - reflexivity.
  - destruct (K_dec k k0) as [-> | Hne]; [tauto|].
    rewrite IH by tauto. reflexivity.
Qed.

Lemma fold_set_NoDup {K V} (K_dec : forall a b : K, {a = b} + {a <> b})
    (l : list (K * V)) :
  forall d, NoDup (keys d ++ map fst l) ->
            fold_left (fun d kv => dict_set K_dec d (fst kv) (snd kv)) l d = d ++ l.
Proof.
  induction l as [|[k v] l IH]; intros d H; simpl.
  - now rewrite app_nil_r.
  - simpl in H. rewrite dict_set_fresh.
    + rewrite IH.
      * now rewrite <- app_assoc.
      * unfold keys in *. rewrite map_app. simpl. rewrite <- app_assoc. exact H.
    + apply NoDup_remove_2 in H. intros Hin. apply H. apply in_or_app. now left.
Qed.

Lemma dict_of_NoDup {K V} (K_dec : forall a b : K, {a = b} + {a <> b})
    (l : list (K * V)) :
  NoDup (map fst l) -> dict_of K_dec l = l.
Proof.
  intros H. unfold dict_of. now rewrite fold_set_NoDup.
Qed.

Lemma dict_get_map {K V W} (K_dec : forall a b : K, {a = b} + {a <> b})
    (f : V -> W) (d : dict K V) (k : K) :
  dict_get K_dec (map (fun kv => (fst kv, f (snd kv))) d) k =
  option_map f (dict_get K_dec d k).
Proof.
  induction d as [|[k0 v0] d IH]; simpl; [reflexivity|].
  destruct (K_dec k k0); [reflexivity | exact IH].
Qed.

Lemma patterns_of_get {P : Pandas} (df : DataFrame) (col : str) :
  NoDup (columns df) ->
  dict_get str_dec (patterns_of df) col =
  option_map detect_data_patterns (dict_get str_dec df col).
Proof.
  intros H. unfold patterns_of. rewrite dict_of_NoDup.
  - apply dict_get_map.
  - rewrite map_map. exact H.
Qed.

Lemma pop_app {A} (l1 l2 : list A) (a : A) :
  pop (List.length l1) (l1 ++ a :: l2) = l1 ++ l2.
Proof.
  unfold pop. induction l1 as [|x l1 IH]; simpl.
  - reflexivity.
  - f_equal. exact IH.
Qed.

Lemma pop_nth {A} (l : list A) (i : nat) (a : A) :
  NoDup l -> nth_error l i = Some a ->
  NoDup (pop i l) /\ ~ In a (pop i l) /\ incl (pop i l) l.
Proof.
  intros Hnd Hi.
  destruct (nth_error_split l i Hi) as [l1 [l2 [-> Hlen]]].
  subst i. rewrite pop_app. repeat split.
  - eapply NoDup_remove_1; eassumption.
  - eapply NoDup_remove_2; eassumption.
  - intros x Hx. apply in_app_or in Hx. apply in_or_app.
    destruct Hx; [now left | right; now right].
Qed.

Lemma mapped_raw_In (mappings : Mapping) (t r : str) (c : Q) :
  dict_get str_dec mappings t = Some (Some r, c) -> In r (mapped_raw_of mappings).
Proof.
  induction mappings as [|[k [[m0|] c0]] d IH]; simpl; [discriminate | |].
  - destruct (str_dec t k); [intros [= -> _]; now left | intros H; right; auto].
  - destruct (str_dec t k); [discriminate | assumption].
Qed.

Lemma unmapped_template_keys (mappings : Mapping) (t : str) :
  In t (unmapped_template_of mappings) -> dict_get str_dec mappings t <> None.
Proof.
  intros H. unfold unmapped_template_of in H.
  apply in_map_iff in H. destruct H as [[k v] [<- H]].
  apply filter_In in H. destruct H as [H _].
  apply dict_get_keys. unfold keys. apply in_map_iff. now exists (k, v).
Qed.

Lemma pattern_eqb_eq (a b : pattern) : pattern_eqb a b = true <-> a = b.
Proof. destruct a, b; simpl; split; congruence. Qed.

Section EnhancerFacts.
Context {P : Pandas}.
Variables TP RP : dict str pattern.
Variable mappings : Mapping.
Variable U0 : list str.
Hypothesis RP_total : forall r, In r U0 -> dict_get str_dec RP r <> None.

(** One inner loop: nothing changes, or one unused raw column of the
    pattern of the template column is taken. *)
Lemma scan_cases (template_col : str) (pat : pattern)
    (E : Mapping) (U : list str) :
  incl U U0 ->
  dict_get str_dec E template_col <> None ->
  forall (rest : list str) (i : nat),
    skipn i U = rest ->
    scan RP template_col pat i rest E U = Ok (E, U) \/
    exists i' r m0 c0,
      nth_error U i' = Some r /\
      dict_get str_dec RP r = Some pat /\
      dict_get str_dec E template_col = Some (m0, c0) /\ c0 < 0.6 /\
      scan RP template_col pat i rest E U =
      Ok (dict_set str_dec E template_col (Some r, 0.6), pop i' U).
Proof.
  intros HU HE. induction rest as [|raw_col rest IH]; intros i Hskip.
  - left. reflexivity.
  - assert (Hi : nth_error U i = Some raw_col).
    { rewrite <- (firstn_skipn i U) at 1. rewrite Hskip.
      assert (Hlen : List.length (firstn i U) = i).
      { apply firstn_length_le.
        destruct (Nat.le_gt_cases i (List.length U)) as [H | H]; [assumption|].
        rewrite skipn_all2 in Hskip by lia. discriminate. }
      rewrite nth_error_app2 by lia. rewrite Hlen, Nat.sub_diag. reflexivity. }
    assert (Hnext : skipn (S i) U = rest).
    { change (S i) with (1 + i)%nat. rewrite <- skipn_skipn, Hskip.
      reflexivity. }
    assert (Hin : In raw_col U0).
    { apply HU. eapply nth_error_In; eassumption. }
    simpl. unfold dict_item.
    destruct (dict_get str_dec RP raw_col) as [raw_pattern|] eqn:ERP;
      [|exfalso; now apply (RP_total _ Hin)].
    simpl.
    destruct (pattern_eqb pat raw_pattern) eqn:Epat; [|now apply IH].
    apply pattern_eqb_eq in Epat. subst raw_pattern.
    destruct (dict_get str_dec E template_col) as [[m0 c0]|] eqn:EE;
      [|congruence].
    simpl.
    destruct (Qltb c0 0.6) eqn:Ec; [|now apply IH].
    right. exists i, raw_col, m0, c0.
    apply Qltb_lt in Ec. repeat split; assumption || reflexivity.
Qed.

Lemma enhancer_state_step (E : Mapping) (U : list str)
    (t0 r0 : str) (m0 : option str) (c0 : Q) (i : nat) (pat : pattern) :
  (forall r, In r U0 -> ~ In r (mapped_raw_of mappings)) ->
  enhancer_state TP RP mappings U0 E U ->
  dict_get str_dec TP t0 = Some pat -> pat <> text ->
  nth_error U i = Some r0 ->
  dict_get str_dec RP r0 = Some pat ->
  dict_get str_dec E t0 = Some (m0, c0) -> c0 < 0.6 ->
  enhancer_state TP RP mappings U0
                 (dict_set str_dec E t0 (Some r0, 0.6)) (pop i U).
Proof.
  intros Hfresh [Hnd Hincl Hsrc Hkept Hshared] HTP Htext Hi HRP HE Hc.
  destruct (pop_nth U i r0 Hnd Hi) as [Hnd' [Hr0 Hincl']].
  assert (Hin0 : In r0 U) by (eapply nth_error_In; eassumption).
  constructor.
  - assumption.
  - intros x Hx. auto.
  - intros t r c Hget. rewrite dict_get_set in Hget.
    destruct (str_dec t t0) as [-> | Hne].
    + injection Hget as <- _. assumption.
    + intros Hin. eapply Hsrc; eauto.
  - intros t. rewrite dict_get_set.
    destruct (str_dec t t0) as [-> | Hne]; [|apply Hkept].
    right. destruct (Hkept t0) as [Hsame | [m1 [c1 [r1 [p1 [_ [_ [Hg _]]]]]]]].
    + exists m0, c0, r0, pat. rewrite <- Hsame.
      repeat split; auto.
    + exfalso. rewrite Hg in HE. injection HE as _ <-. lra.
  - intros t t' r c c' Hne Hg Hg'. rewrite dict_get_set in Hg, Hg'.
    destruct (str_dec t t0) as [-> | Ht], (str_dec t' t0) as [-> | Ht'].
    + congruence.
    + injection Hg as <- _. exfalso. eapply Hsrc; eauto.
    + injection Hg' as <- _. exfalso. eapply Hsrc; eauto.
    + eapply Hshared; eauto.
Qed.

Lemma enhance_state (unmapped_template : list str) :
  (forall r, In r U0 -> ~ In r (mapped_raw_of mappings)) ->
  (forall t, In t unmapped_template -> dict_get str_dec mappings t <> None) ->
  forall (E : Mapping) (U : list str),
    enhancer_state TP RP mappings U0 E U ->
    exists E' U',
      enhance TP RP unmapped_template E U = Ok (E', U') /\
      enhancer_state TP RP mappings U0 E' U'.
Proof.
  intros Hfresh.
  induction unmapped_template as [|t0 rest IH]; intros Hkeys E U Hst.
  - exists E, U. split; [reflexivity | assumption].
  - assert (Hrest : forall t, In t rest -> dict_get str_dec mappings t <> None).
    { intros t Ht. apply Hkeys. now right. }
    simpl.
    destruct (dict_get str_dec TP t0) as [pat|] eqn:ETP; [|now apply IH].
    destruct (pattern_eqb pat text) eqn:Etext; [now apply IH|].
    assert (Hpat : pat <> text).
    { intros H. apply pattern_eqb_eq in H. congruence. }
    assert (HE : dict_get str_dec E t0 <> None).
    { destruct (kept_or_assigned Hst t0) as [-> | [? [? [? [? [_ [_ [-> _]]]]]]]].
      - apply Hkeys. now left.
      - discriminate. }
    destruct (scan_cases t0 pat E U (unused_incl Hst) HE U 0 eq_refl)
      as [-> | [i [r [m0 [c0 [Hi [HRP [HEt [Hc ->]]]]]]]]]; simpl.
    + now apply IH.
    + apply IH; [assumption|].
      eapply enhancer_state_step; eassumption.
Qed.
End EnhancerFacts.

Lemma option_map_Some {A B} (f : A -> B) (o : option A) (b : B) :
  option_map f o = Some b -> exists a, o = Some a /\ f a = b.
Proof.
  destruct o as [a|]; simpl; [|discriminate].
  intros [= <-]. now exists a.
Qed.

(** C5. On DataFrames with distinct column labels [semantic_pattern_match]
    does not raise. Every entry is either the one of the input Mapping or
    one written by the pattern pass: for these the replaced confidence was
    below 0.6, the new confidence is 0.6, the pattern of the template
    column is not 'text' and equals the pattern of the new source column.
    No confidence decreases, and a column given by the pattern pass is the
    source of no other template column, whether that one kept its entry or
    received a column in the same pass. *)
Theorem semantic_pattern_match_safe {P : Pandas}
    (raw_df template_df : DataFrame) (mappings : Mapping) :
  NoDup (columns raw_df) -> NoDup (columns template_df) ->
  exists M',
    semantic_pattern_match raw_df template_df mappings = Ok M' /\
    (forall t,
        dict_get str_dec M' t = dict_get str_dec mappings t \/
        pattern_assigned raw_df template_df mappings M' t) /\
    (forall t m0 c0,
        dict_get str_dec mappings t = Some (m0, c0) ->
        exists m1 c1, dict_get str_dec M' t = Some (m1, c1) /\ c0 <= c1) /\
    (forall t t' r c c',
        t <> t' ->
        pattern_assigned raw_df template_df mappings M' t ->
        dict_get str_dec M' t = Some (Some r, c) ->
        dict_get str_dec M' t' <> Some (Some r, c')).
Proof.
  intros Hraw Htem. unfold semantic_pattern_match.
  set (TP := patterns_of template_df). set (RP := patterns_of raw_df).
  set (U0 := filter (fun col => negb (mem col (mapped_raw_of mappings)))
                    (columns raw_df)).
  assert (HU0 : forall r, In r U0 ->
                  In r (columns raw_df) /\ ~ In r (mapped_raw_of mappings)).
  { intros r Hr. apply filter_In in Hr. destruct Hr as [Hr Hm].
    split; [assumption|]. apply negb_true_iff in Hm.
    intros Hin. apply mem_In in Hin. congruence. }
  assert (HRP : forall r, In r U0 -> dict_get str_dec RP r <> None).
  { intros r Hr. unfold RP. rewrite patterns_of_get by assumption.
    destruct (dict_get str_dec raw_df r) eqn:E; [discriminate|].
    exfalso. revert E. apply dict_get_keys. now apply HU0. }
  assert (Hinit : enhancer_state TP RP mappings U0 mappings U0).
  { constructor.
    - apply NoDup_filter. exact Hraw.
    - apply incl_refl.
    - intros t r c Hget Hin. apply (HU0 r Hin).
      eapply mapped_raw_In; eassumption.
    - now left.
    - intros; split; assumption. }
  destruct (enhance_state TP RP mappings U0 HRP (unmapped_template_of mappings)
              (fun r Hr => proj2 (HU0 r Hr))
              (unmapped_template_keys mappings) mappings U0 Hinit)
    as [E' [U' [Hen Hst]]].
  rewrite Hen. simpl. exists E'. split; [reflexivity|].
  assert (Hassigned : forall t,
            dict_get str_dec E' t = dict_get str_dec mappings t \/
            pattern_assigned raw_df template_df mappings E' t).
  { intros t.
    destruct (kept_or_assigned Hst t)
      as [H | [m0 [c0 [r [pat [Hm [Hc [HE [Hr [HTP [Hpat HRPr]]]]]]]]]]];
      [now left | right].
    unfold TP in HTP. rewrite patterns_of_get in HTP by assumption.
    unfold RP in HRPr. rewrite patterns_of_get in HRPr by assumption.
    apply option_map_Some in HTP. destruct HTP as [ts [Hts Hdts]].
    apply option_map_Some in HRPr. destruct HRPr as [rs [Hrs Hdrs]].
    exists m0, c0, r, ts, rs. repeat split; try assumption.
    - congruence.
    - congruence.
    - now apply HU0. }
  split; [exact Hassigned|]. split.
  - intros t m0 c0 Hm.
    destruct (Hassigned t) as [H | [m1 [c1 [r [ts [rs [Hm1 [Hc [HE _]]]]]]]]].
    + exists m0, c0. split; [congruence | lra].
    + exists (Some r), 0.6. split; [assumption|].
      rewrite Hm in Hm1. injection Hm1 as _ <-. lra.
  - intros t t' r c c' Hne [m0 [c0 [r0 [ts [rs [Hm [Hc [HE _]]]]]]]] Hg Hg'.
    destruct (shared_before Hst Hne Hg Hg') as [Hmt _].
    rewrite HE in Hg. injection Hg as _ <-.
    rewrite Hm in Hmt. injection Hmt as _ ->. lra.
Qed.

Lemma semantic_pattern_match_safe_witness :
  exists M',
    @semantic_pattern_match toy_pandas raw_df_ex template_df_ex mappings_ex = Ok M' /\
    forall t m0 c0,
      dict_get str_dec mappings_ex t = Some (m0, c0) ->
      exists m1 c1, dict_get str_dec M' t = Some (m1, c1) /\ c0 <= c1.
Proof.
  assert (Hraw : NoDup (columns raw_df_ex)).
  { repeat constructor; simpl; intuition discriminate. }
  assert (Htem : NoDup (columns template_df_ex)).
  { repeat constructor; simpl; intuition discriminate. }
  destruct (@semantic_pattern_match_safe toy_pandas raw_df_ex template_df_ex
              mappings_ex Hraw Htem) as [M' [HM [_ [H _]]]].
  exists M'. split; [exact HM | exact H].
Defined.

Example semantic_pattern_match_ex :
  @semantic_pattern_match toy_pandas raw_df_ex template_df_ex mappings_ex =
  Ok [ (py "Email", (Some (py "mail"), 0.95));
       (py "Start", (Some (py "when"), 0.6));
       (py "End", (Some (py "since"), 0.6));
       (py "Notes", (None, 0)) ].
Proof. vm_compute. reflexivity. Qed.

(** ** [_detect_value_contamination] *)

(** C6 fails on the code: the size of the sample is bounded by the length
    of the column with its nulls, and the draw is made among the non-null
    values. On a column of three cells, one of them null,
    [Series.sample(3)] is asked of two values and raises. *)
Theorem contamination_raises_on_null {P : Pandas} :
  _detect_value_contamination df_with_null 100 = Raise ValueError.
Proof. reflexivity. Qed.

Lemma dropna_no_null (series : Series) :
  Forall (fun v => v <> None) series ->
  List.length (dropna series) = List.length series.
Proof.
  induction 1 as [|[v|] series Hv _ IH]; simpl; congruence.
Qed.

Section ContaminationFacts.
Context {P : Pandas}.

Lemma collect_samples_no_null (len_df sample_size : nat) (cols : DataFrame) :
  no_null cols ->
  forall str_samples,
    exists S, collect_samples len_df sample_size cols str_samples = Ok S.
Proof.
  induction 1 as [|[col series] cols Hs _ IH]; intros str_samples; simpl.
  - eauto.
  - destruct (Qltb _ _); [apply IH|].
    unfold Series_sample. simpl in Hs.
    rewrite (dropna_no_null series Hs).
    destruct (Nat.ltb_spec (List.length series)
                (Nat.min sample_size (List.length series))) as [H | H]; [lia|].
    simpl. destruct (0 <? _)%nat; apply IH.
Qed.

Lemma compare_with_total (S : dict str (list str)) (col1 : str)
    (others : list str) :
  In col1 (keys S) -> incl others (keys S) ->
  forall contamination,
    exists rep, compare_with S col1 others contamination = Ok rep.
Proof.
  intros H1. induction others as [|col2 rest IH]; intros Hincl contamination;
    simpl.
  - eauto.
  - assert (H2 : In col2 (keys S)) by (apply Hincl; now left).
    assert (Hrest : incl rest (keys S)) by (intros x Hx; apply Hincl; now right).
    apply (dict_get_keys str_dec) in H1, H2. unfold dict_item.
    destruct (dict_get str_dec S col1) as [s1|]; [|congruence].
    destruct (dict_get str_dec S col2) as [s2|]; [|congruence].
    simpl. destruct (0 <? _)%nat; [|now apply IH].
    destruct (Qltb _ _); now apply IH.
Qed.

Lemma compare_all_total (S : dict str (list str)) (cols : list str) :
  incl cols (keys S) ->
  forall contamination,
    exists rep, compare_all S cols contamination = Ok rep.
Proof.
  induction cols as [|col1 rest IH]; intros Hincl contamination; simpl.
  - eauto.
  - assert (Hrest : incl rest (keys S)) by (intros x Hx; apply Hincl; now right).
    destruct (compare_with_total S col1 rest (Hincl col1 (or_introl eq_refl))
                Hrest contamination) as [rep ->].
    simpl. now apply IH.
Qed.

(** Without a null cell the detector returns a report. *)
Lemma contamination_no_null (df : DataFrame) (sample_size : nat) :
  no_null df -> exists rep, _detect_value_contamination df sample_size = Ok rep.
Proof.
  intros H. unfold _detect_value_contamination.
  destruct (collect_samples_no_null (nrows df) sample_size df H []) as [S ->].
  simpl. apply compare_all_total. apply incl_refl.
Qed.
End ContaminationFacts.

(** ** The review of the mappings *)

Lemma edited_entry_selected (confidence : Q) (selected : str) :
  selected <> NO_MATCH ->
  edited_entry confidence selected =
  (Some selected, if Qltb 0 confidence then confidence else 1).
Proof.
  intros H. unfold edited_entry.
  apply str_eqb_neq in H. now rewrite H.
Qed.

(** C7 fails on the code: the suggestion 'a' has confidence 0.9, the
    reviewer selects 'b', and the edited entry keeps 0.9. The confidence
    1.0 is written only when the entry under review has no positive
    confidence. *)
Theorem review_override_keeps_confidence :
  review true (fun _ _ => py "b") [ (py "Name", (Some (py "a"), 0.9)) ] [] =
  [ (py "Name", (Some (py "b"), 0.9)) ].
Proof. reflexivity. Qed.

(** ** [MetadataManager] *)

Lemma fold_set_In {K V} (K_dec : forall a b : K, {a = b} + {a <> b})
    (l : list (K * V)) :
  forall (d : dict K V) (k : K) (v : V),
    dict_get K_dec
      (fold_left (fun d kv => dict_set K_dec d (fst kv) (snd kv)) l d) k = Some v ->
    In (k, v) l \/ dict_get K_dec d k = Some v.
Proof.
  induction l as [|[k0 v0] l IH]; intros d k v H; simpl in *.
  - now right.
  - apply IH in H. destruct H as [H | H]; [left; now right|].
    rewrite dict_get_set in H.
    destruct (K_dec k k0) as [-> | Hne]; [|now right].
    injection H as <-. left. now left.
Qed.

Lemma scale_not_80 (c : Q) : 0 <= c <= 1 -> Qle_bool 80 c = false.
Proof.
  intros H. destruct (Qle_bool 80 c) eqn:E; [|reflexivity].
  apply Qle_bool_iff in E. lra.
Qed.

Lemma count_if_none {A} (f : A -> bool) (l : list A) :
  Forall (fun x => f x = false) l -> count_if f l = 0%nat.
Proof.
  unfold count_if. induction 1 as [|x l Hx _ IH]; simpl; [reflexivity|].
  now rewrite Hx.
Qed.

(** C10 (amended). With confidences in [0,1], [_serialize_mappings] labels
    every entry 'manual', and [_calculate_mapping_quality] reports
    [high_confidence_mappings = 0] for every Mapping that has an entry; for
    the empty Mapping the report has no such field. *)
Theorem metadata_scale_mismatch (mappings : Mapping) :
  unit_scale mappings ->
  (forall t e, dict_get str_dec (_serialize_mappings mappings) t = Some e ->
               mapping_type e = py "manual") /\
  (mappings <> [] ->
   dict_get str_dec (_calculate_mapping_quality mappings)
            (py "high_confidence_mappings") = Some 0) /\
  (mappings = [] ->
   _calculate_mapping_quality mappings =
   [ (py "overall_score", 0); (py "completeness", 0); (py "confidence", 0) ]).
Proof.
  intros Hscale. unfold unit_scale in Hscale. rewrite Forall_forall in Hscale.
  split; [|split].
  - intros t e H. unfold _serialize_mappings, dict_of in H.
    apply fold_set_In in H. destruct H as [H | H]; [|discriminate H].
    apply in_map_iff in H. destruct H as [[k [raw_col c]] [E Hin]].
    injection E as _ <-. simpl.
    rewrite (scale_not_80 c (Hscale _ Hin)), andb_false_r. reflexivity.
  - intros Hne. unfold _calculate_mapping_quality.
    destruct mappings as [|kv rest] eqn:Em; [congruence|].
    rewrite <- Em in *. replace (List.length mappings =? 0)%nat with false
      by (subst mappings; reflexivity).
    rewrite (count_if_none
               (fun kv : str * (option str * Q) =>
                  truthy_col (fst (snd kv)) && Qle_bool 80 (snd (snd kv)))
               mappings).
    + reflexivity.
    + apply Forall_forall. intros x Hx.
      rewrite (scale_not_80 _ (Hscale _ Hx)). apply andb_false_r.
  - intros ->. reflexivity.
Qed.

Lemma metadata_scale_mismatch_witness :
  dict_get str_dec (_calculate_mapping_quality mappings_ex)
           (py "high_confidence_mappings") = Some 0.
Proof.
  assert (H : unit_scale mappings_ex).
  { unfold unit_scale, mappings_ex.
    repeat constructor; simpl; unfold Qle; simpl; lia. }
  refine (proj1 (proj2 (metadata_scale_mismatch mappings_ex H)) _).
  discriminate.
Defined.

(** C10, as stated, fails on the empty Mapping: its quality report has the
    fields [overall_score], [completeness] and [confidence] only. *)
Lemma quality_of_empty_mapping :
  unit_scale [] /\
  dict_get str_dec (_calculate_mapping_quality [])
           (py "high_confidence_mappings") = None.
Proof.
  split; [constructor | reflexivity].
Qed.

(** ** [_calculate_uniqueness_scores] *)

Lemma fold_set_keys {K V} (K_dec : forall a b : K, {a = b} + {a <> b})
    (l : list (K * V)) :
  forall (d : dict K V) (k : K),
    In k (map fst l) \/ dict_get K_dec d k <> None ->
    dict_get K_dec
      (fold_left (fun d kv => dict_set K_dec d (fst kv) (snd kv)) l d) k <> None.
Proof.
  induction l as [|[k0 v0] l IH]; intros d k H; simpl in *.
  - destruct H as [[] | H]. exact H.
  - apply IH. destruct H as [[<- | H] | H].
    + right. rewrite dict_get_set. destruct (K_dec k0 k0); congruence.
    + now left.
    + right. rewrite dict_get_set. destruct (K_dec k k0); congruence.
Qed.

Lemma dict_of_keys {K V} (K_dec : forall a b : K, {a = b} + {a <> b})
    (l : list (K * V)) (k : K) :
  In k (map fst l) <-> dict_get K_dec (dict_of K_dec l) k <> None.
Proof.
  split.
  - intros H. apply fold_set_keys. now left.
  - intros H. destruct (dict_get K_dec (dict_of K_dec l) k) as [v|] eqn:E;
      [|congruence].
    apply fold_set_In in E. destruct E as [E | E]; [|discriminate E].
    apply in_map_iff. now exists (k, v).
Qed.

Lemma nodup_length (l : list str) :
  (List.length (nodup str_dec l) <= List.length l)%nat.
Proof.
  induction l as [|a l IH]; simpl; [lia|].
  destruct (in_dec str_dec a l); simpl; lia.
Qed.

Lemma nodup_length_eq (l : list str) :
  List.length (nodup str_dec l) = List.length l <-> NoDup l.
Proof.
  split.
  - induction l as [|a l IH]; simpl; intros H; [constructor|].
    pose proof (nodup_length l) as Hle.
    destruct (in_dec str_dec a l) as [Hin | Hin]; simpl in H; [lia|].
    constructor; [assumption | apply IH; lia].
  - intros H. now rewrite nodup_fixed_point.
Qed.

Lemma Qnat_div_range (a b : nat) :
  (a <= b)%nat -> (0 < b)%nat -> 0 <= Qnat a / Qnat b <= 1.
Proof.
  intros Hab Hb. pose proof (Qnat_pos Hb) as Hpos. split.
  - apply Qle_shift_div_l; [assumption|]. rewrite Qmult_0_l. apply Qnat_nonneg.
  - apply Qle_shift_div_r; [assumption|]. rewrite Qmult_1_l. now apply Qnat_le.
Qed.

Lemma Qnat_div_one (a b : nat) :
  (0 < b)%nat -> (Qnat a / Qnat b == 1 <-> a = b).
Proof.
  intros Hb. pose proof (Qnat_pos Hb) as Hpos. split.
  - intros H.
    assert (E : Qnat a == Qnat b).
    { rewrite <- (Qmult_1_l (Qnat b)), <- H. field. lra. }
    unfold Qnat, Qeq in E. simpl in E. lia.
  - intros ->. field. lra.
Qed.

Lemma uniqueness_of_range (series : Series) : 0 <= uniqueness_of series <= 1.
Proof.
  unfold uniqueness_of.
  destruct (Nat.ltb_spec 0 (List.length (dropna series))) as [H | H]; [|lra].
  apply Qnat_div_range; [apply nodup_length | assumption].
Qed.

Lemma uniqueness_of_one (series : Series) :
  uniqueness_of series == 1 <-> dropna series <> [] /\ NoDup (dropna series).
Proof.
  unfold uniqueness_of.
  destruct (Nat.ltb_spec 0 (List.length (dropna series))) as [H | H].
  - rewrite (Qnat_div_one _ _ H). unfold nunique. rewrite nodup_length_eq.
    split; [intros Hn; split; [|assumption] | tauto].
    intros E. rewrite E in H. simpl in H. lia.
  - split.
    + intros E. discriminate E.
    + intros [Hne _]. destruct (dropna series); [congruence | simpl in H; lia].
Qed.

(** X1. Every column gets a uniqueness score, and every score lies between
    0 and 1. With distinct column labels the score of a column is 0.0 when
    it has no non-null value, and it is 1 exactly when it has a non-null
    value and its non-null values are pairwise distinct. *)
Theorem uniqueness_scores_range (df : DataFrame) :
  (forall col,
      In col (columns df) <->
      exists q, dict_get str_dec (_calculate_uniqueness_scores df) col = Some q) /\
  (forall col q,
      dict_get str_dec (_calculate_uniqueness_scores df) col = Some q ->
      0 <= q <= 1) /\
  (NoDup (columns df) ->
   forall col series,
     dict_get str_dec df col = Some series ->
     exists q,
       dict_get str_dec (_calculate_uniqueness_scores df) col = Some q /\
       (dropna series = [] -> q = 0) /\
       (q == 1 <-> dropna series <> [] /\ NoDup (dropna series))).
Proof.
  change (_calculate_uniqueness_scores df)
    with (dict_of str_dec (map (fun cs => (fst cs, uniqueness_of (snd cs))) df)).
  split; [|split].
  - intros col. unfold columns, keys.
    replace (map fst df)
      with (map fst (map (fun cs : str * Series => (fst cs, uniqueness_of (snd cs))) df))
      by (rewrite map_map; reflexivity).
    rewrite (dict_of_keys str_dec). split.
    + intros H.
      destruct (dict_get str_dec
                  (dict_of str_dec
                     (map (fun cs : str * Series => (fst cs, uniqueness_of (snd cs))) df))
                  col) as [q|]; [eauto | exfalso; now apply H].
    + intros [q Hq]. rewrite Hq. discriminate.
  - intros col q H. apply fold_set_In in H. destruct H as [H | H]; [|discriminate H].
    apply in_map_iff in H. destruct H as [[c s] [[= _ <-] _]].
    apply uniqueness_of_range.
  - intros Hnd col series Hget.
    rewrite dict_of_NoDup by (rewrite map_map; exact Hnd).
    rewrite dict_get_map, Hget. simpl.
    exists (uniqueness_of series). split; [reflexivity|]. split.
    + intros E. unfold uniqueness_of. now rewrite E.
    + apply uniqueness_of_one.
Qed.

Lemma uniqueness_scores_range_witness :
  exists q,
    dict_get str_dec (_calculate_uniqueness_scores raw_df_ex) (py "when") = Some q /\
    (q == 1 <->
     dropna [Some (py "2024-01-02"); Some (py "2024-02-03")] <> [] /\
     NoDup (dropna [Some (py "2024-01-02"); Some (py "2024-02-03")])).
Proof.
  assert (Hraw : NoDup (columns raw_df_ex)).
  { repeat constructor; simpl; intuition discriminate. }
  destruct (proj2 (proj2 (uniqueness_scores_range raw_df_ex)) Hraw (py "when")
              [Some (py "2024-01-02"); Some (py "2024-02-03")] eq_refl)
    as [q [Hq [_ Hone]]].
  exists q. split; [exact Hq | exact Hone].
Defined.

(** ** [_calculate_mapping_quality] and [create_metadata] *)

Lemma Qsum_range (l : list Q) :
  Forall (fun x => 0 <= x <= 1) l -> 0 <= Qsum l <= Qnat (List.length l).
Proof.
  induction 1 as [|x l Hx _ IH]; simpl.
  - change (Qnat 0) with 0. lra.
  - fold (Qsum l). change (Qnat (S (List.length l))) with (Qnat (S (List.length l))).
    rewrite Qnat_S. lra.
Qed.

Lemma filter_length_impl {A} (f g : A -> bool) (l : list A) :
  (forall x, f x = true -> g x = true) ->
  (List.length (filter f l) <= List.length (filter g l))%nat.
Proof.
  intros H. induction l as [|x l IH]; simpl; [lia|].
  destruct (f x) eqn:Ef.
  - rewrite (H x Ef). simpl. lia.
  - destruct (g x); simpl; lia.
Qed.

Lemma truthy_col_not_None (col : option str) :
  truthy_col col = true -> is_not_None col = true.
Proof. destruct col as [[|? ?]|]; simpl; congruence. Qed.

(** X2. For a Mapping with at least one entry and confidences in [0,1], the
    quality report gives the same percentage, between 0 and 100, as
    [overall_score] and as [completeness], an [average_confidence] between
    0 and 1, and a number of successful mappings that does not exceed the
    number of mappings. *)
Theorem mapping_quality_ranges (mappings : Mapping) :
  unit_scale mappings -> mappings <> [] ->
  let report := _calculate_mapping_quality mappings in
  exists completeness average mapped,
    dict_get str_dec report (py "overall_score") = Some completeness /\
    dict_get str_dec report (py "completeness") = Some completeness /\
    0 <= completeness <= 100 /\
    dict_get str_dec report (py "average_confidence") = Some average /\
    0 <= average <= 1 /\
    dict_get str_dec report (py "total_mappings") =
      Some (Qnat (List.length mappings)) /\
    dict_get str_dec report (py "successful_mappings") = Some (Qnat mapped) /\
    (mapped <= List.length mappings)%nat.
Proof.
  intros Hscale Hne report. unfold report, _calculate_mapping_quality.
  assert (Hlen : (0 < List.length mappings)%nat).
  { destruct mappings; [congruence | simpl; lia]. }
  replace (List.length mappings =? 0)%nat with false
    by (symmetry; apply Nat.eqb_neq; lia).
  set (mapped := count_if (fun kv : str * (option str * Q) =>
                             is_not_None (fst (snd kv))) mappings).
  assert (Hmapped : (mapped <= List.length mappings)%nat)
    by apply filter_length_le.
  eexists. eexists. exists mapped.
  split; [reflexivity|]. split; [reflexivity|]. split.
  { pose proof (Qnat_div_range mapped (List.length mappings) Hmapped Hlen). lra. }
  split; [reflexivity|]. split.
  { destruct (Nat.ltb_spec 0 mapped) as [Hpos | Hpos]; [|lra].
    set (confs := map (fun kv : str * (option str * Q) => snd (snd kv))
                      (filter (fun kv => truthy_col (fst (snd kv))) mappings)).
    assert (Hconfs : Forall (fun x => 0 <= x <= 1) confs).
    { unfold confs. rewrite Forall_map. apply Forall_forall. intros kv Hkv.
      apply filter_In in Hkv. unfold unit_scale in Hscale.
      rewrite Forall_forall in Hscale. now apply Hscale. }
    pose proof (Qsum_range confs Hconfs) as Hsum.
    assert (Hcount : (List.length confs <= mapped)%nat).
    { unfold confs, mapped, count_if. rewrite length_map.
      apply filter_length_impl. intros kv. apply truthy_col_not_None. }
    pose proof (Qnat_le Hcount) as Hq.
    pose proof (Qnat_pos Hpos) as Hp.
    split.
    - apply Qle_shift_div_l; lra.
    - apply Qle_shift_div_r; lra. }
  split; [reflexivity|]. split; [reflexivity | assumption].
Qed.

Lemma mapping_quality_ranges_witness :
  exists completeness,
    dict_get str_dec (_calculate_mapping_quality mappings_ex) (py "completeness") =
      Some completeness /\
    0 <= completeness <= 100.
Proof.
  assert (H : unit_scale mappings_ex).
  { unfold unit_scale, mappings_ex.
    repeat constructor; simpl; unfold Qle; simpl; lia. }
  destruct (mapping_quality_ranges mappings_ex H ltac:(discriminate))
    as [c [a [m [_ [Hc [Hr _]]]]]].
  exists c. split; [exact Hc | exact Hr].
Defined.

(** X15. [create_metadata] counts every entry of the Mapping once: the
    mapped and the unmapped count add up to the number of entries, and the
    mapped count is the number of successful mappings of the quality
    report. *)
Theorem create_metadata_counts {H : Hashlib} {Stats : Type} (timestamp : str)
    (raw_columns template_columns : list str) (mappings : Mapping)
    (raw_stats template_stats : Stats) :
  exists mapped unmapped,
    column_info (create_metadata timestamp raw_columns template_columns mappings
                                 raw_stats template_stats) =
      Some (raw_columns, template_columns, mapped, unmapped) /\
    (mapped + unmapped = List.length mappings)%nat /\
    (mappings <> [] ->
     dict_get str_dec (_calculate_mapping_quality mappings)
              (py "successful_mappings") = Some (Qnat mapped)).
Proof.
  eexists. eexists. split; [reflexivity|]. split.
  - unfold count_if. induction mappings as [|kv l IH]; simpl; [reflexivity|].
    destruct (is_not_None (fst (snd kv))); simpl; lia.
  - intros Hne. unfold _calculate_mapping_quality.
    replace (List.length mappings =? 0)%nat with false; [reflexivity|].
    symmetry. apply Nat.eqb_neq. destruct mappings; [congruence | discriminate].
Qed.

Lemma create_metadata_counts_witness :
  exists mapped unmapped,
    column_info (@create_metadata toy_hash unit (py "2024-01-01T00:00:00")
                   raw_ex template_ex mappings_ex tt tt) =
      Some (raw_ex, template_ex, mapped, unmapped) /\
    (mapped + unmapped = List.length mappings_ex)%nat /\
    dict_get str_dec (_calculate_mapping_quality mappings_ex)
             (py "successful_mappings") = Some (Qnat mapped).
Proof.
  destruct (@create_metadata_counts toy_hash unit (py "2024-01-01T00:00:00")
              raw_ex template_ex mappings_ex tt tt)
    as [m [u [Hc [Hs Hq]]]].
  exists m, u. split; [exact Hc|]. split; [exact Hs|].
  apply Hq. discriminate.
Defined.

(** ** [_calculate_match_score] does not depend on the order of the names *)

Lemma words_NoDup (s : str) : NoDup (words s).
Proof. apply NoDup_nodup. Qed.

Lemma inter_In (s1 s2 : list str) (w : str) :
  In w (inter s1 s2) <-> In w s1 /\ In w s2.
Proof.
  unfold inter. rewrite filter_In, mem_In. reflexivity.
Qed.

Lemma inter_length_sym (s1 s2 : list str) :
  NoDup s1 -> NoDup s2 ->
  List.length (inter s1 s2) = List.length (inter s2 s1).
Proof.
  intros H1 H2. apply Permutation_length.
  apply NoDup_Permutation.
  - now apply NoDup_filter.
  - now apply NoDup_filter.
  - intros w. rewrite !inter_In. tauto.
Qed.

Lemma word_overlap_sym (s1 s2 : list str) :
  NoDup s1 -> NoDup s2 -> word_overlap s1 s2 = word_overlap s2 s1.
Proof.
  intros H1 H2. unfold word_overlap.
  now rewrite (inter_length_sym s1 s2 H1 H2), Nat.max_comm.
Qed.

Lemma smaller_in_larger_sym (s1 s2 : list str) :
  NoDup s1 -> NoDup s2 -> smaller_in_larger s1 s2 -> smaller_in_larger s2 s1.
Proof.
  intros H1 H2 [Hle Hlt]. split.
  - intros H.
    destruct (Nat.eq_dec (List.length s1) (List.length s2)) as [E | E].
    + apply NoDup_length_incl; [assumption | lia | apply Hle; lia].
    + apply Hlt. lia.
  - intros H. apply Hle. lia.
Qed.

Lemma same_group_sym (a b : str) : same_group a b -> same_group b a.
Proof. intros [g [Hg [Ha Hb]]]. exists g. tauto. Qed.

Section Symmetry.
Context {F : Rapidfuzz} (Sym : RapidfuzzSymmetric F).

Lemma token_average_sym (a b : str) : token_average a b = token_average b a.
Proof.
  unfold token_average. now rewrite (token_sort_sym a b), (token_set_sym a b).
Qed.

Lemma cascade_sym (a b : str) (x : Q) : cascade a b x -> cascade b a x.
Proof.
  assert (Hsub : smaller_in_larger (words b) (words a) ->
                 smaller_in_larger (words a) (words b)).
  { apply smaller_in_larger_sym; apply words_NoDup. }
  assert (Hgrp : same_group b a -> same_group a b) by apply same_group_sym.
  assert (Hov : word_overlap (words a) (words b) = word_overlap (words b) (words a)).
  { apply word_overlap_sym; apply words_NoDup. }
  assert (Hav : token_average a b = token_average b a)
    by apply token_average_sym.
  intros H. destruct H.
  - now apply rule_exact.
  - apply rule_synonym; [congruence | now apply same_group_sym].
  - apply rule_no_words; [congruence | tauto | tauto].
  - apply rule_subset; try tauto; try congruence.
    apply smaller_in_larger_sym; auto using words_NoDup.
  - rewrite Hov. apply rule_overlap; try tauto; congruence.
  - rewrite Hav. apply rule_fuzzy; try tauto; congruence.
  - apply rule_no_match; try tauto; congruence.
Qed.
End Symmetry.

(** X3. When the two token ratios are symmetric, so is the score: a
    template name scored against a raw name gives what the raw name scored
    against the template name gives. *)
Theorem calculate_match_score_symmetric
    {F : Rapidfuzz} (Sym : RapidfuzzSymmetric F) (a b : str) :
  _calculate_match_score a b = _calculate_match_score b a.
Proof.
  eapply cascade_functional.
  - apply score_cascade.
  - apply (cascade_sym Sym). apply score_cascade.
Qed.

Lemma exact_ratio_symmetric : RapidfuzzSymmetric exact_ratio.
Proof.
  split; intros a b; simpl; unfold str_eqb;
    destruct (str_dec a b), (str_dec b a); congruence.
Qed.

Lemma calculate_match_score_symmetric_witness :
  @_calculate_match_score exact_ratio (py "Zip Code") (py "CODE (zip)") =
  @_calculate_match_score exact_ratio (py "CODE (zip)") (py "Zip Code").
Proof.
  exact (calculate_match_score_symmetric exact_ratio_symmetric
           (py "Zip Code") (py "CODE (zip)")).
Defined.

(** ** The Mapping of [fuzzy_match_headers]: keys and entries *)

Lemma dict_set_keys_present {K V} (K_dec : forall a b : K, {a = b} + {a <> b})
    (d : dict K V) (k : K) (v : V) :
  dict_get K_dec d k <> None -> keys (dict_set K_dec d k v) = keys d.
Proof.
  induction d as [|[k0 v0] d IH]; simpl; intros H; [congruence|].
  destruct (K_dec k k0) as [-> | Hne]; simpl; [reflexivity|].
  f_equal. now apply IH.
Qed.

Lemma build_mappings_keys {F : Rapidfuzz} (thr : Z) (cm : list (list Q))
    (raw : list str) (rows cols : list nat) (columns : list str) :
  forall (i0 : nat) (mappings M : Mapping),
    build_mappings thr cm raw rows cols i0 columns mappings = Ok M ->
    NoDup (keys mappings ++ columns) ->
    keys M = keys mappings ++ columns.
Proof.
  induction columns as [|c rest IH]; intros i0 mappings M HM Hnd; simpl in HM.
  - injection HM as <-. now rewrite app_nil_r.
  - destruct (assign_row thr cm raw rows cols i0) as [v|e]; simpl in HM;
      [|discriminate HM].
    assert (Hfresh : ~ In c (keys mappings)).
    { apply NoDup_remove_2 in Hnd. intros H. apply Hnd. apply in_or_app. now left. }
    apply IH in HM.
    + rewrite HM. rewrite (dict_set_fresh str_dec mappings c v Hfresh).
      unfold keys. rewrite map_app. simpl. now rewrite <- app_assoc.
    + rewrite (dict_set_fresh str_dec mappings c v Hfresh).
      unfold keys in *. rewrite map_app. simpl. now rewrite <- app_assoc.
Qed.

Lemma name_pass_keys {F : Rapidfuzz} {Sci : Scipy}
    (similarity_threshold : Z) (raw_columns template_columns : list str)
    (M : Mapping) :
  NoDup template_columns ->
  fuzzy_match_headers similarity_threshold raw_columns template_columns = Ok M ->
  keys M = template_columns.
Proof.
  intros Hnd HM. unfold fuzzy_match_headers in HM.
  destruct (is_empty raw_columns || is_empty template_columns).
  - injection HM as <-. rewrite dict_of_NoDup.
    + unfold keys. rewrite map_map. simpl. apply map_id.
    + rewrite map_map. simpl. now rewrite map_id.
  - destruct (linear_sum_assignment (cost_matrix_of template_columns raw_columns))
      as [rows cols].
    apply build_mappings_keys in HM; [exact HM | exact Hnd].
Qed.

(** X4. Every entry of the Mapping belongs to a template column and is
    either [(None, 0.0)] or a raw column name with a confidence between
    [threshold/100] and 1. When the template names are pairwise distinct,
    the Mapping lists exactly the template columns, in their order. *)
Theorem fuzzy_match_headers_entries {F : Rapidfuzz} {Sci : Scipy}
    (R : RapidfuzzRange F) (L : LinearSumAssignment Sci)
    (similarity_threshold : Z) (raw_columns template_columns : list str)
    (M : Mapping) :
  fuzzy_match_headers similarity_threshold raw_columns template_columns = Ok M ->
  (forall t src c,
      dict_get str_dec M t = Some (src, c) ->
      In t template_columns /\
      ((src = None /\ c = 0) \/
       exists r, src = Some r /\ In r raw_columns /\
                 inject_Z similarity_threshold / 100 <= c <= 1)) /\
  (NoDup template_columns -> keys M = template_columns).
Proof.
  intros HM. split; [|intros Hnd; eapply name_pass_keys; eassumption].
  intros t src c Hget.
  assert (Hcases : (raw_columns = [] \/ template_columns = []) \/
                   (raw_columns <> [] /\ template_columns <> [])).
  { destruct raw_columns; [left; now left|].
    destruct template_columns; [left; now right|].
    right. split; discriminate. }
  destruct Hcases as [Hempty | [Hr Ht]].
  - destruct (fuzzy_match_headers_empty (F := F) (Sci := Sci)
                similarity_threshold raw_columns template_columns Hempty)
      as [M' [HM' Hget']].
    rewrite HM in HM'. injection HM' as <-.
    rewrite Hget' in Hget.
    destruct (mem t template_columns) eqn:Em; [|discriminate Hget].
    injection Hget as <- <-. split; [now apply mem_In | now left].
  - destruct (fuzzy_match_headers_rows (L := L) similarity_threshold
                raw_columns template_columns Hr Ht) as [M' [HM' Hspec]].
    rewrite HM in HM'. injection HM' as <-.
    destruct (Hspec t)
      as [[i [[Hi _] [[j [r [Hij [Hj Hg]]]] | [_ Hg]]]] | [_ Hg]];
      rewrite Hg in Hget; [| |discriminate Hget].
    + split; [eapply nth_error_In; eassumption|].
      injection Hget as Hacc. unfold accept in Hacc.
      destruct (Qle_bool (inject_Z similarity_threshold)
                  (100 - (100 - _calculate_match_score t r))) eqn:E.
      * injection Hacc as <- <-. right. exists r.
        split; [reflexivity|]. split; [eapply nth_error_In; eassumption|].
        apply Qle_bool_iff in E.
        pose proof (score_range (R := R) t r) as Hrange.
        split.
        -- apply Qle_shift_div_l; [lra|].
           unfold Qdiv. rewrite <- Qmult_assoc.
           setoid_replace (/ 100 * 100) with 1 by reflexivity. lra.
        -- apply Qle_shift_div_r; lra.
      * injection Hacc as <- <-. now left.
    + split; [eapply nth_error_In; eassumption|].
      injection Hget as <- <-. now left.
Qed.

Lemma fuzzy_match_headers_entries_witness :
  let M := [ (py "E-mail", (Some (py "email"), 1.00)); (py "Name", (@None str, 0)) ] in
  (forall t src c,
      dict_get str_dec M t = Some (src, c) ->
      In t template_ex /\
      ((src = None /\ c = 0) \/
       exists r, src = Some r /\ In r raw_ex /\ inject_Z 70 / 100 <= c <= 1)) /\
  keys M = template_ex.
Proof.
  intros M.
  assert (HM : @fuzzy_match_headers exact_ratio exhaustive 70 raw_ex template_ex = Ok M)
    by (vm_compute; reflexivity).
  assert (Hnd : NoDup template_ex)
    by (repeat constructor; simpl; intuition discriminate).
  destruct (@fuzzy_match_headers_entries exact_ratio exhaustive exact_ratio_range
              Exhaustive.meets_contract 70 raw_ex template_ex M HM) as [H1 H2].
  exact (conj H1 (H2 Hnd)).
Defined.

(** ** Binary64 arithmetic *)

Lemma pow2_pos (e : Z) : 0 < pow2 e.
Proof. apply Qpower_0_lt. reflexivity. Qed.

Lemma pow2_plus (a b : Z) : pow2 (a + b) == pow2 a * pow2 b.
Proof. apply Qpower_plus. discriminate. Qed.

Lemma pow2_le (a b : Z) : (a <= b)%Z -> pow2 a <= pow2 b.
Proof. intros H. apply Qpower_le_compat_l; [assumption | discriminate]. Qed.

Lemma pow2_lt_inv (a b : Z) : pow2 a < pow2 b -> (a < b)%Z.
Proof. intros H. eapply Qpower_lt_compat_l_inv; [eassumption | reflexivity]. Qed.

Lemma pow2_nonneg_Z (a : Z) : (0 <= a)%Z -> pow2 a == inject_Z (2 ^ a).
Proof. intros H. unfold pow2. now rewrite Zpower_Qpower. Qed.

Lemma Zlog2_bounds (n : Z) : (0 < n)%Z ->
  pow2 (Z.log2 n) <= inject_Z n /\ inject_Z n < pow2 (Z.log2 n + 1).
Proof.
  intros Hn. destruct (Z.log2_spec n Hn) as [H1 H2].
  pose proof (Z.log2_nonneg n) as H0.
  rewrite !pow2_nonneg_Z by lia. split.
  - rewrite <- Zle_Qle. exact H1.
  - rewrite <- Zlt_Qlt. replace (Z.log2 n + 1)%Z with (Z.succ (Z.log2 n)) by lia.
    exact H2.
Qed.

Lemma ilog2_spec (q : Q) : 0 < q ->
  pow2 (ilog2 q) <= q /\ q < pow2 (ilog2 q + 1).
Proof.
  intros Hq. unfold ilog2.
  set (n := Qnum q). set (d := Zpos (Qden q)).
  assert (Hn : (0 < n)%Z).
  { unfold Qlt in Hq. simpl in Hq. unfold n. lia. }
  assert (Hd : (0 < d)%Z) by reflexivity.
  destruct (Zlog2_bounds n Hn) as [N1 N2].
  destruct (Zlog2_bounds d Hd) as [D1 D2].
  set (a := Z.log2 n) in *. set (b := Z.log2 d) in *.
  assert (Eq : q == inject_Z n / inject_Z d).
  { unfold n, d. rewrite <- Qmake_Qdiv. destruct q; reflexivity. }
  assert (Hdq : 0 < inject_Z d) by (rewrite <- (Zlt_Qlt 0); exact Hd).
  assert (Hup : q < pow2 (a - b + 1)).
  { rewrite Eq. apply Qlt_shift_div_r; [assumption|].
    eapply Qlt_le_trans; [exact N2|].
    replace (a + 1)%Z with ((a - b + 1) + b)%Z by lia.
    rewrite pow2_plus. apply Qmult_le_l; [apply pow2_pos | exact D1]. }
  assert (Hlo : pow2 (a - b - 1) <= q).
  { rewrite Eq. apply Qle_shift_div_l; [assumption|].
    eapply Qle_trans; [|exact N1].
    replace a with ((a - b - 1) + (b + 1))%Z at 2 by lia.
    rewrite pow2_plus. apply Qmult_le_l; [apply pow2_pos | apply Qlt_le_weak; exact D2]. }
  destruct (Qle_bool (pow2 (a - b)) q) eqn:E.
  - apply Qle_bool_iff in E. split; assumption.
  - assert (Hlt : q < pow2 (a - b)).
    { apply Qnot_le_lt. intros H. apply Qle_bool_iff in H. congruence. }
    split; [assumption|]. replace (a - b - 1 + 1)%Z with (a - b)%Z by lia.
    assumption.
Qed.

Lemma ilog2_mono (p q : Q) : 0 < p -> p <= q -> (ilog2 p <= ilog2 q)%Z.
Proof.
  intros Hp Hpq.
  destruct (ilog2_spec p Hp) as [P1 _].
  destruct (ilog2_spec q (Qlt_le_trans _ _ _ Hp Hpq)) as [_ Q2].
  assert (H : pow2 (ilog2 p) < pow2 (ilog2 q + 1)).
  { eapply Qle_lt_trans; [exact P1|]. eapply Qle_lt_trans; eassumption. }
  apply pow2_lt_inv in H. lia.
Qed.

Lemma round_half_even_cases (q : Q) :
  round_half_even q = Qfloor q \/ round_half_even q = (Qfloor q + 1)%Z.
Proof.
  unfold round_half_even.
  destruct (Qcompare _ _); [destruct (Z.even _)|..]; auto.
Qed.

Lemma round_half_even_ge (q : Q) (z : Z) :
  inject_Z z <= q -> (z <= round_half_even q)%Z.
Proof.
  intros H. apply Qfloor_resp_le in H. rewrite Qfloor_Z in H.
  destruct (round_half_even_cases q) as [-> | ->]; lia.
Qed.

Lemma round_half_even_le (q : Q) (z : Z) :
  q <= inject_Z z -> (round_half_even q <= z)%Z.
Proof.
  intros H.
  destruct (Qlt_le_dec q (inject_Z z)) as [Hlt | Hge].
  - assert (Hf : (Qfloor q < z)%Z).
    { apply Z.lt_nge. intros Hz. apply (Qlt_not_le _ _ Hlt).
      eapply Qle_trans; [|apply Qfloor_le]. rewrite <- Zle_Qle. exact Hz. }
    destruct (round_half_even_cases q) as [-> | ->]; lia.
  - assert (E : q == inject_Z z) by (apply Qle_antisym; assumption).
    unfold round_half_even.
    assert (Ef : Qfloor q = z) by (rewrite E; apply Qfloor_Z).
    rewrite Ef.
    assert (Ec : Qcompare (q - inject_Z z) (1 # 2) = Lt).
    { apply (proj1 (Qlt_alt _ _)). revert E. generalize (inject_Z z). intros y E. lra. }
    rewrite Ec. lia.
Qed.

Lemma round_half_even_mono (p q : Q) :
  p <= q -> (round_half_even p <= round_half_even q)%Z.
Proof.
  intros H.
  pose proof (Qfloor_resp_le _ _ H) as Hf.
  destruct (Z.eq_dec (Qfloor p) (Qfloor q)) as [E | E].
  - unfold round_half_even. rewrite E.
    destruct (Qcompare (p - inject_Z (Qfloor q)) (1 # 2)) eqn:Cp;
      destruct (Qcompare (q - inject_Z (Qfloor q)) (1 # 2)) eqn:Cq;
      try (destruct (Z.even (Qfloor q))); try lia;
      exfalso;
      try apply (proj2 (Qeq_alt _ _)) in Cp; try apply (proj2 (Qlt_alt _ _)) in Cp;
      try apply (proj2 (Qgt_alt _ _)) in Cp;
      try apply (proj2 (Qeq_alt _ _)) in Cq; try apply (proj2 (Qlt_alt _ _)) in Cq;
      try apply (proj2 (Qgt_alt _ _)) in Cq;
      revert Cp Cq H; generalize (inject_Z (Qfloor q)); intros; lra.
  - assert (Hlt : (Qfloor p + 1 <= Qfloor q)%Z) by lia.
    destruct (round_half_even_cases p) as [-> | ->];
      destruct (round_half_even_cases q) as [-> | ->]; lia.
Qed.

Lemma scaled_range (q : Q) : 0 < q ->
  let e := (ilog2 q - 52)%Z in
  pow2 52 <= q / pow2 e /\ q / pow2 e <= pow2 53.
Proof.
  intros Hq e. destruct (ilog2_spec q Hq) as [H1 H2].
  pose proof (pow2_pos e) as He.
  split.
  - apply Qle_shift_div_l; [assumption|].
    rewrite <- pow2_plus. unfold e.
    replace (52 + (ilog2 q - 52))%Z with (ilog2 q) by lia. assumption.
  - apply Qle_shift_div_r; [assumption|].
    rewrite <- pow2_plus. unfold e.
    replace (53 + (ilog2 q - 52))%Z with (ilog2 q + 1)%Z by lia.
    apply Qlt_le_weak. assumption.
Qed.

Lemma round64_pos_mono (p q : Q) :
  0 < p -> p <= q -> round64_pos p <= round64_pos q.
Proof.
  intros Hp Hpq.
  assert (Hq : 0 < q) by (eapply Qlt_le_trans; eassumption).
  pose proof (ilog2_mono p q Hp Hpq) as He.
  unfold round64_pos.
  set (ep := (ilog2 p - 52)%Z). set (eq := (ilog2 q - 52)%Z).
  destruct (scaled_range p Hp) as [_ P2]. fold ep in P2.
  destruct (scaled_range q Hq) as [Q1 _]. fold eq in Q1.
  destruct (Z.eq_dec (ilog2 p) (ilog2 q)) as [E | E].
  - assert (Eep : ep = eq) by (unfold ep, eq; lia). rewrite Eep.
    apply Qmult_le_compat_r; [|apply Qlt_le_weak, pow2_pos].
    rewrite <- Zle_Qle. apply round_half_even_mono.
    apply Qmult_le_compat_r; [assumption|].
    apply Qlt_le_weak, Qinv_lt_0_compat, pow2_pos.
  - assert (H53 : (round_half_even (p / pow2 ep) <= 2 ^ 53)%Z).
    { apply round_half_even_le. rewrite <- (pow2_nonneg_Z 53) by lia. exact P2. }
    assert (H52 : (2 ^ 52 <= round_half_even (q / pow2 eq))%Z).
    { apply round_half_even_ge. rewrite <- (pow2_nonneg_Z 52) by lia. exact Q1. }
    apply Qle_trans with (pow2 53 * pow2 ep).
    { apply Qmult_le_compat_r; [|apply Qlt_le_weak, pow2_pos].
      rewrite (pow2_nonneg_Z 53) by lia. rewrite <- Zle_Qle. exact H53. }
    apply Qle_trans with (pow2 52 * pow2 eq).
    { rewrite <- !pow2_plus. apply pow2_le. unfold ep, eq. lia. }
    apply Qmult_le_compat_r; [|apply Qlt_le_weak, pow2_pos].
    rewrite (pow2_nonneg_Z 52) by lia. rewrite <- Zle_Qle. exact H52.
Qed.

Lemma round64_of_pos (q : Q) : 0 < q -> round64 q = round64_pos q.
Proof.
  intros H. unfold round64.
  assert (E : Qcompare q 0 = Gt) by (now apply (proj1 (Qgt_alt _ _))).
  now rewrite E.
Qed.

(** Rounding does not cross a number that it leaves unchanged. *)
Lemma round64_le (q b : Q) :
  0 < q -> q <= b -> round64 b == b -> round64 q <= b.
Proof.
  intros Hq Hqb Hb. rewrite <- Hb.
  rewrite !round64_of_pos by (try assumption; eapply Qlt_le_trans; eassumption).
  now apply round64_pos_mono.
Qed.

Lemma round64_ge (q b : Q) :
  0 < b -> b <= q -> round64 b == b -> b <= round64 q.
Proof.
  intros Hb Hbq Eb. rewrite <- Eb.
  rewrite !round64_of_pos by (try assumption; eapply Qlt_le_trans; eassumption).
  now apply round64_pos_mono.
Qed.

Lemma int_of_float_floor (x : Q) : 0 <= x -> int_of_float x = Qfloor x.
Proof.
  intros H. unfold int_of_float, Qfloor. destruct x as [n d]. simpl.
  apply Z.quot_div_nonneg; [|reflexivity].
  unfold Qle in H. simpl in H. lia.
Qed.

Lemma float_percentage (k m : nat) :
  (0 < k <= m)%nat ->
  round64 0.1 < true_divide k m ->
  (10 <= int_of_float (float_mul (true_divide k m) 100) <= 100)%Z.
Proof.
  intros Hkm Hov.
  assert (Hq : 0 < Qnat k / Qnat m).
  { apply Qlt_shift_div_l.
    - unfold Qnat. rewrite <- (Zlt_Qlt 0). lia.
    - rewrite Qmult_0_l. unfold Qnat. rewrite <- (Zlt_Qlt 0). lia. }
  assert (Hq1 : Qnat k / Qnat m <= 1).
  { apply Qle_shift_div_r.
    - unfold Qnat. rewrite <- (Zlt_Qlt 0). lia.
    - rewrite Qmult_1_l. unfold Qnat. rewrite <- Zle_Qle. lia. }
  assert (Hx1 : true_divide k m <= 1).
  { apply round64_le; [assumption..|]. vm_compute. reflexivity. }
  assert (Hx0 : 1 # 10 < true_divide k m).
  { eapply Qlt_trans; [|exact Hov]. vm_compute. reflexivity. }
  set (x := true_divide k m) in *.
  assert (Hlo : 10 <= float_mul x 100).
  { apply round64_ge; [reflexivity | lra |]. vm_compute. reflexivity. }
  assert (Hhi : float_mul x 100 <= 100).
  { apply round64_le; [lra | lra |]. vm_compute. reflexivity. }
  rewrite int_of_float_floor by lra.
  apply Qfloor_resp_le in Hlo, Hhi.
  change (Qfloor 10) with 10%Z in Hlo. change (Qfloor 100) with 100%Z in Hhi.
  split; assumption.
Qed.

(** On the sizes that the default [sample_size] of 100 allows, the
    quotient and the percentage are those of the Standard Library's
    binary64 division and multiplication. *)
Lemma round64_agrees_with_binary64 :
  forallb (fun m => forallb (fun k => agrees_with_binary64 k m) (seq 0 (S m)))
          (seq 1 100) = true.
Proof. vm_compute. reflexivity. Qed.

(** The source's [int(overlap_pct*100)] is not the integer part of the
    exact percentage: 29 values out of 50 are reported as 57%. *)
Example percentage_29_of_50 :
  int_of_float (float_mul (true_divide 29 50) 100) = 57%Z /\
  Qfloor (Qnat 29 / Qnat 50 * 100) = 58%Z.
Proof. split; vm_compute; reflexivity. Qed.

Lemma Qltb_floor (y : Q) (u : nat) :
  Qltb y (Qnat u) = true <-> (Qfloor y < Z.of_nat u)%Z.
Proof.
  rewrite Qltb_lt. unfold Qnat. split.
  - intros H. rewrite Zlt_Qlt. eapply Qle_lt_trans; [apply Qfloor_le | exact H].
  - intros H. eapply Qlt_le_trans; [apply Qlt_floor|].
    rewrite <- Zle_Qle. lia.
Qed.

Lemma same_skip_test_upto : forallb same_skip_test (seq 0 4001) = true.
Proof. vm_compute. reflexivity. Qed.

(** The test [df[col].nunique() > len(df) * 0.9] is written with the exact
    product in [collect_samples]; up to 4000 rows the binary64 product
    gives the same answer for every count. *)
Lemma skip_test_in_binary64 (len_df unique : nat) :
  (len_df <= 4000)%nat ->
  Qltb (float_mul (Qnat len_df) (round64 0.9)) (Qnat unique) =
  Qltb (Qnat len_df * 0.9) (Qnat unique).
Proof.
  intros Hn.
  pose proof same_skip_test_upto as H. rewrite forallb_forall in H.
  specialize (H len_df ltac:(apply in_seq; lia)).
  unfold same_skip_test in H. apply Z.eqb_eq in H.
  apply eq_true_iff_eq. rewrite !Qltb_floor, H. reflexivity.
Qed.

(** ** [semantic_pattern_match] keeps the template columns *)

Section EnhancerKeys.
Context {P : Pandas}.

Lemma scan_keys (RP : dict str pattern) (template_col : str) (pat : pattern)
    (E : Mapping) (U : list str) :
  forall (rest : list str) (i : nat) (E' : Mapping) (U' : list str),
    scan RP template_col pat i rest E U = Ok (E', U') -> keys E' = keys E.
Proof.
  induction rest as [|raw_col rest IH]; intros i E' U' H; simpl in H.
  - now injection H as <- _.
  - unfold dict_item in H.
    destruct (dict_get str_dec RP raw_col) as [raw_pattern|]; simpl in H;
      [|discriminate H].
    destruct (pattern_eqb pat raw_pattern); [|now apply IH in H].
    destruct (dict_get str_dec E template_col) as [current|] eqn:EE; simpl in H;
      [|discriminate H].
    destruct (Qltb (snd current) 0.6); [|now apply IH in H].
    injection H as <- _. apply dict_set_keys_present. congruence.
Qed.

Lemma enhance_keys (TP RP : dict str pattern) (unmapped_template : list str) :
  forall (E : Mapping) (U : list str) (E' : Mapping) (U' : list str),
    enhance TP RP unmapped_template E U = Ok (E', U') -> keys E' = keys E.
Proof.
  induction unmapped_template as [|t0 rest IH]; intros E U E' U' H; simpl in H.
  - now injection H as <- _.
  - destruct (dict_get str_dec TP t0) as [pat|]; [|now apply IH in H].
    destruct (pattern_eqb pat text); [now apply IH in H|].
    destruct (scan RP t0 pat 0 U E U) as [[E1 U1]|e] eqn:Es; simpl in H;
      [|discriminate H].
    apply IH in H. apply scan_keys in Es. congruence.
Qed.
End EnhancerKeys.

(** X5. The pattern pass neither adds, nor removes, nor reorders template
    columns: the Mapping it returns has the keys of the Mapping it is
    given, in the same order. *)
Theorem semantic_pattern_match_keys {P : Pandas}
    (raw_df template_df : DataFrame) (mappings M' : Mapping) :
  semantic_pattern_match raw_df template_df mappings = Ok M' ->
  keys M' = keys mappings.
Proof.
  unfold semantic_pattern_match. intros H.
  destruct (enhance (patterns_of template_df) (patterns_of raw_df)
              (unmapped_template_of mappings) mappings
              (filter (fun col => negb (mem col (mapped_raw_of mappings)))
                      (columns raw_df)))
    as [[E U]|e] eqn:Een; simpl in H; [|discriminate H].
  injection H as <-. eapply enhance_keys. eassumption.
Qed.

Lemma semantic_pattern_match_keys_witness :
  keys [ (py "Email", (Some (py "mail"), 0.95));
         (py "Start", (Some (py "when"), 0.6));
         (py "End", (Some (py "since"), 0.6));
         (py "Notes", (@None str, 0)) ] = keys mappings_ex.
Proof.
  apply (@semantic_pattern_match_keys toy_pandas raw_df_ex template_df_ex).
  vm_compute. reflexivity.
Defined.

(** ** The auto-mapping of [app.py] *)

Section Pipeline.
Context {F : Rapidfuzz} {Sci : Scipy} {P : Pandas}.
Context (L : LinearSumAssignment Sci).
Variable similarity_threshold : Z.

Lemma name_pass_sources (raw_columns template_columns : list str) :
  exists M,
    fuzzy_match_headers similarity_threshold raw_columns template_columns = Ok M /\
    forall t s c,
      dict_get str_dec M t = Some (Some s, c) ->
      exists i j,
        nth_error template_columns i = Some t /\
        In (i, j) (assignment raw_columns template_columns) /\
        nth_error raw_columns j = Some s.
Proof.
  destruct (gate_on_rows L similarity_threshold raw_columns template_columns)
    as [M [HM _]].
  exists M. split; [exact HM|].
  assert (Hcases : (raw_columns = [] \/ template_columns = []) \/
                   (raw_columns <> [] /\ template_columns <> [])).
  { destruct raw_columns; [left; now left|].
    destruct template_columns; [left; now right|].
    right. split; discriminate. }
  destruct Hcases as [Hempty | [Hr Ht]].
  - destruct (fuzzy_match_headers_empty (F := F) (Sci := Sci)
                similarity_threshold raw_columns template_columns Hempty)
      as [M' [HM' Hget]].
    rewrite HM in HM'. injection HM' as <-.
    intros t s c H. rewrite Hget in H.
    destruct (mem t template_columns); discriminate H.
  - destruct (fuzzy_match_headers_rows (L := L) similarity_threshold
                raw_columns template_columns Hr Ht) as [M' [HM' Hspec]].
    rewrite HM in HM'. injection HM' as <-.
    apply (mapped_entry_row similarity_threshold raw_columns template_columns M Hspec).
Qed.

Lemma name_pass_one_to_one (raw_columns template_columns : list str) :
  NoDup raw_columns ->
  exists M,
    fuzzy_match_headers similarity_threshold raw_columns template_columns = Ok M /\
    mapping_one_to_one M /\
    forall t s c, dict_get str_dec M t = Some (Some s, c) -> In s raw_columns.
Proof.
  intros Hnd.
  destruct (name_pass_sources raw_columns template_columns) as [M [HM Hsrc]].
  exists M. split; [exact HM|]. split.
  - intros t1 t2 s1 s2 c1 c2 Hne H1 H2 Hs. subst s2.
    destruct (Hsrc _ _ _ H1) as [i1 [j1 [Hi1 [Hp1 Hr1]]]].
    destruct (Hsrc _ _ _ H2) as [i2 [j2 [Hi2 [Hp2 Hr2]]]].
    assert (Hj : j1 = j2).
    { rewrite NoDup_nth_error in Hnd. apply Hnd; [|congruence].
      apply nth_error_Some. congruence. }
    subst j2.
    assert (Hi : i1 = i2).
    { eapply one_to_one_col;
        [apply (assignment_one_to_one (L := L)) | eassumption..]. }
    congruence.
  - intros t s c H. destruct (Hsrc _ _ _ H) as [i [j [_ [_ Hj]]]].
    eapply nth_error_In; eassumption.
Qed.

Lemma pattern_pass_state (raw_df template_df : DataFrame) (mappings : Mapping) :
  NoDup (columns raw_df) ->
  let U0 := filter (fun col => negb (mem col (mapped_raw_of mappings)))
                   (columns raw_df) in
  exists M' U',
    semantic_pattern_match raw_df template_df mappings = Ok M' /\
    keys M' = keys mappings /\
    enhancer_state (patterns_of template_df) (patterns_of raw_df)
                   mappings U0 M' U'.
Proof.
  intros Hraw U0. unfold semantic_pattern_match.
  assert (HU0 : forall r, In r U0 ->
                  In r (columns raw_df) /\ ~ In r (mapped_raw_of mappings)).
  { intros r Hr. apply filter_In in Hr. destruct Hr as [Hr Hm].
    split; [assumption|]. apply negb_true_iff in Hm.
    intros Hin. apply mem_In in Hin. congruence. }
  assert (HRP : forall r, In r U0 ->
                  dict_get str_dec (patterns_of raw_df) r <> None).
  { intros r Hr. rewrite patterns_of_get by assumption.
    destruct (dict_get str_dec raw_df r) eqn:E; [discriminate|].
    exfalso. revert E. apply dict_get_keys. now apply HU0. }
  assert (Hinit : enhancer_state (patterns_of template_df) (patterns_of raw_df)
                                 mappings U0 mappings U0).
  { constructor.
    - apply NoDup_filter. exact Hraw.
    - apply incl_refl.
    - intros t r c Hget Hin. apply (HU0 r Hin).
      eapply mapped_raw_In; eassumption.
    - now left.
    - intros; split; assumption. }
  destruct (enhance_state (patterns_of template_df) (patterns_of raw_df)
              mappings U0 HRP (unmapped_template_of mappings)
              (fun r Hr => proj2 (HU0 r Hr))
              (unmapped_template_keys mappings) mappings U0 Hinit)
    as [E' [U' [Hen Hst]]].
  fold U0. rewrite Hen. simpl. exists E', U'.
  split; [reflexivity|]. split; [|exact Hst].
  eapply enhance_keys. eassumption.
Qed.
End Pipeline.

(** X6. On DataFrames with distinct column labels the auto-mapping (the
    name pass followed by the pattern pass) does not raise, and its Mapping
    lists the template columns in order, takes every source column from
    the raw columns and gives no raw column to two template columns. *)
Theorem auto_map_one_to_one {F : Rapidfuzz} {Sci : Scipy} {P : Pandas}
    (L : LinearSumAssignment Sci) (similarity_threshold : Z)
    (raw_df template_df : DataFrame) :
  NoDup (columns raw_df) -> NoDup (columns template_df) ->
  exists M,
    auto_map similarity_threshold raw_df template_df = Ok M /\
    keys M = columns template_df /\
    mapping_one_to_one M /\
    forall t s c, dict_get str_dec M t = Some (Some s, c) -> In s (columns raw_df).
Proof.
  intros Hraw Htem. unfold auto_map.
  destruct (name_pass_one_to_one L similarity_threshold
              (columns raw_df) (columns template_df) Hraw)
    as [M0 [HM0 [Hone Hsrc]]].
  rewrite HM0. simpl.
  destruct (pattern_pass_state raw_df template_df M0 Hraw)
    as [M [U [HM [Hkeys Hst]]]].
  exists M. split; [exact HM|]. split; [|split].
  - rewrite Hkeys.
    now apply (name_pass_keys similarity_threshold
                 (columns raw_df) (columns template_df)).
  - intros t1 t2 s1 s2 c1 c2 Hne H1 H2 Hs. subst s2.
    destruct (shared_before Hst Hne H1 H2) as [G1 G2].
    exact (Hone t1 t2 s1 s1 c1 c2 Hne G1 G2 eq_refl).
  - intros t s c H.
    destruct (kept_or_assigned Hst t)
      as [E | [m0 [c0 [r [pat [_ [_ [HE [Hr _]]]]]]]]].
    + rewrite E in H. eapply Hsrc; eassumption.
    + rewrite HE in H. injection H as <- _.
      apply filter_In in Hr. apply Hr.
Qed.

Lemma auto_map_one_to_one_witness :
  exists M,
    @auto_map exact_ratio exhaustive toy_pandas 70 raw_df_ex template_df_ex = Ok M /\
    keys M = columns template_df_ex /\
    mapping_one_to_one M.
Proof.
  assert (Hraw : NoDup (columns raw_df_ex)).
  { repeat constructor; simpl; intuition discriminate. }
  assert (Htem : NoDup (columns template_df_ex)).
  { repeat constructor; simpl; intuition discriminate. }
  destruct (@auto_map_one_to_one exact_ratio exhaustive toy_pandas
              Exhaustive.meets_contract 70 raw_df_ex template_df_ex Hraw Htem)
    as [M [HM [Hk [Hone _]]]].
  exists M. split; [exact HM|]. split; [exact Hk | exact Hone].
Defined.

Example auto_map_ex :
  @auto_map exact_ratio exhaustive toy_pandas 70 raw_df_ex template_df_ex =
  Ok [ (py "Email", (Some (py "mail"), 0.95));
       (py "Start", (Some (py "when"), 0.6));
       (py "End", (Some (py "since"), 0.6));
       (py "Notes", (None, 0)) ].
Proof. vm_compute. reflexivity. Qed.

(** ** [_detect_value_contamination]: when it raises and what it reports *)

Lemma dict_set_keys_cases {K V} (K_dec : forall a b : K, {a = b} + {a <> b})
    (d : dict K V) (k : K) (v : V) :
  (In k (keys d) /\ keys (dict_set K_dec d k v) = keys d) \/
  (~ In k (keys d) /\ keys (dict_set K_dec d k v) = keys d ++ [k]).
Proof.
  destruct (dict_get K_dec d k) as [v0|] eqn:E.
  - left. split.
    + apply (dict_get_keys K_dec). congruence.
    + apply dict_set_keys_present. congruence.
  - right.
    assert (H : ~ In k (keys d)).
    { intros H. apply (dict_get_keys K_dec) in H. congruence. }
    split; [exact H|]. rewrite dict_set_fresh by exact H.
    unfold keys. now rewrite map_app.
Qed.

Lemma dict_set_keys_NoDup {K V} (K_dec : forall a b : K, {a = b} + {a <> b})
    (d : dict K V) (k : K) (v : V) :
  NoDup (keys d) -> NoDup (keys (dict_set K_dec d k v)).
Proof.
  intros H. destruct (dict_set_keys_cases K_dec d k v) as [[_ ->] | [Hk ->]].
  - exact H.
  - apply NoDup_app; [exact H | repeat constructor; intros [] |].
    intros x Hx [<- | []]. contradiction.
Qed.

Lemma dict_set_keys_incl {K V} (K_dec : forall a b : K, {a = b} + {a <> b})
    (d : dict K V) (k : K) (v : V) (x : K) :
  In x (keys (dict_set K_dec d k v)) <-> x = k \/ In x (keys d).
Proof.
  destruct (dict_set_keys_cases K_dec d k v) as [[Hk ->] | [Hk ->]].
  - split; [now right | intros [-> | H]; assumption].
  - rewrite in_app_iff. simpl. split; intros H; intuition congruence.
Qed.

Section ContaminationReportFacts.
Context {P : Pandas}.

(** The first loop raises exactly on an oversampled column, and the
    samples it returns are sets, one per column at most. *)
Lemma collect_samples_cases (len_df sample_size : nat) (cols : DataFrame) :
  forall S0 : dict str (list str),
    NoDup (keys S0) ->
    (forall c s, dict_get str_dec S0 c = Some s -> NoDup s) ->
    (Exists (oversampled len_df sample_size) cols /\
     collect_samples len_df sample_size cols S0 = Raise ValueError) \/
    (~ Exists (oversampled len_df sample_size) cols /\
     exists S,
       collect_samples len_df sample_size cols S0 = Ok S /\
       NoDup (keys S) /\
       (forall c s, dict_get str_dec S c = Some s -> NoDup s) /\
       (forall c, In c (keys S) -> In c (keys S0) \/ In c (keys cols))).
Proof.
  induction cols as [|[col series] cols IH]; intros S0 Hk Hv.
  - right. split; [intros H; inversion H|].
    exists S0. repeat split; auto.
  - simpl. fold (identifier_like len_df series).
    assert (Hnext : forall S1 : dict str (list str),
              NoDup (keys S1) ->
              (forall c s, dict_get str_dec S1 c = Some s -> NoDup s) ->
              (forall c, In c (keys S1) -> In c (keys S0) \/ c = col) ->
              ~ oversampled len_df sample_size (col, series) ->
              (Exists (oversampled len_df sample_size) ((col, series) :: cols) /\
               collect_samples len_df sample_size cols S1 = Raise ValueError) \/
              (~ Exists (oversampled len_df sample_size) ((col, series) :: cols) /\
               exists S,
                 collect_samples len_df sample_size cols S1 = Ok S /\
                 NoDup (keys S) /\
                 (forall c s, dict_get str_dec S c = Some s -> NoDup s) /\
                 (forall c, In c (keys S) ->
                            In c (keys S0) \/ In c (keys ((col, series) :: cols))))).
    { intros S1 Hk1 Hv1 Hin1 Hnot.
      destruct (IH S1 Hk1 Hv1) as [[Hex Hr] | [Hex [S [HS [HkS [HvS HinS]]]]]].
      - left. split; [now apply Exists_cons_tl | exact Hr].
      - right. split.
        + intros H. apply Exists_cons in H. tauto.
        + exists S. repeat split; try assumption.
          intros c Hc. destruct (HinS c Hc) as [H | H].
          * destruct (Hin1 c H) as [H' | ->]; [now left | right; now left].
          * right. now right. }
    destruct (identifier_like len_df series) eqn:Eid.
    { apply Hnext; auto. intros [H _]. simpl in H. congruence. }
    unfold Series_sample.
    destruct (Nat.ltb_spec (List.length (dropna series))
                (Nat.min sample_size (List.length series))) as [Hlt | Hge].
    { left. split; [|reflexivity]. apply Exists_cons_hd. split; assumption. }
    simpl.
    assert (Hnot : ~ oversampled len_df sample_size (col, series)).
    { intros [_ H]. simpl in H. lia. }
    destruct (0 <? _)%nat.
    + apply Hnext; try assumption.
      * now apply dict_set_keys_NoDup.
      * intros c s Hs. rewrite dict_get_set in Hs.
        destruct (str_dec c col); [|eauto].
        injection Hs as <-. apply NoDup_nodup.
      * intros c Hc. apply dict_set_keys_incl in Hc. tauto.
    + apply Hnext; auto.
Qed.

Lemma reported_append (rep : ContaminationReport) (col : str) (x : overlap)
    (a b : str) (p : Z) :
  reported (report_append rep col x) a b p <->
  reported rep a b p \/ (a = col /\ x = (b, p)).
Proof.
  unfold reported, report_append.
  destruct (dict_get str_dec rep col) as [l0|] eqn:E.
  - split.
    + intros [l [Hl Hin]]. rewrite dict_get_set in Hl.
      destruct (str_dec a col) as [-> | Hne].
      * injection Hl as <-. apply in_app_or in Hin.
        destruct Hin as [Hin | [-> | []]]; [left; eauto | now right].
      * left. eauto.
    + intros [[l [Hl Hin]] | [-> ->]].
      * destruct (str_dec a col) as [-> | Hne].
        -- exists (l0 ++ [x]). rewrite dict_get_set.
           destruct (str_dec col col); [|congruence].
           split; [reflexivity|]. apply in_or_app. left.
           assert (l = l0) by congruence. now subst.
        -- exists l. rewrite dict_get_set.
           destruct (str_dec a col); [congruence | auto].
      * exists (l0 ++ [(b, p)]). rewrite dict_get_set.
        destruct (str_dec col col); [|congruence].
        split; [reflexivity|]. apply in_or_app. right. now left.
  - split.
    + intros [l [Hl Hin]]. rewrite dict_get_set in Hl.
      destruct (str_dec a col) as [-> | Hne].
      * injection Hl as <-. destruct Hin as [-> | []]. now right.
      * left. eauto.
    + intros [[l [Hl Hin]] | [-> ->]].
      * exists l. rewrite dict_get_set.
        destruct (str_dec a col) as [-> | Hne]; [congruence | auto].
      * exists [(b, p)]. rewrite dict_get_set.
        destruct (str_dec col col); [|congruence].
        split; [reflexivity | now left].
Qed.
End ContaminationReportFacts.

Lemma overlap_percentage (s1 s2 : list str) :
  NoDup s1 ->
  (0 < List.length (inter s1 s2))%nat ->
  let overlap_pct :=
    true_divide (List.length (inter s1 s2))
                (Nat.min (List.length s1) (List.length s2)) in
  round64 0.1 < overlap_pct ->
  (10 <= int_of_float (float_mul overlap_pct 100) <= 100)%Z.
Proof.
  intros Hnd Hpos overlap_pct Hov.
  assert (H1 : (List.length (inter s1 s2) <= List.length s1)%nat)
    by apply filter_length_le.
  assert (H2 : (List.length (inter s1 s2) <= List.length s2)%nat).
  { apply NoDup_incl_length.
    - now apply NoDup_filter.
    - intros w Hw. apply inter_In in Hw. tauto. }
  apply float_percentage; [lia | exact Hov].
Qed.

Section ContaminationPairs.
Context {P : Pandas}.
Variable S : dict str (list str).
Hypothesis S_sets : forall c s, dict_get str_dec S c = Some s -> NoDup s.

Lemma good_report_step (rep : ContaminationReport) (col1 col2 : str) (pct : Z) :
  good_report S rep ->
  col1 <> col2 -> In col1 (keys S) -> In col2 (keys S) ->
  (10 <= pct <= 100)%Z ->
  good_report S (report_append (report_append rep col1 (col2, pct))
                               col2 (col1, pct)).
Proof.
  intros Hgood Hne H1 H2 Hp a b p Hrep.
  rewrite !reported_append in Hrep.
  assert (Hmono : forall x y q,
            reported rep x y q ->
            reported (report_append (report_append rep col1 (col2, pct))
                                    col2 (col1, pct)) x y q).
  { intros x y q H. rewrite !reported_append. tauto. }
  destruct Hrep as [[Hold | [-> E]] | [-> E]].
  - destruct (Hgood a b p Hold) as [G1 [G2 [G3 [G4 G5]]]].
    repeat split; auto; try lia.
  - injection E as <- <-.
    split; [assumption|]. split; [assumption|]. split; [assumption|].
    split; [lia|].
    rewrite !reported_append. right. auto.
  - injection E as <- <-.
    split; [congruence|]. split; [assumption|]. split; [assumption|].
    split; [lia|].
    rewrite !reported_append. left. right. auto.
Qed.

Lemma compare_with_good (col1 : str) (others : list str) :
  In col1 (keys S) -> incl others (keys S) -> ~ In col1 others ->
  forall rep,
    good_report S rep ->
    exists rep', compare_with S col1 others rep = Ok rep' /\ good_report S rep'.
Proof.
  intros H1. induction others as [|col2 rest IH]; intros Hincl Hnot rep Hgood;
    simpl.
  - eauto.
  - assert (H2 : In col2 (keys S)) by (apply Hincl; now left).
    assert (Hrest : incl rest (keys S)) by (intros x Hx; apply Hincl; now right).
    assert (Hnot' : ~ In col1 rest) by (intros H; apply Hnot; now right).
    assert (Hne : col1 <> col2) by (intros ->; apply Hnot; now left).
    unfold dict_item.
    destruct (dict_get str_dec S col1) as [s1|] eqn:E1;
      [|exfalso; revert E1; now apply dict_get_keys].
    destruct (dict_get str_dec S col2) as [s2|] eqn:E2;
      [|exfalso; revert E2; now apply dict_get_keys].
    simpl.
    destruct (Nat.ltb_spec 0 (List.length (inter s1 s2))) as [Hpos | Hpos];
      [|now apply IH].
    destruct (Qltb (round64 0.1) _) eqn:Eov; [|now apply IH].
    apply Qltb_lt in Eov.
    apply IH; try assumption.
    apply good_report_step; try assumption.
    apply overlap_percentage; eauto.
Qed.

Lemma compare_all_good (cols : list str) :
  NoDup cols -> incl cols (keys S) ->
  forall rep,
    good_report S rep ->
    exists rep', compare_all S cols rep = Ok rep' /\ good_report S rep'.
Proof.
  induction cols as [|col1 rest IH]; intros Hnd Hincl rep Hgood; simpl.
  - eauto.
  - inversion Hnd as [|? ? Hnot Hnd']; subst.
    assert (Hrest : incl rest (keys S)) by (intros x Hx; apply Hincl; now right).
    destruct (compare_with_good col1 rest (Hincl col1 (or_introl eq_refl))
                Hrest Hnot rep Hgood) as [rep1 [-> Hgood1]].
    simpl. now apply IH.
Qed.
End ContaminationPairs.

(** X7. [_detect_value_contamination] raises [ValueError] exactly when some
    column that is not left out as identifier-like has fewer non-null
    values than [min(sample_size, len(column))]; otherwise it returns a
    report. *)
Theorem contamination_raises_iff_oversampled {P : Pandas}
    (df : DataFrame) (sample_size : nat) :
  (Exists (oversampled (nrows df) sample_size) df /\
   _detect_value_contamination df sample_size = Raise ValueError) \/
  (~ Exists (oversampled (nrows df) sample_size) df /\
   exists rep, _detect_value_contamination df sample_size = Ok rep).
Proof.
  unfold _detect_value_contamination.
  destruct (collect_samples_cases (nrows df) sample_size df [])
    as [[Hex ->] | [Hex [S [-> [Hk [Hv _]]]]]].
  - constructor.
  - intros c s H. discriminate H.
  - left. split; [exact Hex | reflexivity].
  - right. split; [exact Hex|]. simpl.
    destruct (compare_all_good S Hv (keys S) Hk (incl_refl _) [])
      as [rep [Hrep _]].
    + intros a b p [l [Hl _]]. discriminate Hl.
    + now exists rep.
Qed.

(** X8. In a report that [_detect_value_contamination] returns, every line
    relates two distinct columns of the DataFrame, carries a percentage
    between 10 and 100, and is listed under both columns with the same
    percentage. The percentage is the source's [int(overlap_pct*100)],
    computed in binary64, whatever the size of the samples. *)
Theorem contamination_report_symmetric {P : Pandas}
    (df : DataFrame) (sample_size : nat) (rep : ContaminationReport) :
  _detect_value_contamination df sample_size = Ok rep ->
  forall a b p,
    reported rep a b p ->
    a <> b /\ In a (columns df) /\ In b (columns df) /\
    (10 <= p <= 100)%Z /\ reported rep b a p.
Proof.
  unfold _detect_value_contamination. intros Hrep.
  destruct (collect_samples_cases (nrows df) sample_size df [])
    as [[_ Hr] | [_ [S [HS [Hk [Hv Hin]]]]]].
  - constructor.
  - intros c s H. discriminate H.
  - rewrite Hr in Hrep. discriminate Hrep.
  - rewrite HS in Hrep. simpl in Hrep.
    destruct (compare_all_good S Hv (keys S) Hk (incl_refl _) [])
      as [rep' [Hrep' Hgood]].
    + intros a b p [l [Hl _]]. discriminate Hl.
    + rewrite Hrep' in Hrep. injection Hrep as <-.
      intros a b p Hab. destruct (Hgood a b p Hab) as [G1 [G2 [G3 [G4 G5]]]].
      repeat split; try assumption; try lia.
      * destruct (Hin a G2) as [[] | H]. exact H.
      * destruct (Hin b G3) as [[] | H]. exact H.
Qed.

Example contamination_report_ex :
  @_detect_value_contamination toy_pandas df_shared 100 =
  Ok [ (py "ship_city", [(py "bill_city", 100%Z)]);
       (py "bill_city", [(py "ship_city", 100%Z)]) ].
Proof. vm_compute. reflexivity. Qed.

Lemma contamination_report_symmetric_witness :
  reported [ (py "ship_city", [(py "bill_city", 100%Z)]);
             (py "bill_city", [(py "ship_city", 100%Z)]) ]
           (py "bill_city") (py "ship_city") 100.
Proof.
  refine (proj2 (proj2 (proj2 (proj2
    (@contamination_report_symmetric toy_pandas df_shared 100 _ _
       (py "ship_city") (py "bill_city") 100%Z _))))).
  - vm_compute. reflexivity.
  - eexists. split; [reflexivity | now left].
Defined.

(** ** Fingerprints do not depend on the order of the columns *)

Lemma code_inj (x y : ascii) : code x = code y -> x = y.
Proof.
  unfold code. intros H.
  rewrite <- (ascii_nat_embedding x), <- (ascii_nat_embedding y). now rewrite H.
Qed.

Lemma str_leb_refl (a : str) : str_leb a a = true.
Proof.
  induction a as [|x a IH]; simpl; [reflexivity|].
  now rewrite Nat.ltb_irrefl.
Qed.

Lemma str_leb_total (a b : str) : str_leb a b = true \/ str_leb b a = true.
Proof.
  revert b. induction a as [|x a IH]; intros [|y b]; simpl; auto.
  destruct (Nat.ltb_spec (code x) (code y)), (Nat.ltb_spec (code y) (code x));
    auto; lia.
Qed.

Lemma str_leb_antisym (a b : str) :
  str_leb a b = true -> str_leb b a = true -> a = b.
Proof.
  revert b. induction a as [|x a IH]; intros [|y b]; simpl; try congruence.
  destruct (Nat.ltb_spec (code x) (code y)), (Nat.ltb_spec (code y) (code x));
    try congruence; try lia.
  intros H1 H2. f_equal; [apply code_inj; lia | now apply IH].
Qed.

Lemma str_leb_trans (a b c : str) :
  str_leb a b = true -> str_leb b c = true -> str_leb a c = true.
Proof.
  revert b c. induction a as [|x a IH]; intros [|y b] [|z c]; simpl;
    try congruence.
  destruct (Nat.ltb_spec (code x) (code y)), (Nat.ltb_spec (code y) (code x)),
           (Nat.ltb_spec (code y) (code z)), (Nat.ltb_spec (code z) (code y)),
           (Nat.ltb_spec (code x) (code z)), (Nat.ltb_spec (code z) (code x));
    try congruence; try lia.
  apply IH.
Qed.

Lemma insert_sorted_comm (x y : str) (l : list str) :
  insert_sorted x (insert_sorted y l) = insert_sorted y (insert_sorted x l).
Proof.
  induction l as [|h t IH]; simpl.
  - destruct (str_leb x y) eqn:Exy, (str_leb y x) eqn:Eyx; try reflexivity.
    + now rewrite (str_leb_antisym x y Exy Eyx).
    + destruct (str_leb_total x y); congruence.
  - destruct (str_leb x h) eqn:Exh, (str_leb y h) eqn:Eyh; simpl;
      rewrite ?Exh, ?Eyh.
    + destruct (str_leb x y) eqn:Exy, (str_leb y x) eqn:Eyx; try reflexivity.
      * now rewrite (str_leb_antisym x y Exy Eyx).
      * destruct (str_leb_total x y); congruence.
    + destruct (str_leb y x) eqn:Eyx; [|reflexivity].
      rewrite (str_leb_trans y x h Eyx Exh) in Eyh. discriminate.
    + destruct (str_leb x y) eqn:Exy; [|reflexivity].
      rewrite (str_leb_trans x y h Exy Eyh) in Exh. discriminate.
    + now rewrite IH.
Qed.

Lemma sorted_Permutation (l l' : list str) :
  Permutation l l' -> sorted l = sorted l'.
Proof.
  unfold sorted. induction 1 as [| x l l' _ IH | x y l | l l' l'' _ IH1 _ IH2];
    simpl.
  - reflexivity.
  - now rewrite IH.
  - apply insert_sorted_comm.
  - congruence.
Qed.

(** X9. The configuration saved for some raw and template columns is
    compatible with the same columns in any order: the fingerprints do not
    change, [validate_compatibility] answers with a perfect match, and the
    mappings can be reused. *)
Theorem compatibility_up_to_order {H : Hashlib} {Stats : Type}
    (timestamp : str) (raw_columns template_columns : list str)
    (mappings : Mapping) (raw_stats template_stats : Stats)
    (raw_columns' template_columns' : list str) :
  Permutation raw_columns raw_columns' ->
  Permutation template_columns template_columns' ->
  let metadata := create_metadata timestamp raw_columns template_columns
                                  mappings raw_stats template_stats in
  let c := validate_compatibility metadata raw_columns' template_columns' in
  _generate_fingerprint raw_columns' = _generate_fingerprint raw_columns /\
  is_compatible c = true /\
  can_reuse_mappings c = true /\
  recommendation c = py "Perfect match! You can reuse all mappings.".
Proof.
  intros Hraw Htem metadata c.
  assert (Er : _generate_fingerprint raw_columns' = _generate_fingerprint raw_columns).
  { unfold _generate_fingerprint. now rewrite (sorted_Permutation _ _ Hraw). }
  assert (Et : _generate_fingerprint template_columns' =
               _generate_fingerprint template_columns).
  { unfold _generate_fingerprint. now rewrite (sorted_Permutation _ _ Htem). }
  split; [exact Er|].
  unfold c, validate_compatibility, metadata. simpl.
  rewrite Er, Et, !str_eqb_refl. repeat split.
Qed.

Lemma compatibility_up_to_order_witness :
  is_compatible
    (@validate_compatibility toy_hash unit
       (@create_metadata toy_hash unit (py "2024-01-01T00:00:00") raw_ex
                         template_ex mappings_ex tt tt)
       [py "zzz"; py "email"] [py "Name"; py "E-mail"]) = true.
Proof.
  refine (proj1 (proj2 (@compatibility_up_to_order toy_hash unit
    (py "2024-01-01T00:00:00") raw_ex template_ex mappings_ex tt tt
    [py "zzz"; py "email"] [py "Name"; py "E-mail"] _ _))).
  - apply perm_swap.
  - apply perm_swap.
Defined.

(** ** [get_reusable_mappings] reads back the sources of the Mapping *)

Lemma reusable_fold (l : dict str serialized_mapping) :
  NoDup (keys l) ->
  forall (acc : dict str str) (t : str),
    dict_get str_dec
      (fold_left
         (fun reusable kv =>
            if truthy_col (source_column (snd kv)) then
              match source_column (snd kv) with
              | Some source => dict_set str_dec reusable (fst kv) source
              | None => reusable
              end
            else reusable) l acc) t =
    match dict_get str_dec l t with
    | Some e => if truthy_col (source_column e) then source_column e
                else dict_get str_dec acc t
    | None => dict_get str_dec acc t
    end.
Proof.
  induction l as [|[k e] l IH]; intros Hnd acc t; simpl.
  - reflexivity.
  - simpl in Hnd. inversion Hnd as [|? ? Hk Hnd']; subst.
    rewrite (IH Hnd').
    destruct (str_dec t k) as [-> | Hne].
    + assert (El : dict_get str_dec l k = None).
      { destruct (dict_get str_dec l k) eqn:E; [|reflexivity].
        exfalso. apply Hk. apply (dict_get_keys str_dec). congruence. }
      rewrite El.
      destruct (source_column e) as [[|ch s]|]; simpl; try reflexivity.
      rewrite dict_get_set. destruct (str_dec k k); congruence.
    + destruct (dict_get str_dec l t) as [e'|]; [destruct (truthy_col _)|];
        try reflexivity;
        destruct (source_column e) as [[|ch s]|]; simpl; try reflexivity;
        rewrite dict_get_set; destruct (str_dec t k); congruence.
Qed.

Lemma serialize_as_map (mappings : Mapping) :
  NoDup (keys mappings) ->
  _serialize_mappings mappings =
  map (fun kv =>
         (fst kv,
          {| source_column := fst (snd kv);
             confidence_score :=
               if truthy (snd (snd kv)) then snd (snd kv) else 0;
             mapping_type :=
               if truthy (snd (snd kv)) && Qle_bool 80 (snd (snd kv))
               then py "automatic" else py "manual" |}))
      mappings.
Proof.
  intros Hnd. unfold _serialize_mappings.
  rewrite dict_of_NoDup.
  - apply map_ext. intros [k [r c]]. reflexivity.
  - rewrite map_map. erewrite map_ext; [exact Hnd|].
    intros [k [r c]]. reflexivity.
Qed.

(** X10. After [create_metadata], [get_reusable_mappings] gives back exactly
    the template columns of the Mapping that have a non-empty source
    column, each with that source column. *)
Theorem reusable_mappings_round_trip {H : Hashlib} {Stats : Type}
    (timestamp : str) (raw_columns template_columns : list str)
    (mappings : Mapping) (raw_stats template_stats : Stats) :
  NoDup (keys mappings) ->
  forall t r,
    dict_get str_dec
      (get_reusable_mappings
         (create_metadata timestamp raw_columns template_columns mappings
                          raw_stats template_stats)) t = Some r <->
    r <> [] /\ exists c, dict_get str_dec mappings t = Some (Some r, c).
Proof.
  intros Hnd t r. unfold get_reusable_mappings, create_metadata. simpl.
  rewrite (serialize_as_map mappings Hnd).
  rewrite reusable_fold.
  - rewrite (dict_get_map str_dec
               (fun v : option str * Q =>
                  {| source_column := fst v;
                     confidence_score := if truthy (snd v) then snd v else 0;
                     mapping_type := if truthy (snd v) && Qle_bool 80 (snd v)
                                     then py "automatic" else py "manual" |})
               mappings t).
    destruct (dict_get str_dec mappings t) as [[src c]|]; simpl.
    + destruct src as [[|ch s]|]; simpl.
      * split; [discriminate | intros [Hr [c' E]]; congruence].
      * split.
        -- intros [= <-]. split; [discriminate | eauto].
        -- intros [_ [c' E]]. congruence.
      * split; [discriminate | intros [_ [c' E]]; discriminate].
    + split; [discriminate | intros [_ [c' E]]; discriminate].
  - unfold keys. rewrite map_map. exact Hnd.
Qed.

Lemma reusable_mappings_round_trip_witness :
  dict_get str_dec
    (get_reusable_mappings
       (@create_metadata toy_hash unit (py "2024-01-01T00:00:00") raw_ex
                         template_ex mappings_ex tt tt)) (py "Email") =
  Some (py "mail").
Proof.
  assert (Hnd : NoDup (keys mappings_ex)).
  { repeat constructor; simpl; intuition discriminate. }
  apply (proj2 (@reusable_mappings_round_trip toy_hash unit (py "2024-01-01T00:00:00")
                  raw_ex template_ex mappings_ex tt tt Hnd
                  (py "Email") (py "mail"))).
  split; [discriminate | eexists; reflexivity].
Defined.

(** ** [clean_data] *)

Lemma lstrip_idem (s : str) : lstrip (lstrip s) = lstrip s.
Proof.
  induction s as [|c s IH]; simpl; [reflexivity|].
  destruct (is_space c) eqn:E; [exact IH|]. simpl. now rewrite E.
Qed.

Lemma lstrip_suffix (s : str) : exists pre, s = pre ++ lstrip s.
Proof.
  induction s as [|c s [pre IH]]; simpl.
  - now exists [].
  - destruct (is_space c).
    + exists (c :: pre). simpl. now f_equal.
    + now exists [].
Qed.

Lemma lstrip_head (s : str) (c : ascii) (t : str) :
  lstrip s = c :: t -> is_space c = false.
Proof.
  induction s as [|x s IH]; simpl; [discriminate|].
  destruct (is_space x) eqn:E; [exact IH|].
  intros [= <- _]. exact E.
Qed.

Lemma lstrip_fixed (s : str) :
  (forall c t, s = c :: t -> is_space c = false) -> lstrip s = s.
Proof.
  destruct s as [|c t]; simpl; [reflexivity|].
  intros H. now rewrite (H c t eq_refl).
Qed.

Lemma rstrip_idem (s : str) : rstrip (rstrip s) = rstrip s.
Proof.
  unfold rstrip. now rewrite rev_involutive, lstrip_idem.
Qed.

Lemma rstrip_prefix (s : str) : exists suf, s = rstrip s ++ suf.
Proof.
  unfold rstrip. destruct (lstrip_suffix (rev s)) as [pre H].
  exists (rev pre). rewrite <- rev_app_distr, <- H. now rewrite rev_involutive.
Qed.

Lemma strip_idem (s : str) : strip (strip s) = strip s.
Proof.
  unfold strip.
  assert (H : lstrip (rstrip (lstrip s)) = rstrip (lstrip s)).
  { apply lstrip_fixed. intros c t E.
    destruct (rstrip_prefix (lstrip s)) as [suf Hs].
    rewrite E in Hs. simpl in Hs. eapply lstrip_head. exact Hs. }
  now rewrite H, rstrip_idem.
Qed.

Lemma clean_cell_value (cell : option str) : clean_value (clean_cell cell).
Proof.
  unfold clean_cell.
  destruct (mem (strip (astype_str cell)) NULL_TOKENS) eqn:E;
    unfold clean_value; [exact I|].
  split; [apply strip_idem|].
  intros H. apply mem_In in H. congruence.
Qed.

Lemma clean_cell_fixed (cell : option str) :
  clean_value cell -> clean_cell cell = cell.
Proof.
  destruct cell as [v|]; unfold clean_value.
  - intros [Hs Hn]. unfold clean_cell, astype_str. rewrite Hs.
    destruct (mem v NULL_TOKENS) eqn:E; [|reflexivity].
    apply mem_In in E. contradiction.
  - intros _. reflexivity.
Qed.

Lemma clean_cell_idem (cell : option str) :
  clean_cell (clean_cell cell) = clean_cell cell.
Proof. apply clean_cell_fixed, clean_cell_value. Qed.

(** X11. [clean_data] keeps the column labels and the number of cells of
    every column. In a column of dtype [object] every cell it leaves is a
    null or a text without surrounding white space that is none of '',
    'nan', 'None', 'null'. Cleaning again, on the columns that were
    cleaned or on fewer, changes nothing. *)
Theorem clean_data_idempotent (is_object is_object' : str -> bool)
    (df : DataFrame) :
  columns (clean_data is_object df) = columns df /\
  map (fun cs => List.length (snd cs)) (clean_data is_object df) =
    map (fun cs => List.length (snd cs)) df /\
  (forall col series,
      In (col, series) (clean_data is_object df) -> is_object col = true ->
      Forall clean_value series) /\
  ((forall col, is_object' col = true -> is_object col = true) ->
   clean_data is_object' (clean_data is_object df) = clean_data is_object df).
Proof.
  unfold clean_data, columns, keys. repeat split.
  - rewrite map_map. reflexivity.
  - rewrite map_map. apply map_ext. intros [col series]. simpl.
    destruct (is_object col); [apply length_map | reflexivity].
  - intros col series Hin Hobj. apply in_map_iff in Hin.
    destruct Hin as [[c s] [E _]]. simpl in E. injection E as -> <-.
    rewrite Hobj. apply Forall_forall. intros cell Hcell.
    apply in_map_iff in Hcell. destruct Hcell as [x [<- _]].
    apply clean_cell_value.
  - intros Hsub. rewrite map_map. apply map_ext. intros [col series]. simpl.
    f_equal. destruct (is_object' col) eqn:E'; [|reflexivity].
    rewrite (Hsub col E'). rewrite map_map. apply map_ext.
    intros cell. apply clean_cell_idem.
Qed.

Lemma clean_data_idempotent_witness :
  clean_data (fun _ => true) (clean_data (fun _ => true) df_with_null) =
  clean_data (fun _ => true) df_with_null.
Proof.
  apply (proj2 (proj2 (proj2
    (clean_data_idempotent (fun _ => true) (fun _ => true) df_with_null)))).
  intros col H. exact H.
Defined.

Example clean_data_ex :
  clean_data (fun col => str_eqb col (py "a"))
    [ (py "a", [Some (py "  x y  "); Some (py " null"); None; Some (py "None ")]);
      (py "b", [Some (py " 1 "); None]) ] =
  [ (py "a", [Some (py "x y"); None; None; None]);
    (py "b", [Some (py " 1 "); None]) ].
Proof. vm_compute. reflexivity. Qed.

(** ** The review of the mappings: the select boxes *)

Lemma mem_filter (f : str -> bool) (w : str) (l : list str) :
  mem w (filter f l) = mem w l && f w.
Proof.
  destruct (mem w (filter f l)) eqn:E.
  - apply mem_In, filter_In in E. destruct E as [Hin Hf].
    apply mem_In in Hin. now rewrite Hin, Hf.
  - destruct (mem w l) eqn:El; [|reflexivity].
    destruct (f w) eqn:Ef; [|reflexivity].
    exfalso. apply mem_In in El.
    assert (H : In w (filter f l)) by (apply filter_In; now split).
    apply mem_In in H. congruence.
Qed.

Lemma nth_list_index (x d : str) (l : list str) :
  In x l -> nth (list_index x l) l d = x.
Proof.
  induction l as [|y l IH]; simpl; [contradiction|].
  intros H. destruct (str_eqb y x) eqn:E.
  - now apply str_eqb_eq in E.
  - apply IH. destruct H as [-> | H]; [|exact H].
    rewrite str_eqb_refl in E. discriminate.
Qed.

(** The select box of an entry opens on the source column of the entry
    when that is a raw column, and on "no match" otherwise. *)
Lemma default_selected_source (raw_columns used : list str)
    (raw_col : option str) :
  default_selected raw_columns used raw_col =
  match raw_col with
  | Some r => if mem r raw_columns then r else NO_MATCH
  | None => NO_MATCH
  end.
Proof.
  unfold default_selected.
  set (available := available_columns raw_columns used raw_col).
  assert (Hcur : current_selection available raw_col =
                 match raw_col with
                 | Some r => if mem r raw_columns then r else NO_MATCH
                 | None => NO_MATCH
                 end).
  { unfold current_selection, available, available_columns. simpl tl.
    destruct raw_col as [r|]; simpl; [|reflexivity].
    rewrite mem_filter. simpl. rewrite str_eqb_refl, orb_true_r, andb_true_r.
    reflexivity. }
  assert (Hin : In (current_selection available raw_col) available).
  { rewrite Hcur. unfold available, available_columns.
    destruct raw_col as [r|]; [|now left].
    destruct (mem r raw_columns) eqn:E; [|now left].
    right. apply filter_In. split; [now apply mem_In|].
    simpl. rewrite str_eqb_refl. apply orb_true_r. }
  pose proof Hin as Hmem. apply mem_In in Hmem. rewrite Hmem.
  rewrite (nth_list_index _ _ _ Hin). exact Hcur.
Qed.

Lemma review_appends (raw_columns used : list str) (l : Mapping) :
  Forall (reviewable raw_columns) l ->
  forall acc : Mapping,
    NoDup (keys acc ++ keys l) ->
    review true (fun _ raw_col => default_selected raw_columns used raw_col)
           l acc = acc ++ l.
Proof.
  induction 1 as [|[t [src c]] l Hkv _ IH]; intros acc Hnd; simpl.
  - now rewrite app_nil_r.
  - assert (Hfresh : ~ In t (keys acc)).
    { simpl in Hnd. apply NoDup_remove_2 in Hnd.
      intros H. apply Hnd. apply in_or_app. now left. }
    assert (Hentry : edited_entry c (default_selected raw_columns used src)
                     = (src, c)).
    { rewrite default_selected_source. unfold reviewable in Hkv. simpl in Hkv.
      destruct src as [r|].
      - destruct Hkv as [Hr [Hne Hc]].
        apply mem_In in Hr. rewrite Hr.
        rewrite (edited_entry_selected c r Hne).
        apply Qltb_lt in Hc. now rewrite Hc.
      - subst c. reflexivity. }
    rewrite Hentry, (dict_set_fresh str_dec acc t (src, c) Hfresh).
    rewrite IH.
    + now rewrite <- app_assoc.
    + unfold keys in *. rewrite map_app. simpl in *.
      rewrite <- app_assoc. exact Hnd.
Qed.

(** X12. When every select box is left on the option it opens with and all
    mappings are shown, the review gives back the Mapping it was given,
    provided each entry is [(None, 0.0)] or a raw column (not named like
    the "no match" option) with a positive confidence. *)
Theorem review_default_is_identity (raw_columns : list str) (mappings : Mapping) :
  NoDup (keys mappings) ->
  Forall (reviewable raw_columns) mappings ->
  review true
         (fun _ raw_col =>
            default_selected raw_columns (used_columns_set mappings) raw_col)
         mappings [] = mappings.
Proof.
  intros Hnd Hok.
  now rewrite (review_appends raw_columns (used_columns_set mappings)
                 mappings Hok []).
Qed.

Lemma review_default_is_identity_witness :
  review true
         (fun _ raw_col =>
            default_selected (columns raw_df_ex) (used_columns_set mappings_ex)
                             raw_col)
         mappings_ex [] = mappings_ex.
Proof.
  apply review_default_is_identity.
  - repeat constructor; simpl; intuition discriminate.
  - unfold mappings_ex, reviewable. repeat constructor; simpl; auto.
    discriminate.
Defined.

Lemma review_keys (show_all : bool) (selectbox : str -> option str -> str)
    (l : Mapping) :
  forall acc : Mapping,
    NoDup (keys acc ++ keys l) ->
    keys (review show_all selectbox l acc) =
    keys acc ++ keys (filter (fun kv => show_all || negb (auto_accepted kv)) l).
Proof.
  induction l as [|[t [src c]] l IH]; intros acc Hnd; simpl.
  - now rewrite app_nil_r.
  - assert (Hfresh : ~ In t (keys acc)).
    { simpl in Hnd. apply NoDup_remove_2 in Hnd.
      intros H. apply Hnd. apply in_or_app. now left. }
    assert (Hrest : NoDup (keys acc ++ keys l)).
    { simpl in Hnd. now apply NoDup_remove_1 in Hnd. }
    unfold auto_accepted at 1. simpl.
    destruct show_all; simpl.
    + rewrite IH.
      * rewrite (dict_set_fresh str_dec acc t _ Hfresh).
        unfold keys. rewrite map_app. simpl. now rewrite <- app_assoc.
      * rewrite (dict_set_fresh str_dec acc t _ Hfresh).
        unfold keys in *. rewrite map_app. simpl in *.
        rewrite <- app_assoc. exact Hnd.
    + destruct (is_not_None src && Qle_bool 0.8 c); simpl.
      * now apply IH.
      * rewrite IH.
        -- rewrite (dict_set_fresh str_dec acc t _ Hfresh).
           unfold keys. rewrite map_app. simpl. now rewrite <- app_assoc.
        -- rewrite (dict_set_fresh str_dec acc t _ Hfresh).
           unfold keys in *. rewrite map_app. simpl in *.
           rewrite <- app_assoc. exact Hnd.
Qed.

(** X13. Whatever the reviewer selects, the reviewed Mapping has the
    template columns of the entries that were shown, in their order: all of
    them when "Show all mappings" is on; when it is off, an entry with a
    source column and a confidence of 0.8 or more is left out of the
    Mapping that replaces the session's. *)
Theorem review_keeps_shown_entries (show_all : bool)
    (selectbox : str -> option str -> str) (mappings : Mapping) :
  NoDup (keys mappings) ->
  keys (review show_all selectbox mappings []) =
    keys (filter (fun kv => show_all || negb (auto_accepted kv)) mappings) /\
  (show_all = true -> keys (review show_all selectbox mappings []) = keys mappings) /\
  (show_all = false ->
   forall t r c,
     dict_get str_dec mappings t = Some (Some r, c) -> 0.8 <= c ->
     dict_get str_dec (review show_all selectbox mappings []) t = None).
Proof.
  intros Hnd.
  pose proof (review_keys show_all selectbox mappings [] Hnd) as Hk.
  simpl in Hk. split; [exact Hk|]. split.
  - intros ->. rewrite Hk. simpl.
    f_equal. clear. induction mappings as [|kv l IH]; simpl; congruence.
  - intros -> t r c Hget Hc.
    destruct (dict_get str_dec (review false selectbox mappings []) t) eqn:E;
      [|reflexivity].
    exfalso.
    assert (Hin : In t (keys (review false selectbox mappings []))).
    { apply (dict_get_keys str_dec). congruence. }
    rewrite Hk in Hin. unfold keys in Hin. apply in_map_iff in Hin.
    destruct Hin as [[t' [src' c']] [Et Hin]]. simpl in Et. subst t'.
    apply filter_In in Hin. destruct Hin as [Hin Hf].
    assert (Hentry : dict_get str_dec mappings t = Some (src', c')).
    { clear - Hnd Hin. induction mappings as [|[k v] l IH]; [contradiction|].
      simpl in *. inversion Hnd as [|? ? Hk Hnd']; subst.
      destruct Hin as [[= -> ->] | Hin].
      - destruct (str_dec t t); congruence.
      - destruct (str_dec t k) as [-> | Hne]; [|now apply IH].
        exfalso. apply Hk. apply in_map_iff. now exists (k, (src', c')). }
    rewrite Hget in Hentry. injection Hentry as <- <-.
    unfold auto_accepted in Hf. simpl in Hf.
    apply Qle_bool_iff in Hc. rewrite Hc in Hf. discriminate Hf.
Qed.

Lemma review_keeps_shown_entries_witness :
  dict_get str_dec (review false (fun _ _ => py "mail") mappings_ex [])
           (py "Email") = None.
Proof.
  assert (Hnd : NoDup (keys mappings_ex)).
  { repeat constructor; simpl; intuition discriminate. }
  apply (proj2 (proj2 (review_keeps_shown_entries false (fun _ _ => py "mail")
                         mappings_ex Hnd)) eq_refl (py "Email") (py "mail") 0.95).
  - reflexivity.
  - unfold Qle. simpl. lia.
Defined.

(** ** The form of a normalized header *)

Lemma clean_word_char (c : ascii) :
  clean_char c -> is_space c = false -> lower_alnum c = true.
Proof.
  intros [Hk Hl] Hs. revert Hk Hl Hs.
  destruct c as [[] [] [] [] [] [] [] []]; vm_compute; congruence.
Qed.

Lemma no_key_expands_to_itself (w : str) :
  expand w = w -> is_key w = false.
Proof.
  unfold expand, is_key.
  destruct (dict_get str_dec ABBREVIATIONS w) as [e|] eqn:E; [|reflexivity].
  intros ->. exfalso. apply dict_get_In in E.
  assert (H : forallb (fun kv : str * str => negb (str_eqb (fst kv) (snd kv)))
                      ABBREVIATIONS = true) by (vm_compute; reflexivity).
  rewrite forallb_forall in H. specialize (H _ E). simpl in H.
  now rewrite str_eqb_refl in H.
Qed.

Lemma join_split_stable (es : list str) :
  Forall stable es ->
  join space (List.concat (map split es)) = join space es.
Proof.
  induction 1 as [|e es [_ [Hne [Hj _]]] Hes IH]; [reflexivity|].
  simpl. destruct es as [|e' es].
  - simpl. now rewrite app_nil_r.
  - rewrite join_app.
    + now rewrite IH, Hj.
    + assumption.
    + inversion Hes as [|? ? [_ [Hne' _]] _]; subst. simpl.
      destruct (split e'); [congruence | discriminate].
Qed.

(** X14. A normalized header is a sequence of words separated by single
    spaces, without space at either end; every word is made of lowercase
    letters and digits and is not a key of [ABBREVIATIONS]. *)
Theorem normalize_header_normal_form (x : str) :
  let n := normalize_header x in
  join space (split n) = n /\
  Forall (fun w => w <> [] /\ forallb lower_alnum w = true /\ is_key w = false)
         (split n).
Proof.
  intros n. unfold n.
  destruct (normalize_header_words x) as [es [Hes ->]].
  rewrite split_join. split; [now apply join_split_stable|].
  apply Forall_forall. intros w Hw.
  apply in_concat in Hw. destruct Hw as [ws [Hws Hw]].
  apply in_map_iff in Hws. destruct Hws as [e [<- He]].
  rewrite Forall_forall in Hes. destruct (Hes e He) as [Hc [_ [_ Hx]]].
  pose proof (split_words e) as Hword. rewrite Forall_forall in Hword.
  destruct (Hword w Hw) as [Hne Hns].
  pose proof (split_chars Hc) as Hchars. rewrite Forall_forall in Hchars.
  specialize (Hchars w Hw).
  rewrite Forall_forall in Hx.
  split; [exact Hne|]. split.
  - apply forallb_forall. intros c Hin.
    unfold no_space in Hns. rewrite Forall_forall in Hns, Hchars.
    apply clean_word_char; auto.
  - apply no_key_expands_to_itself. now apply Hx.
Qed.

